(** * Cooling-shelter finder: ingestion pipeline and geospatial queries

    A shallow embedding of [web/src/lib/geo.ts], [web/src/lib/parseCoolingShelters.ts]
    and the source-candidate loop of [web/src/App.tsx].

    - JavaScript strings are sequences of UTF-16 code units ([list N]); the
      regular expressions of the source carry no [u] flag, so they see code
      units, exactly like the functions below.
    - JavaScript numbers are IEEE 754 binary64 values: Rocq's primitive
      [float], whose [+ - * / sqrt] and comparisons are the ones of the
      language.
    - [undefined] is [None]. *)

From Stdlib Require Import ZArith NArith List Bool Lia Floats Ascii String.
Import ListNotations.

Set Warnings "-inexact-float".

(** ** Strings *)

Local Open Scope N_scope.

Module Js.

Definition char16 := N.
Definition jsstring := list char16.

(** An ASCII literal of the source as code units. *)
Definition lit (s : string) : jsstring :=
  map N_of_ascii (list_ascii_of_string s).
Arguments lit s%_string_scope.

Fixpoint str_eqb (a b : jsstring) : bool :=
  match a, b with
  | [], [] => true
  | x :: a', y :: b' => N.eqb x y && str_eqb a' b'
  | _, _ => false
  end.

(** Truthiness of a string: [''] is the only falsy one. *)
Definition truthy (s : jsstring) : bool :=
  match s with [] => false | _ :: _ => true end.

(** [String.fromCharCode] applies ToUint16 to its argument. *)
Definition fromCharCode (n : Z) : char16 := Z.to_N (n mod 65536).

(** The class [\s] of a regular expression, which is also what [trim]
    strips: WhiteSpace and LineTerminator of ECMAScript. *)
Definition is_space (c : char16) : bool :=
  ((9 <=? c) && (c <=? 13)) || (c =? 32) || (c =? 0xA0) || (c =? 0x1680)
  || ((0x2000 <=? c) && (c <=? 0x200A)) || (c =? 0x2028) || (c =? 0x2029)
  || (c =? 0x202F) || (c =? 0x205F) || (c =? 0x3000) || (c =? 0xFEFF).

(** The class [\d]: ASCII digits only. *)
Definition is_digit (c : char16) : bool := (48 <=? c) && (c <=? 57).

(** [s.replace(/[class]/g, f)]: every code unit of the class is replaced by
    what the callback returns for it.  With the empty replacement this is
    also [s.replace(/[class]+/g, '')]: removing every maximal run removes
    every member. *)
Definition replace_class (p : char16 -> bool) (f : char16 -> jsstring)
    (s : jsstring) : jsstring :=
  flat_map (fun c => if p c then f c else [c]) s.

Fixpoint trimStart (s : jsstring) : jsstring :=
  match s with
  | c :: s' => if is_space c then trimStart s' else s
  | [] => []
  end.

Definition trimEnd (s : jsstring) : jsstring := rev (trimStart (rev s)).

Definition trim (s : jsstring) : jsstring := trimEnd (trimStart s).

Fixpoint startsWith (s needle : jsstring) : bool :=
  match needle, s with
  | [], _ => true
  | n :: needle', c :: s' => N.eqb c n && startsWith s' needle'
  | _ :: _, [] => false
  end.

Fixpoint includes (s needle : jsstring) : bool :=
  startsWith s needle
  || match s with
     | [] => false
     | _ :: s' => includes s' needle
     end.

(** [toLowerCase] on the letters A-Z.  The source only searches the lowered
    key for ['start'] and ['end']; no code unit outside A-Z lowers to one of
    their letters, so the test decides the same on every key. *)
Definition toLowerCase (s : jsstring) : jsstring :=
  map (fun c => if (65 <=? c) && (c <=? 90) then c + 32 else c) s.

(** [s.padStart(2, '0')]. *)
Definition padStart2 (s : jsstring) : jsstring :=
  match s with
  | [] => [48; 48]
  | [c] => [48; c]
  | _ => s
  end.

End Js.

Import Js.

(** ** Regular expressions

    The pattern of [normalizeTime] uses classes of one code unit, sequence,
    alternation, the greedy [?] and capturing parentheses. *)

Inductive regex :=
| Chars (p : char16 -> bool)
| Then (a b : regex)
| Or (a b : regex)
| Maybe (a : regex)
| Capture (n : nat) (a : regex).

(** The captures of a match: [None] for a group that took no part. *)
Definition captures := nat -> option jsstring.

Definition no_captures : captures := fun _ => None.

Definition set_capture (n : nat) (v : jsstring) (c : captures) : captures :=
  fun i => if Nat.eqb i n then Some v else c i.

(** [input.slice(i, j)] *)
Definition slice (input : jsstring) (i j : nat) : jsstring :=
  firstn (j - i) (skipn i input).

(** The backtracking matcher of the language: [r] is matched from index
    [i] of [input] and the continuation [k] receives the index after it;
    alternatives are tried left to right, [a?] tries [a] before the empty
    match, and a failing continuation sends the matcher back to the next
    choice. *)
Fixpoint rmatch {A : Type} (r : regex) (input : jsstring) (i : nat) (c : captures)
    (k : nat -> captures -> option A) : option A :=
  match r with
  | Chars p =>
      match nth_error input i with
      | Some x => if p x then k (S i) c else None
      | None => None
      end
  | Then a b => rmatch a input i c (fun j c' => rmatch b input j c' k)
  | Or a b =>
      match rmatch a input i c k with
      | Some m => Some m
      | None => rmatch b input i c k
      end
  | Maybe a =>
      match rmatch a input i c k with
      | Some m => Some m
      | None => k i c
      end
  | Capture n a =>
      rmatch a input i c (fun j c' => k j (set_capture n (slice input i j) c'))
  end.

(** [input.match(r)] for a pattern without the [g] flag: the captures of
    the leftmost match.  (The index of the match is not used by the
    source, so each start is tried on the rest of the string.) *)
Fixpoint regex_match (r : regex) (input : jsstring) : option captures :=
  match rmatch r input 0 no_captures (fun _ c => Some c) with
  | Some c => Some c
  | None =>
      match input with
      | _ :: rest => regex_match r rest
      | [] => None
      end
  end.

(** ** Header Normalizer ([parseCoolingShelters.ts]) *)

(** [value.replace(/[！-～]/g, c => String.fromCharCode(c.charCodeAt(0) - 0xfee0))] *)
Definition toHalfWidth (value : jsstring) : jsstring :=
  replace_class (fun c => (0xFF01 <=? c) && (c <=? 0xFF5E))
                (fun c => [fromCharCode (Z.of_N c - 0xFEE0)]) value.

(** The class [[()（）]]: U+0028, U+0029, U+FF08, U+FF09. *)
Definition is_paren (c : char16) : bool :=
  (c =? 0x28) || (c =? 0x29) || (c =? 0xFF08) || (c =? 0xFF09).

(** [(char) => (char === '（' ? '(' : ')')] *)
Definition paren_callback (c : char16) : jsstring :=
  if c =? 0xFF08 then [0x28] else [0x29].

Definition normalizeKey (key : jsstring) : jsstring :=
  let s1 := toHalfWidth key in
  let s2 := replace_class is_space (fun _ => []) s1 in        (* /\s+/g -> '' *)
  let s3 := replace_class is_paren paren_callback s2 in
  let s4 := replace_class (N.eqb 0x30FB) (fun _ => []) s3 in   (* /・/g -> '' *)
  let s5 := replace_class (N.eqb 0x3000) (fun _ => []) s4 in   (* /　/g -> '' *)
  replace_class (N.eqb 0xFF1A) (fun _ => [0x3A]) s5.           (* /：/g -> ':' *)

(** ** Numbers *)

Module JsNumber.

Local Open Scope Z_scope.

(** The Number value of an integer below [2^63] in magnitude (round to
    nearest, ties to even; exact below [2^53]). *)
Definition of_int (z : Z) : float :=
  if z <? 0 then (- of_uint63 (Uint63Axioms.of_Z (- z)))%float
  else of_uint63 (Uint63Axioms.of_Z z).

(** The Number value of the rational [num / den], sign apart: the quotient
    is rounded once, from the exact digits. *)
Definition of_ratio (neg : bool) (num den : positive) : float :=
  SF2Prim (SFdiv prec emax (S754_finite neg num 0) (S754_finite false den 0)).

Definition signed_zero (neg : bool) : float := if neg then PrimFloat.neg_zero else PrimFloat.zero.

(** [Number.isNaN] and [Number.isFinite]. *)
Definition isNaN (x : float) : bool := PrimFloat.is_nan x.
Definition isFinite (x : float) : bool := PrimFloat.is_finite x.

(** [!x] for a number: [true] on [+0], [-0] and [NaN]. *)
Definition falsy (x : float) : bool := PrimFloat.is_zero x || PrimFloat.is_nan x.

(** [Math.round]: the closest integral Number, a tie going towards
    [+Infinity]; [-0] for [-0.5 <= x < 0]; [NaN], the infinities, the zeros
    and integral values are returned as they are.  A finite [x] is
    [(-1)^s * m * 2^e]; for [e < 0] the result is [floor (x + 1/2)]. *)
Definition Math_round (x : float) : float :=
  match Prim2SF x with
  | S754_finite s m e =>
      if 0 <=? e then x
      else
        let r := (2 * cond_Zopp s (Z.pos m) + 2 ^ (- e)) / 2 ^ (1 - e) in
        if r =? 0 then signed_zero s else of_int r
  | _ => x
  end.

(** [Math.floor]. *)
Definition Math_floor (x : float) : float :=
  match Prim2SF x with
  | S754_finite s m e =>
      if 0 <=? e then x
      else
        let r := cond_Zopp s (Z.pos m) / 2 ^ (- e) in
        if r =? 0 then PrimFloat.zero else of_int r
  | _ => x
  end.

(** The operator [%]: the remainder of the truncating division, computed
    exactly; its sign is the dividend's. *)
Definition rem (n d : float) : float :=
  match Prim2SF n, Prim2SF d with
  | S754_nan, _ | _, S754_nan => nan
  | S754_infinity _, _ => nan
  | _, S754_zero _ => nan
  | _, S754_infinity _ => n
  | S754_zero _, _ => n
  | S754_finite sn mn en, S754_finite _ md ed =>
      let e := Z.min en ed in
      let r := Z.rem (Z.pos mn * 2 ^ (en - e)) (Z.pos md * 2 ^ (ed - e)) in
      if r =? 0 then signed_zero sn
      else SF2Prim (binary_normalize prec emax (cond_Zopp sn r) e false)
  end.

(** *** Number::toString (radix 10) *)

Fixpoint digits_fuel (fuel : nat) (n : Z) (acc : jsstring) : jsstring :=
  match fuel with
  | O => acc
  | S fuel' =>
      let acc' := (Z.to_N (n mod 10) + 48)%N :: acc in
      if n <? 10 then acc' else digits_fuel fuel' (n / 10) acc'
  end.

(** The decimal digits of a natural number, most significant first. *)
Definition decimal (n : Z) : jsstring :=
  digits_fuel (S (Z.to_nat (Z.log2 n))) n [].

(** The exact value [num / den * 10 ^ p] as a fraction. *)
Definition scale10 (num den p : Z) : Z * Z :=
  if 0 <=? p then (num * 10 ^ p, den) else (num, den * 10 ^ (- p)).

(** The least [n], from [n] on, with [num / den < 10 ^ n]. *)
Fixpoint magnitude_from (fuel : nat) (num den n : Z) : Z :=
  match fuel with
  | O => n
  | S fuel' =>
      let '(a, b) := scale10 num den (- n) in
      if a <? b then n else magnitude_from fuel' num den (n + 1)
  end.

(** Does the decimal [s * 10 ^ p] denote the Number [x]? *)
Definition denotes (x : float) (s p : Z) : bool :=
  let '(a, b) := scale10 s 1 p in
  match a, b with
  | Z.pos a', Z.pos b' =>
      match SFcompare (Prim2SF (of_ratio false a' b')) (Prim2SF x) with
      | Some Eq => true
      | _ => false
      end
  | _, _ => false
  end.

(** The shortest decimal [s * 10 ^ (n - k)] that denotes [x = num / den],
    tried for [k], [k + 1], ...: on each length the two neighbours of [x]
    are candidates, the closer one first (the even one on a tie). *)
Fixpoint shortest (fuel : nat) (x : float) (num den n0 k : Z) : Z * Z * Z :=
  let '(a, b) := scale10 num den (k - n0) in
  let lo := a / b in
  let hi := lo + 1 in
  let lo_first :=
    match 2 * (a mod b) ?= b with
    | Lt => true
    | Gt => false
    | Eq => Z.even lo
    end in
  let pick s := if s =? 10 ^ k then (1, n0 + 1, 1) else (s, n0, k) in
  let ok_lo := denotes x lo (n0 - k) in
  let ok_hi := denotes x hi (n0 - k) in
  match fuel with
  | O => pick lo
  | S fuel' =>
      if ok_lo && (lo_first || negb ok_hi) then pick lo
      else if ok_hi then pick hi
      else shortest fuel' x num den n0 (k + 1)
  end.

Definition repeat0 (n : Z) : jsstring := repeat 48%N (Z.to_nat n).

(** The digits of a positive finite Number laid out as Number::toString
    does: plain up to 21 integer digits, ["0.00ddd"] down to [1e-6], the
    exponent form beyond. *)
Definition layout (s n k : Z) : jsstring :=
  let ds := decimal s in
  if (k <=? n) && (n <=? 21) then ds ++ repeat0 (n - k)
  else if (0 <? n) && (n <=? 21) then
    firstn (Z.to_nat n) ds ++ [46%N] ++ skipn (Z.to_nat n) ds
  else if (-6 <? n) && (n <=? 0) then
    [48%N; 46%N] ++ repeat0 (- n) ++ ds
  else
    let e := n - 1 in
    let exponent := [101%N; if e <? 0 then 45%N else 43%N] ++ decimal (Z.abs e) in
    match ds with
    | d :: (_ :: _) as rest => d :: 46%N :: rest ++ exponent
    | _ => ds ++ exponent
    end.

Definition toString (x : float) : jsstring :=
  match Prim2SF x with
  | S754_nan => lit "NaN"
  | S754_zero _ => lit "0"
  | S754_infinity s => (if s then [45%N] else []) ++ lit "Infinity"
  | S754_finite s m e =>
      let '(num, den) := if 0 <=? e then (Z.pos m * 2 ^ e, 1) else (Z.pos m, 2 ^ (- e)) in
      let n0 := magnitude_from 700 num den (-324) in
      let '(d, n, k) := shortest 17 (PrimFloat.abs x) num den n0 1 in
      (if s then [45%N] else []) ++ layout d n k
  end.

(** *** [Number(s)] on a sanitized string

    [parseNumber] only converts what its replace has left: digits, ['.'],
    ['+'] and ['-'].  On that alphabet a StringNumericLiteral is an optional
    sign followed by [digits], [digits.], [digits.digits] or [.digits];
    everything else converts to [NaN].  The literal's exact value is rounded
    to the nearest Number (the language lets an engine cut a literal of
    more than 20 significant digits before rounding; none of the values
    below depends on it). *)

Fixpoint span_digits (s : jsstring) : jsstring * jsstring :=
  match s with
  | c :: s' =>
      if is_digit c then let '(ds, r) := span_digits s' in (c :: ds, r)
      else ([], s)
  | [] => ([], [])
  end.

Definition digits_value (ds : jsstring) : Z :=
  fold_left (fun a c => 10 * a + (Z.of_N c - 48)) ds 0.

Definition split_sign (s : jsstring) : bool * jsstring :=
  match s with
  | 43%N :: r => (false, r)
  | 45%N :: r => (true, r)
  | _ => (false, s)
  end.

(** The unsigned literal as [(m, k)]: its value is [m / 10 ^ k]. *)
Definition unsigned_literal (s : jsstring) : option (Z * Z) :=
  let '(ip, r) := span_digits s in
  match r with
  | [] => if truthy ip then Some (digits_value ip, 0) else None
  | 46%N :: r' =>
      let '(fp, r'') := span_digits r' in
      match r'' with
      | [] =>
          if truthy ip || truthy fp
          then Some (digits_value (ip ++ fp), Z.of_nat (List.length fp))
          else None
      | _ :: _ => None
      end
  | _ :: _ => None
  end.

Definition Number_sanitized (s : jsstring) : float :=
  match s with
  | [] => PrimFloat.zero                    (* Number('') is +0 *)
  | _ :: _ =>
      let '(neg, body) := split_sign s in
      match unsigned_literal body with
      | None => nan
      | Some (m, k) =>
          match m, 10 ^ k with
          | Z.pos m', Z.pos d => of_ratio neg m' d
          | _, _ => signed_zero neg
          end
      end
  end.

End JsNumber.


(** ** Value Cleaner and typed coercion ([parseCoolingShelters.ts]) *)

(** A cell as the CSV parser hands it over ([unknown] in the source): a
    string, or something that is not one. *)
Inductive unknown :=
| Str (s : jsstring)
| NotStr.

(** [new Set(['', '―', 'ｰ', '-', 'ー', '―', '－', '無し', 'なし'])] *)
Definition NIL_VALUES : list jsstring :=
  [ []; [0x2015]; [0xFF70]; [0x2D]; [0x30FC]; [0x2015]; [0xFF0D];
    [0x7121; 0x3057]; [0x306A; 0x3057] ].

Definition set_has (set : list jsstring) (s : jsstring) : bool :=
  existsb (str_eqb s) set.

Definition cleanValue (value : unknown) : option jsstring :=
  match value with
  | NotStr => None
  | Str v =>
      let trimmed := trim v in
      if set_has NIL_VALUES trimmed then None else Some trimmed
  end.

(** [!value] for [string | undefined]. *)
Definition absent (value : option jsstring) : bool :=
  match value with
  | None => true
  | Some s => negb (truthy s)
  end.

(** The class [[^\d.+-]]. *)
Definition not_numeric (c : char16) : bool :=
  negb (is_digit c || (c =? 46) || (c =? 43) || (c =? 45)).

Definition parseNumber (value : option jsstring) : option float :=
  match value with
  | None => None
  | Some v =>
      if negb (truthy v) then None
      else
        let sanitized := replace_class not_numeric (fun _ => []) v in
        if negb (truthy sanitized) then None
        else
          let parsed := JsNumber.Number_sanitized sanitized in
          if JsNumber.isFinite parsed then Some parsed else None
  end.

(** [/(\d{1,2})(?::|：)?(\d{2})?/]; [\d{1,2}] is [\d\d?]. *)
Definition TIME_PATTERN : regex :=
  Then (Capture 1 (Then (Chars is_digit) (Maybe (Chars is_digit))))
       (Then (Maybe (Or (Chars (fun c => c =? 0x3A)) (Chars (fun c => c =? 0xFF1A))))
             (Maybe (Capture 2 (Then (Chars is_digit) (Chars is_digit))))).

Definition normalizeTime (value : option jsstring) : option jsstring :=
  match value with
  | None => None
  | Some v =>
      if negb (truthy v) then None
      else
        match regex_match TIME_PATTERN v with
        | None => None
        | Some m =>
            let hour := padStart2 (match m 1%nat with Some g => g | None => [] end) in
            let minute := match m 2%nat with Some g => g | None => lit "00" end in
            Some (hour ++ [0x3A] ++ minute)
        end
  end.

(** ** Field Resolver ([parseCoolingShelters.ts]) *)

Record DayConfig := {
  day_key : jsstring;
  day_label : jsstring;
  day_matchers : list jsstring
}.

Definition DAY_CONFIG : list DayConfig :=
  [ {| day_key := lit "sun"; day_label := [0x65E5] (* 日 *);
       day_matchers := [[0x65E5; 0x66DC]; [0x65E5; 0x66DC; 0x65E5]; [0x53; 0x75; 0x6E]; [0x53; 0x55; 0x4E]] (* 日曜, 日曜日, Sun, SUN *) |};
    {| day_key := lit "mon"; day_label := [0x6708] (* 月 *);
       day_matchers := [[0x6708; 0x66DC]; [0x6708; 0x66DC; 0x65E5]; [0x4D; 0x6F; 0x6E]; [0x4D; 0x4F; 0x4E]] (* 月曜, 月曜日, Mon, MON *) |};
    {| day_key := lit "tue"; day_label := [0x706B] (* 火 *);
       day_matchers := [[0x706B; 0x66DC]; [0x706B; 0x66DC; 0x65E5]; [0x54; 0x75; 0x65]; [0x54; 0x55; 0x45]] (* 火曜, 火曜日, Tue, TUE *) |};
    {| day_key := lit "wed"; day_label := [0x6C34] (* 水 *);
       day_matchers := [[0x6C34; 0x66DC]; [0x6C34; 0x66DC; 0x65E5]; [0x57; 0x65; 0x64]; [0x57; 0x45; 0x44]] (* 水曜, 水曜日, Wed, WED *) |};
    {| day_key := lit "thu"; day_label := [0x6728] (* 木 *);
       day_matchers := [[0x6728; 0x66DC]; [0x6728; 0x66DC; 0x65E5]; [0x54; 0x68; 0x75]; [0x54; 0x48; 0x55]] (* 木曜, 木曜日, Thu, THU *) |};
    {| day_key := lit "fri"; day_label := [0x91D1] (* 金 *);
       day_matchers := [[0x91D1; 0x66DC]; [0x91D1; 0x66DC; 0x65E5]; [0x46; 0x72; 0x69]; [0x46; 0x52; 0x49]] (* 金曜, 金曜日, Fri, FRI *) |};
    {| day_key := lit "sat"; day_label := [0x571F] (* 土 *);
       day_matchers := [[0x571F; 0x66DC]; [0x571F; 0x66DC; 0x65E5]; [0x53; 0x61; 0x74]; [0x53; 0x41; 0x54]] (* 土曜, 土曜日, Sat, SAT *) |} ].

(** A normalized row: the object [Object.fromEntries] builds, as its own
    properties in creation order.  [Object.keys] lists array-index keys
    first; such a key is made of digits only and never contains a weekday
    matcher, so [findByMatchers] finds the same key in creation order. *)
Definition Row := list (jsstring * option jsstring).

(** [row[key] = value]: an existing property keeps its place. *)
Fixpoint set_property (row : Row) (key : jsstring) (value : option jsstring) : Row :=
  match row with
  | [] => [(key, value)]
  | (k, v) :: row' =>
      if str_eqb k key then (k, value) :: row'
      else (k, v) :: set_property row' key value
  end.

Definition Object_fromEntries (entries : list (jsstring * option jsstring)) : Row :=
  fold_left (fun row kv => set_property row (fst kv) (snd kv)) entries [].

Definition Object_keys (row : Row) : list jsstring := map fst row.

(** [row[key]]: [undefined] for a missing property and for a property that
    holds [undefined].  (A lookup also sees [Object.prototype]; none of the
    labels looked up below names one of its properties.) *)
Fixpoint get_property (row : Row) (key : jsstring) : option jsstring :=
  match row with
  | [] => None
  | (k, v) :: row' => if str_eqb k key then v else get_property row' key
  end.

(** [needles.every((needle) => key.includes(needle))] *)
Definition keyHasAll (key : jsstring) (needles : list jsstring) : bool :=
  forallb (includes key) needles.

Definition findByMatchers (keys matchers : list jsstring) (needle : jsstring)
    : option jsstring :=
  find (fun key =>
          existsb (fun matcher =>
                     keyHasAll key [matcher]
                     && (if str_eqb needle (lit "start")
                         then includes key [0x958B; 0x59CB] (* 開始 *)
                              || includes (toLowerCase key) (lit "start")
                         else includes key [0x7D42; 0x4E86] (* 終了 *)
                              || includes key [0x9589] (* 閉 *)
                              || includes (toLowerCase key) (lit "end")))
                  matchers)
       keys.

Fixpoint pickFirst (row : Row) (candidates : list jsstring) : option jsstring :=
  match candidates with
  | [] => None
  | candidate :: rest =>
      let normalized := normalizeKey candidate in
      if negb (absent (get_property row normalized))
      then get_property row normalized
      else pickFirst row rest
  end.

(** The candidate labels of each field, in the order of the source. *)
Definition ID_LABELS : list jsstring :=
  [ [0x49; 0x44] (* ID *);
    [0xFF29; 0xFF24] (* ＩＤ *);
    [0x49; 0x64] (* Id *) ].

Definition MUNICIPALITY_NAME_LABELS : list jsstring :=
  [ [0x5730; 0x65B9; 0x516C; 0x5171; 0x56E3; 0x4F53; 0x540D] (* 地方公共団体名 *);
    [0x5E02; 0x533A; 0x753A; 0x6751; 0x540D] (* 市区町村名 *);
    [0x5730; 0x65B9; 0x81EA; 0x6CBB; 0x4F53; 0x540D] (* 地方自治体名 *);
    [0x81EA; 0x6CBB; 0x4F53; 0x540D] (* 自治体名 *) ].

Definition NAME_LABELS : list jsstring :=
  [ [0x6307; 0x5B9A; 0x6691; 0x71B1; 0x907F; 0x96E3; 0x65BD; 0x8A2D; 0x306E; 0x540D; 0x79F0] (* 指定暑熱避難施設の名称 *);
    [0x65BD; 0x8A2D; 0x540D] (* 施設名 *);
    [0x540D; 0x79F0] (* 名称 *);
    [0x907F; 0x96E3; 0x65BD; 0x8A2D; 0x540D] (* 避難施設名 *) ].

Definition ADDRESS_LABELS : list jsstring :=
  [ [0x6240; 0x5728; 0x5730] (* 所在地 *);
    [0x4F4F; 0x6240] (* 住所 *);
    [0x6240; 0x5728; 0x5730; 0x4F4F; 0x6240] (* 所在地住所 *);
    [0x6240; 0x5728; 0x5730; 0x7B49] (* 所在地等 *) ].

Definition LATITUDE_LABELS : list jsstring :=
  [ [0x7DEF; 0x5EA6] (* 緯度 *);
    [0x4C; 0x61; 0x74; 0x69; 0x74; 0x75; 0x64; 0x65] (* Latitude *) ].

Definition LONGITUDE_LABELS : list jsstring :=
  [ [0x7D4C; 0x5EA6] (* 経度 *);
    [0x4C; 0x6F; 0x6E; 0x67; 0x69; 0x74; 0x75; 0x64; 0x65] (* Longitude *) ].

Definition MUNICIPALITY_CODE_LABELS : list jsstring :=
  [ [0x5E02; 0x533A; 0x753A; 0x6751; 0x30B3; 0x30FC; 0x30C9] (* 市区町村コード *);
    [0x81EA; 0x6CBB; 0x4F53; 0x30B3; 0x30FC; 0x30C9] (* 自治体コード *);
    [0x5730; 0x65B9; 0x516C; 0x5171; 0x56E3; 0x4F53; 0x30B3; 0x30FC; 0x30C9] (* 地方公共団体コード *);
    [0x5168; 0x56FD; 0x5730; 0x65B9; 0x516C; 0x5171; 0x56E3; 0x4F53; 0x30B3; 0x30FC; 0x30C9] (* 全国地方公共団体コード *) ].

Definition SPECIAL_NOTES_LABELS : list jsstring :=
  [ [0x6307; 0x5B9A; 0x6691; 0x71B1; 0x907F; 0x96E3; 0x65BD; 0x8A2D; 0x3092; 0x958B; 0x653E; 0x3059; 0x308B; 0x3053; 0x3068; 0x304C; 0x3067; 0x304D; 0x308B; 0x65E5; 0x53CA; 0x3073; 0x6642; 0x9593; 0x5E2F; 0x7279; 0x8A18; 0x4E8B; 0x9805] (* 指定暑熱避難施設を開放することができる日及び時間帯特記事項 *);
    [0x7279; 0x8A18; 0x4E8B; 0x9805] (* 特記事項 *);
    [0x958B; 0x653E; 0x7279; 0x8A18; 0x4E8B; 0x9805] (* 開放特記事項 *) ].

Definition CAPACITY_LABELS : list jsstring :=
  [ [0x6307; 0x5B9A; 0x6691; 0x71B1; 0x907F; 0x96E3; 0x65BD; 0x8A2D; 0x306E; 0x958B; 0x653E; 0x306B; 0x3088; 0x308A; 0x53D7; 0x3051; 0x5165; 0x308C; 0x308B; 0x3053; 0x3068; 0x304C; 0x53EF; 0x80FD; 0x3067; 0x3042; 0x308B; 0x3068; 0x898B; 0x8FBC; 0x307E; 0x308C; 0x308B; 0x4EBA; 0x6570] (* 指定暑熱避難施設の開放により受け入れることが可能であると見込まれる人数 *);
    [0x53D7; 0x5165; 0x53EF; 0x80FD; 0x4EBA; 0x6570] (* 受入可能人数 *);
    [0x53CE; 0x5BB9; 0x53EF; 0x80FD; 0x4EBA; 0x6570] (* 収容可能人数 *) ].

Definition MANAGER_LABELS : list jsstring :=
  [ [0x65BD; 0x8A2D; 0x7BA1; 0x7406; 0x8005; 0x540D] (* 施設管理者名 *);
    [0x7BA1; 0x7406; 0x8005; 0x540D] (* 管理者名 *);
    [0x7BA1; 0x7406; 0x8005] (* 管理者 *) ].

Definition EMAIL_LABELS : list jsstring :=
  [ [0x9023; 0x7D61; 0x5148; 0x30E1; 0x30FC; 0x30EB; 0x30A2; 0x30C9; 0x30EC; 0x30B9] (* 連絡先メールアドレス *);
    [0x30E1; 0x30FC; 0x30EB; 0x30A2; 0x30C9; 0x30EC; 0x30B9] (* メールアドレス *);
    [0x9023; 0x7D61; 0x5148; 0x4D; 0x61; 0x69; 0x6C] (* 連絡先Mail *) ].

Definition PHONE_LABELS : list jsstring :=
  [ [0x96FB; 0x8A71; 0x756A; 0x53F7] (* 電話番号 *);
    [0x9023; 0x7D61; 0x5148; 0x96FB; 0x8A71; 0x756A; 0x53F7] (* 連絡先電話番号 *);
    [0x54; 0x45; 0x4C] (* TEL *) ].

Definition URL_LABELS : list jsstring :=
  [ [0x55; 0x52; 0x4C] (* URL *);
    [0xFF35; 0xFF32; 0xFF2C] (* ＵＲＬ *);
    [0x30DB; 0x30FC; 0x30E0; 0x30DA; 0x30FC; 0x30B8] (* ホームページ *) ].

Definition DESIGNATION_DATE_LABELS : list jsstring :=
  [ [0x6307; 0x5B9A; 0x65E5] (* 指定日 *);
    [0x6307; 0x5B9A; 0x5E74; 0x6708; 0x65E5] (* 指定年月日 *) ].

Definition FACILITY_OWNERSHIP_LABELS : list jsstring :=
  [ [0x516C; 0x5171; 0x65BD; 0x8A2D] (* 公共施設 *);
    [0x65BD; 0x8A2D; 0x533A; 0x5206] (* 施設区分 *);
    [0x65BD; 0x8A2D; 0x5206; 0x985E] (* 施設分類 *) ].

Definition FACILITY_TYPE_LABELS : list jsstring :=
  [ [0x65BD; 0x8A2D; 0x306E; 0x7A2E; 0x985E] (* 施設の種類 *);
    [0x65BD; 0x8A2D; 0x306E; 0x7A2E; 0x985E; 0x3000] (* 施設の種類<U+3000> *);
    [0x65BD; 0x8A2D; 0x7A2E; 0x985E] (* 施設種類 *);
    [0x65BD; 0x8A2D; 0x5206; 0x985E; 0x8A73; 0x7D30] (* 施設分類詳細 *) ].

(** ** Record Assembler ([parseCoolingShelterCsv]) *)

Record DailyWindow := {
  dayLabel : jsstring;
  open : option jsstring;
  close : option jsstring
}.

(** [capacity] is [number | null] once assembled: [None] is [null]. *)
Record CoolingShelter := {
  id : jsstring;
  municipalityCode : option jsstring;
  municipalityName : jsstring;
  name : jsstring;
  address : jsstring;
  latitude : float;
  longitude : float;
  openings : list DailyWindow;
  specialNotes : option jsstring;
  capacity : option float;
  manager : option jsstring;
  email : option jsstring;
  phone : option jsstring;
  url : option jsstring;
  designationDate : option jsstring;
  facilityTypeCategory : option jsstring;
  facilityOwnership : option jsstring
}.

(** A row of [parsed.data] as [Object.entries] lists it. *)
Definition RawRow := list (jsstring * unknown).

Definition normalizeRow (rawRow : RawRow) : Row :=
  Object_fromEntries
    (map (fun kv => (normalizeKey (fst kv), cleanValue (snd kv))) rawRow).

(** [x ?? ''] *)
Definition or_empty (x : option jsstring) : jsstring :=
  match x with Some s => s | None => [] end.

(** [row[key]] under [key ? row[key] : undefined]. *)
Definition cell (row : Row) (key : option jsstring) : option jsstring :=
  match key with
  | Some k => if truthy k then get_property row k else None
  | None => None
  end.

Definition resolveOpenings (row : Row) : list DailyWindow :=
  let keys := Object_keys row in
  map (fun day =>
         let startKey := findByMatchers keys (day_matchers day) (lit "start") in
         let endKey := findByMatchers keys (day_matchers day) (lit "end") in
         {| dayLabel := day_label day;
            open := normalizeTime (cell row startKey);
            close := normalizeTime (cell row endKey) |})
      DAY_CONFIG.

(** One turn of the loop over [parsed.data]: [None] where the source says
    [continue], the record it pushes otherwise.  The guard
    [!id || !name || latitude === undefined || longitude === undefined] is
    the [match] on the three optional values together with the two
    truthiness tests. *)
Definition assemble (rawRow : RawRow) : option CoolingShelter :=
  let row := normalizeRow rawRow in
  if (List.length (Object_keys row) =? 0)%nat then None
  else
    let id_ := pickFirst row ID_LABELS in
    let municipalityName_ := or_empty (pickFirst row MUNICIPALITY_NAME_LABELS) in
    let name_ := or_empty (pickFirst row NAME_LABELS) in
    let address_ := or_empty (pickFirst row ADDRESS_LABELS) in
    let latitude_ := parseNumber (pickFirst row LATITUDE_LABELS) in
    let longitude_ := parseNumber (pickFirst row LONGITUDE_LABELS) in
    match id_, latitude_, longitude_ with
    | Some the_id, Some lat, Some lon =>
        if negb (truthy the_id) || negb (truthy name_) then None
        else
          Some {|
            id := the_id;
            municipalityCode := pickFirst row MUNICIPALITY_CODE_LABELS;
            municipalityName :=
              if truthy municipalityName_ then municipalityName_
              else [0x57FC; 0x7389; 0x770C] (* 埼玉県 *);
            name := name_;
            address := address_;
            latitude := lat;
            longitude := lon;
            openings := resolveOpenings row;
            specialNotes := pickFirst row SPECIAL_NOTES_LABELS;
            capacity := parseNumber (pickFirst row CAPACITY_LABELS);
            manager := pickFirst row MANAGER_LABELS;
            email := pickFirst row EMAIL_LABELS;
            phone := pickFirst row PHONE_LABELS;
            url := pickFirst row URL_LABELS;
            designationDate := pickFirst row DESIGNATION_DATE_LABELS;
            facilityTypeCategory := pickFirst row FACILITY_TYPE_LABELS;
            facilityOwnership := pickFirst row FACILITY_OWNERSHIP_LABELS
          |}
    | _, _, _ => None
    end.

(** The loop: [shelters] grows by [push], in the order of the rows. *)
Definition assembleRows (data : list RawRow) : list CoolingShelter :=
  fold_left (fun shelters rawRow =>
               match assemble rawRow with
               | Some shelter => shelters ++ [shelter]
               | None => shelters
               end)
            data [].

(** [parseCoolingShelterCsv]: the CSV parser ([Papa.parse] with
    [header: true]) comes from a library; its warnings are only logged. *)
Definition parseCoolingShelterCsv (Papa_parse : jsstring -> list RawRow)
    (csvText : jsstring) : list CoolingShelter :=
  assembleRows (Papa_parse csvText).

(** ** Geospatial Engine ([geo.ts]) *)

Local Open Scope float_scope.

(** [Math.sin], [Math.cos] and [Math.atan2] return "implementation-
    approximated" values; only their results at [NaN], the zeros and the
    infinities are fixed by the language.  [MathImpl] is the approximating
    part of a given engine, the functions below add the fixed results. *)
Record MathImpl := {
  sin_approx : float -> float;
  cos_approx : float -> float;
  atan2_approx : float -> float -> float
}.

Definition Math_PI : float := 0x1.921fb54442d18p+1.

Definition Math_sin (M : MathImpl) (x : float) : float :=
  if PrimFloat.is_nan x || PrimFloat.is_infinity x then nan
  else if PrimFloat.is_zero x then x
  else sin_approx M x.

Definition Math_cos (M : MathImpl) (x : float) : float :=
  if PrimFloat.is_nan x || PrimFloat.is_infinity x then nan
  else if PrimFloat.is_zero x then 1
  else cos_approx M x.

(** [Math.atan2(y, x)]: [NaN] on a [NaN]; a zero [y] comes back as it is
    when [x > 0] or [x] is [+0]; a finite non-zero [y] with [x = +Infinity]
    gives the zero of its sign; the multiples of pi of the remaining cases
    are approximated like the general one. *)
Definition Math_atan2 (M : MathImpl) (y x : float) : float :=
  if PrimFloat.is_nan y || PrimFloat.is_nan x then nan
  else if PrimFloat.is_zero y
          && ((0 <? x) || (PrimFloat.is_zero x && negb (PrimFloat.get_sign x)))
       then y
  else if PrimFloat.is_finite y && negb (PrimFloat.is_zero y) && (x =? infinity)
       then JsNumber.signed_zero (PrimFloat.get_sign y)
  else atan2_approx M y x.

Module GeoPoint.
Record t := { latitude : float; longitude : float }.
End GeoPoint.
Abbreviation GeoPoint := GeoPoint.t.

Definition EARTH_RADIUS_METERS : float := 6371000.

Definition toRadians (degrees : float) : float := (degrees * Math_PI) / 180.

Definition distanceInMeters (M : MathImpl) (a b : GeoPoint) : float :=
  let lat1 := toRadians (GeoPoint.latitude a) in
  let lat2 := toRadians (GeoPoint.latitude b) in
  let deltaLat := toRadians (GeoPoint.latitude b - GeoPoint.latitude a) in
  let deltaLon := toRadians (GeoPoint.longitude b - GeoPoint.longitude a) in
  let sinLat := Math_sin M (deltaLat / 2) in
  let sinLon := Math_sin M (deltaLon / 2) in
  let haversine :=
    sinLat * sinLat + Math_cos M lat1 * Math_cos M lat2 * sinLon * sinLon in
  let c := 2 * Math_atan2 M (PrimFloat.sqrt haversine) (PrimFloat.sqrt (1 - haversine)) in
  JsNumber.Math_round (EARTH_RADIUS_METERS * c).

Inductive TravelMode := walk | drive.

Definition estimateDurationSeconds (meters : float) (mode : TravelMode) : float :=
  let speed := match mode with walk => 1.2 | drive => 10.0 end in
  meters / speed.

(** [seconds] is [number | undefined]. *)
Definition formatDuration (seconds : option float) : jsstring :=
  match seconds with
  | None => lit "-"
  | Some sec =>
      if JsNumber.falsy sec || JsNumber.isNaN sec then lit "-"
      else
        let minutes := JsNumber.Math_round (sec / 60) in
        if minutes <? 60 then JsNumber.toString minutes ++ [0x5206%N] (* 分 *)
        else
          let hours := JsNumber.Math_floor (minutes / 60) in
          let restMinutes := JsNumber.rem minutes 60 in
          JsNumber.toString hours ++ [0x6642%N; 0x9593%N] (* 時間 *)
          ++ JsNumber.toString restMinutes ++ [0x5206%N] (* 分 *)
  end.

Record Nearest := {
  shelter : CoolingShelter;
  distanceMeters : float
}.

(** One turn of the [for ... of] loop of [findNearestShelter]. *)
Definition nearest_step (M : MathImpl) (point : GeoPoint)
    (best : option Nearest) (s : CoolingShelter) : option Nearest :=
  let d := distanceInMeters M point
             {| GeoPoint.latitude := latitude s; GeoPoint.longitude := longitude s |} in
  match best with
  | None => Some {| shelter := s; distanceMeters := d |}
  | Some b =>
      if d <? distanceMeters b then Some {| shelter := s; distanceMeters := d |}
      else best
  end.

Definition findNearestShelter (M : MathImpl) (shelters : list CoolingShelter)
    (point : GeoPoint) : option Nearest :=
  fold_left (nearest_step M point) shelters None.


(** ** Source-candidate loop ([App.tsx]) *)

(** [errors.join('\n')] *)
Fixpoint join_lines (lines : list jsstring) : jsstring :=
  match lines with
  | [] => []
  | [l] => l
  | l :: rest => l ++ [10%N] ++ join_lines rest
  end.

Record FetchResult := {
  shelters : list CoolingShelter;
  sourceUrl : jsstring
}.

(** What an [await] or a call may end with: a value, or a thrown error, kept
    as the message the [catch] block reads off it. *)
Inductive outcome (A : Type) :=
| Returned (value : A)
| Threw (message : jsstring).
Arguments Returned {A} value.
Arguments Threw {A} message.

Section SourceCandidates.

(** The network is a state that every request reads and changes; the
    response body is whatever the transport hands to the decoder. *)
Variable World : Type.
Variable Body : Type.

Record Response := {
  ok : bool;
  status : float;
  statusText : jsstring;
  body : Body
}.

Variable fetch : jsstring -> World -> outcome Response * World.
Variable decodeCsvResponse : Response -> World -> outcome jsstring * World.
Variable Papa_parse : jsstring -> list RawRow.

(** The body of the [try] block for a non-blank source. *)
Definition attempt (trimmed : jsstring) (w : World) : outcome FetchResult * World :=
  match fetch trimmed w with
  | (Threw message, w1) => (Threw message, w1)
  | (Returned response, w1) =>
      if negb (ok response) then
        (Threw (lit "HTTP " ++ JsNumber.toString (status response)
                ++ lit " " ++ statusText response), w1)
      else
        match decodeCsvResponse response w1 with
        | (Threw message, w2) => (Threw message, w2)
        | (Returned csvText, w2) =>
            let parsed := parseCoolingShelterCsv Papa_parse csvText in
            if (List.length parsed =? 0)%nat then
              (* データが空でした。 *)
              (Threw [0x30C7; 0x30FC; 0x30BF; 0x304C; 0x7A7A; 0x3067; 0x3057;
                      0x305F; 0x3002]%N, w2)
            else (Returned {| shelters := parsed; sourceUrl := trimmed |}, w2)
        end
  end.

(** The [for ... of] loop with its [errors] array: [inr] is the [return]
    from inside the loop, [inl] the array once the sources are used up. *)
Fixpoint candidates_loop (sources : list jsstring) (errors : list jsstring)
    (w : World) : (list jsstring + FetchResult) * World :=
  match sources with
  | [] => (inl errors, w)
  | source :: rest =>
      let trimmed := trim source in
      if negb (truthy trimmed) then candidates_loop rest errors w
      else
        match attempt trimmed w with
        | (Returned result, w') => (inr result, w')
        | (Threw message, w') =>
            candidates_loop rest (errors ++ [source ++ lit ": " ++ message]) w'
        end
  end.

Definition fetchSheltersFromCandidates (sources : list jsstring) (w : World)
    : outcome FetchResult * World :=
  match candidates_loop sources [] w with
  | (inr result, w') => (Returned result, w')
  | (inl errors, w') => (Threw (join_lines errors), w')
  end.

End SourceCandidates.

Arguments ok {Body}.
Arguments status {Body}.
Arguments statusText {Body}.
Arguments body {Body}.
Arguments attempt {World Body}.
Arguments candidates_loop {World Body}.
Arguments fetchSheltersFromCandidates {World Body}.

(** ** Distance rendering ([geo.ts]) *)

(** [Number.prototype.toFixed(f)].  A finite [x] below [10^21] in magnitude
    is rendered from the integer [n] closest to [x * 10^f] (the larger one
    on a tie): its digits, padded with zeros to [f + 1] of them, with a
    point before the last [f]; the sign is written when [x < 0], also when
    all digits are zero.  Anything else is rendered as by [toString]. *)
Definition toFixed (x : float) (f : Z) : jsstring :=
  match Prim2SF x with
  | S754_zero _ =>
      if (f =? 0)%Z then [48%N] else [48%N; 46%N] ++ JsNumber.repeat0 f
  | S754_finite s m e =>
      if (1e21 <=? PrimFloat.abs x)%float then JsNumber.toString x
      else
        let '(num, den) :=
          if (0 <=? e)%Z then (Z.pos m * 2 ^ e, 1)%Z else (Z.pos m, 2 ^ (- e))%Z in
        let n := ((2 * num * 10 ^ f + den) / (2 * den))%Z in
        let ds := JsNumber.decimal n in
        let padded := JsNumber.repeat0 (f + 1 - Z.of_nat (List.length ds)) ++ ds in
        let k := (List.length padded - Z.to_nat f)%nat in
        (if s then [45%N] else [])
        ++ (if (f =? 0)%Z then ds else firstn k padded ++ [46%N] ++ skipn k padded)
  | _ => JsNumber.toString x
  end.

Section DistanceRendering.

(** [meters.toLocaleString('ja-JP')] is the work of the engine's
    internationalization library. *)
Variable toLocaleString : float -> jsstring.

(** [meters] is [number | undefined]. *)
Definition formatDistance (meters : option float) : jsstring :=
  match meters with
  | None => lit "-"
  | Some m =>
      if JsNumber.isNaN m then lit "-"
      else if (m <? 1000)%float then toLocaleString m ++ lit " m"
      else
        let km := (m / 1000)%float in
        toFixed km (if (10 <=? km)%float then 0 else 1) ++ lit " km"
  end.

End DistanceRendering.


(** ** Response decoding ([App.tsx]) *)

Module Header.

Local Open Scope N_scope.

(** [toLowerCase] on a header value.  [Headers.get] returns a byte string,
    code units up to U+00FF; there the letters with a lower case are A-Z
    and U+00C0..U+00DE without the multiplication sign. *)
Definition lower_unit (c : char16) : char16 :=
  if ((65 <=? c) && (c <=? 90))
     || ((0xC0 <=? c) && (c <=? 0xDE) && negb (c =? 0xD7))
  then c + 32 else c.

Definition toLowerCase (s : jsstring) : jsstring := map lower_unit s.

(** A code unit against a pattern character under the flag [i]: the two
    are compared by their upper case, and a code unit outside ASCII is
    never taken for an ASCII one. *)
Definition matches_ignoring_case (pattern c : char16) : bool :=
  (c =? pattern) || ((97 <=? pattern) && (pattern <=? 122) && (c =? pattern - 32)).

(** The pattern text at the head of [s]: what follows it. *)
Fixpoint after_prefix (pattern s : jsstring) : option jsstring :=
  match pattern, s with
  | [], _ => Some s
  | p :: pattern', c :: s' =>
      if matches_ignoring_case p c then after_prefix pattern' s' else None
  | _ :: _, [] => None
  end.

(** The longest run of code units of a class at the head of [s]. *)
Fixpoint take_while (p : char16 -> bool) (s : jsstring) : jsstring :=
  match s with
  | c :: s' => if p c then c :: take_while p s' else []
  | [] => []
  end.

(** [s.match(/charset=([^;]+)/i)]: the first group of the leftmost match.
    Nothing follows the group in the pattern, so the greedy [+] keeps the
    longest run; a [charset=] with an empty run after it is no match, and
    the search moves on. *)
Fixpoint match_charset (s : jsstring) : option jsstring :=
  let here :=
    match after_prefix (lit "charset=") s with
    | Some rest =>
        let group := take_while (fun c => negb (c =? 0x3B)) rest in
        if truthy group then Some group else None
    | None => None
    end in
  match here with
  | Some group => Some group
  | None =>
      match s with
      | _ :: s' => match_charset s'
      | [] => None
      end
  end.

End Header.

(** [contentType] is [string | null]. *)
Definition parseEncoding (contentType : option jsstring) : option jsstring :=
  match contentType with
  | None => None
  | Some value =>
      if negb (truthy value) then None
      else
        match Header.match_charset value with
        | Some group => Some (Header.toLowerCase (trim group))
        | None => None
        end
  end.

Definition DECODER_LABELS : list jsstring :=
  [ lit "utf-8"; lit "utf8"; lit "shift_jis"; lit "sjis"; lit "windows-31j" ].

Section ResponseDecoding.

(** The bytes of a response body, and the platform's decoder:
    [new TextDecoder(label, { fatal: true }).decode(buffer)] throws for a
    label it does not know and for bytes that are malformed in the
    encoding; [new TextDecoder().decode(buffer)] decodes as UTF-8 and
    replaces what is malformed. *)
Variable Buffer : Type.
Variable TextDecoder_fatal : jsstring -> Buffer -> option jsstring.
Variable TextDecoder_replacing : Buffer -> jsstring.

(** [[declared, 'utf-8', ...].filter(Boolean)] *)
Definition decoder_candidates (declared : option jsstring) : list jsstring :=
  filter truthy
    (match declared with Some d => [d] | None => [] end ++ DECODER_LABELS).

(** The [for ... of] loop with its [tried] set: the text returned from
    inside the loop, or [None] when the candidates are used up. *)
Fixpoint decode_loop (buffer : Buffer) (candidates : list jsstring)
    (tried : list jsstring) : option jsstring :=
  match candidates with
  | [] => None
  | encoding :: rest =>
      let canonical := Header.toLowerCase encoding in
      if set_has tried canonical then decode_loop buffer rest tried
      else
        match TextDecoder_fatal encoding buffer with
        | Some text => Some text
        | None => decode_loop buffer rest (canonical :: tried)
        end
  end.

(** [decodeCsvResponse] once the body has arrived: [contentType] is the
    value of the response's [content-type] header. *)
Definition decodeCsvResponse (contentType : option jsstring) (buffer : Buffer)
    : jsstring :=
  let declared := parseEncoding contentType in
  match decode_loop buffer (decoder_candidates declared) [] with
  | Some text => text
  | None => TextDecoder_replacing buffer
  end.

End ResponseDecoding.


(** ** Dataset download script ([fetch-cooling-shelters.ts]) *)

Definition DEFAULT_SOURCE_URL : jsstring :=
  lit "https://opendata.pref.saitama.lg.jp/resource_download/7279".
Definition DEFAULT_ENCODING : jsstring := lit "shift_jis".
Definition OUTPUT_FILENAME : jsstring := lit "cooling-shelters.csv".

(** The three variables the script reads from [process.env]. *)
Record ProcessEnv := {
  COOLING_SHELTER_SOURCE_URL : option jsstring;
  COOLING_SHELTER_SOURCE_ENCODING : option jsstring;
  COOLING_SHELTER_OUTPUT_DIR : option jsstring
}.

(** [value?.trim() || fallback] *)
Definition trimmed_or (value : option jsstring) (fallback : jsstring) : jsstring :=
  match value with
  | Some s => if truthy (trim s) then trim s else fallback
  | None => fallback
  end.

(** What the script does to the world around it, call by call. *)
Inductive effect :=
| console_log (message : jsstring)
| console_error (message : jsstring)
| request (url : jsstring)
| mkdir (dir : jsstring)
| writeFile (path content : jsstring).

(** A step of the script: the calls it made, and how it ended. *)
Definition script (A : Type) : Type := list effect * outcome A.

Definition throw {A} (message : jsstring) : script A := ([], Threw message).

Definition bind {A B} (m : script A) (f : A -> script B) : script B :=
  match m with
  | (es, Returned x) => let '(es', r) := f x in (es ++ es', r)
  | (es, Threw message) => (es, Threw message)
  end.

(** A call [e] that ends as [result]. *)
Definition call {A} (e : effect) (result : outcome A) : script A := ([e], result).

Section DownloadScript.

(** The platform: the network, the [iconv-lite] module and the file
    system.  Each is called at most once in a run, so what a call ends
    with is a function of its arguments. *)
Variable Buffer : Type.
Variable fetch : jsstring -> outcome (Response (outcome Buffer)).
Variable import_iconv : outcome unit.
Variable iconv_encodingExists : jsstring -> bool.
Variable iconv_decode : Buffer -> jsstring -> jsstring.
Variable fs_mkdir : jsstring -> outcome unit.
Variable fs_writeFile : jsstring -> jsstring -> outcome unit.
(** [path.resolve(process.cwd(), 'public', 'data')] and [path.join]. *)
Variable default_outDir : jsstring.
Variable path_join : jsstring -> jsstring -> jsstring.

Definition sourceUrl_of (env : ProcessEnv) : jsstring :=
  trimmed_or (COOLING_SHELTER_SOURCE_URL env) DEFAULT_SOURCE_URL.

Definition sourceEncoding_of (env : ProcessEnv) : jsstring :=
  trimmed_or (COOLING_SHELTER_SOURCE_ENCODING env) DEFAULT_ENCODING.

Definition outDir_of (env : ProcessEnv) : jsstring :=
  trimmed_or (COOLING_SHELTER_OUTPUT_DIR env) default_outDir.

Definition fetchCoolingShelters (env : ProcessEnv) : script unit :=
  let sourceUrl := sourceUrl_of env in
  let sourceEncoding := sourceEncoding_of env in
  let outDir := outDir_of env in
  let outPath := path_join outDir OUTPUT_FILENAME in
  bind (call (console_log (lit "Downloading cooling shelters CSV from " ++ sourceUrl))
             (Returned tt)) (fun _ =>
  bind (call (request sourceUrl) (fetch sourceUrl)) (fun response =>
  if negb (ok response) then
    throw (lit "Failed to download dataset. HTTP "
           ++ JsNumber.toString (status response) ++ lit " " ++ statusText response)
  else
    bind ([], body response) (fun buffer =>
    bind ([], import_iconv) (fun _ =>
    if negb (iconv_encodingExists sourceEncoding) then
      throw (lit "Unknown encoding " ++ [34%N] ++ sourceEncoding ++ [34%N]
             ++ lit ". Specify a valid iconv-lite encoding name via COOLING_SHELTER_SOURCE_ENCODING.")
    else
      let decoded := iconv_decode buffer sourceEncoding in
      bind (call (mkdir outDir) (fs_mkdir outDir)) (fun _ =>
      bind (call (writeFile outPath decoded) (fs_writeFile outPath decoded)) (fun _ =>
      call (console_log (lit "Saved dataset to " ++ outPath)) (Returned tt))))))).

(** The last statement of the script: the run, its rejection caught; the
    second component is [process.exitCode] when the script has set it. *)
Definition main (env : ProcessEnv) : list effect * option Z :=
  match fetchCoolingShelters env with
  | (es, Returned _) => (es, None)
  | (es, Threw message) => (es ++ [console_error message], Some 1%Z)
  end.

End DownloadScript.


(** ** Detail panel ([App.tsx]) *)

(** The cell of the hours table for one window:
    [open && close ? `${open}〜${close}` : open ? `${open}〜` : '—']. *)
Definition hours_cell (window : DailyWindow) : jsstring :=
  if negb (absent (open window)) && negb (absent (close window))
  then or_empty (open window) ++ [0x301C%N] ++ or_empty (close window)
  else if negb (absent (open window))
       then or_empty (open window) ++ [0x301C%N]
       else [0x2014%N].

(** The straight-line estimate shown while no route is loaded: the
    distance from the position to the shelter, and the time for it. *)
Definition shelter_point (s : CoolingShelter) : GeoPoint :=
  {| GeoPoint.latitude := latitude s; GeoPoint.longitude := longitude s |}.

Definition estimated_distance (toLocaleString : float -> jsstring) (M : MathImpl)
    (userLocation : GeoPoint) (s : CoolingShelter) : jsstring :=
  formatDistance toLocaleString (Some (distanceInMeters M userLocation (shelter_point s))).

Definition estimated_duration (M : MathImpl) (userLocation : GeoPoint)
    (s : CoolingShelter) (routeMode : TravelMode) : jsstring :=
  formatDuration
    (Some (estimateDurationSeconds
             (distanceInMeters M userLocation (shelter_point s)) routeMode)).


(** * Properties *)

(** ** Header Normalizer *)

Section HeaderNormalizer.

Local Open Scope N_scope.

Lemma replace_class_app p f (a b : jsstring) :
  replace_class p f (a ++ b) = replace_class p f a ++ replace_class p f b.
Proof. unfold replace_class. apply flat_map_app. Qed.

Lemma replace_class_one p f (c : char16) :
  replace_class p f [c] = if p c then f c else [c].
Proof. unfold replace_class. simpl. apply app_nil_r. Qed.

Lemma normalizeKey_app (a b : jsstring) :
  normalizeKey (a ++ b) = normalizeKey a ++ normalizeKey b.
Proof.
  unfold normalizeKey, toHalfWidth. cbv zeta.
  now rewrite !replace_class_app.
Qed.

Lemma normalizeKey_cons (c : char16) (s : jsstring) :
  normalizeKey (c :: s) = normalizeKey [c] ++ normalizeKey s.
Proof. exact (normalizeKey_app [c] s). Qed.

Lemma fromCharCode_fullwidth (c : char16) :
  0xFF01 <= c <= 0xFF5E -> fromCharCode (Z.of_N c - 0xFEE0) = c - 0xFEE0.
Proof.
  intros H. unfold fromCharCode.
  rewrite Z.mod_small by lia. lia.
Qed.

(** What the normalizer makes of one code unit: nothing, or one code unit. *)
Definition norm_char (c : char16) : option char16 :=
  if (0xFF01 <=? c) && (c <=? 0xFF5E) then
    if (c =? 0xFF08) || (c =? 0xFF09) then Some 0x29 else Some (c - 0xFEE0)
  else if is_space c || (c =? 0x30FB) then None
  else if (c =? 0x28) then Some 0x29
  else Some c.

Definition option_list (o : option char16) : jsstring :=
  match o with Some c => [c] | None => [] end.

Ltac to_prop H :=
  rewrite ?orb_true_iff, ?andb_true_iff, ?orb_false_iff, ?andb_false_iff,
    ?negb_true_iff, ?negb_false_iff,
    ?N.leb_le, ?N.eqb_eq, ?N.leb_gt, ?N.eqb_neq in H.

(** Decides the test of the outermost conditional, or splits on it. *)
Ltac split_test :=
  match goal with
  | |- context [if ?b then _ else _] =>
      let E := fresh "E" in
      destruct b eqn:E; to_prop E; try (exfalso; lia)
  end.

Lemma replace_class_nil p f : replace_class p f [] = [].
Proof. reflexivity. Qed.

Lemma normalizeKey_one (c : char16) :
  normalizeKey [c] = option_list (norm_char c).
Proof.
  unfold normalizeKey, toHalfWidth, norm_char. cbv zeta.
  rewrite replace_class_one.
  unfold is_space, is_paren, paren_callback.
  destruct ((0xFF01 <=? c) && (c <=? 0xFF5E)) eqn:Hfw; to_prop Hfw;
    rewrite ?fromCharCode_fullwidth by lia;
    repeat (rewrite ?replace_class_one, ?replace_class_nil; split_test);
    rewrite ?replace_class_one, ?replace_class_nil;
    cbn [option_list]; solve [reflexivity | f_equal; lia].
Qed.

Lemma normalizeKey_flat_map (s : jsstring) :
  normalizeKey s = flat_map (fun c => option_list (norm_char c)) s.
Proof.
  induction s as [|c s IH]; [reflexivity|].
  rewrite normalizeKey_cons, normalizeKey_one, IH. reflexivity.
Qed.

(** A code unit that survives normalization is left alone by a second pass. *)
Lemma norm_char_fixed (c d : char16) :
  norm_char c = Some d -> norm_char d = Some d.
Proof.
  unfold norm_char, is_space.
  intros H. revert H.
  repeat split_test; intros [= <-]; repeat split_test;
    solve [reflexivity | exfalso; lia | f_equal; lia].
Qed.

(** C4: the Header Normalizer is idempotent,
    [normalizeKey (normalizeKey x) = normalizeKey x] for every string [x]. *)
Theorem normalizeKey_idempotent (x : jsstring) :
  normalizeKey (normalizeKey x) = normalizeKey x.
Proof.
  rewrite (normalizeKey_flat_map x).
  induction x as [|c x IH]; [reflexivity|].
  cbn [flat_map]. rewrite normalizeKey_app, IH. f_equal.
  destruct (norm_char c) as [d|] eqn:Hc; [|reflexivity].
  cbn [option_list]. rewrite normalizeKey_one.
  now rewrite (norm_char_fixed _ _ Hc).
Qed.

(** Every parenthesis, opening or closing, full-width or not, leaves the
    normalizer as U+0029. *)
Lemma norm_char_paren (c : char16) :
  is_paren c = true -> norm_char c = Some 0x29.
Proof.
  unfold is_paren, norm_char, is_space. intros H. to_prop H.
  repeat split_test; try reflexivity; f_equal; lia.
Qed.

Lemma norm_char_not_open (c : char16) : norm_char c <> Some 0x28.
Proof.
  unfold norm_char, is_space.
  repeat split_test; try discriminate; intros [= H]; lia.
Qed.

(** C5 (what the code does): no normalized label holds an opening
    parenthesis, and a label made of parentheses only is turned into as
    many closing ones; ["(a)"] becomes [")a)"]. *)
Theorem normalizeKey_closes_every_paren :
  (forall key, ~ In 0x28 (normalizeKey key))
  /\ (forall key, forallb is_paren key = true ->
                  normalizeKey key = map (fun _ => 0x29) key)
  /\ normalizeKey (lit "(a)") = lit ")a)"
  /\ normalizeKey [0xFF08; 0x540D; 0xFF09] = [0x29; 0x540D; 0x29].
Proof.
  repeat split; try reflexivity.
  - intros key. rewrite normalizeKey_flat_map. intros H.
    apply in_flat_map in H. destruct H as (c & _ & H).
    destruct (norm_char c) as [d|] eqn:Hc; cbn in H; [|easy].
    destruct H as [->|[]]. now apply (norm_char_not_open c).
  - intros key. rewrite normalizeKey_flat_map.
    induction key as [|c key IH]; [reflexivity|].
    cbn [forallb flat_map map]. intros H. apply andb_true_iff in H.
    destruct H as [Hc Hk]. rewrite (norm_char_paren _ Hc), (IH Hk). reflexivity.
Qed.

End HeaderNormalizer.

(** ** Time coercion *)

Section TimeCoercion.

Local Open Scope N_scope.

(** *** What the pattern matches, spelled out

    Every piece of the pattern after the first may match nothing, so the
    first way of matching a piece is never undone by what follows it: the
    backtracking matcher finds what the three functions below read off
    the head of the string. *)

(** [(\d{1,2})] at the head of [s]: the captured hour and the rest. *)
Definition match_hour (s : jsstring) : option (jsstring * jsstring) :=
  match s with
  | d1 :: rest =>
      if is_digit d1 then
        match rest with
        | d2 :: rest' =>
            if is_digit d2 then Some ([d1; d2], rest') else Some ([d1], rest)
        | [] => Some ([d1], rest)
        end
      else None
  | [] => None
  end.

(** [(?::|：)?]: what is left after an optional U+003A or U+FF1A. *)
Definition skip_separator (s : jsstring) : jsstring :=
  match s with
  | c :: rest => if (c =? 0x3A) || (c =? 0xFF1A) then rest else s
  | [] => s
  end.

(** [(\d{2})?]: the captured minute, [None] when the group took no part. *)
Definition match_minute (s : jsstring) : option jsstring :=
  match s with
  | m1 :: m2 :: _ => if is_digit m1 && is_digit m2 then Some [m1; m2] else None
  | _ => None
  end.

(** The pattern tried at the head of [s]: groups 1 and 2. *)
Definition match_here (s : jsstring) : option (jsstring * option jsstring) :=
  match match_hour s with
  | Some (hour, rest) => Some (hour, match_minute (skip_separator rest))
  | None => None
  end.

(** The leftmost position at which the pattern matches. *)
Fixpoint match_time (s : jsstring) : option (jsstring * option jsstring) :=
  match match_here s with
  | Some m => Some m
  | None =>
      match s with
      | _ :: s' => match_time s'
      | [] => None
      end
  end.

(** The two groups of a match, if any. *)
Definition groups (m : option captures) : option (option jsstring * option jsstring) :=
  match m with
  | Some c => Some (c 1%nat, c 2%nat)
  | None => None
  end.

Definition spelled (m : option (jsstring * option jsstring))
    : option (option jsstring * option jsstring) :=
  match m with
  | Some (h, g2) => Some (Some h, g2)
  | None => None
  end.

Lemma rmatch_time_here (s : jsstring) :
  groups (rmatch TIME_PATTERN s 0 no_captures (fun _ c => Some c))
  = spelled (match_here s).
Proof.
  unfold match_here, match_hour, skip_separator, match_minute.
  destruct s as [|c1 [|c2 [|c3 [|c4 [|c5 s]]]]]; cbn;
    repeat match goal with
           | |- context [is_digit ?x] => destruct (is_digit x) eqn:?; cbn
           | |- context [N.eqb ?x ?y] => destruct (N.eqb x y) eqn:?; cbn
           end;
    solve [reflexivity | discriminate].
Qed.

Lemma regex_match_time (s : jsstring) :
  groups (regex_match TIME_PATTERN s) = spelled (match_time s).
Proof.
  induction s as [|c s IH]; cbn [regex_match match_time].
  - pose proof (rmatch_time_here []) as H.
    destruct (rmatch TIME_PATTERN [] 0 no_captures _) as [m|];
      destruct (match_here []) as [[h g2]|]; cbn in *; congruence.
  - pose proof (rmatch_time_here (c :: s)) as H.
    destruct (rmatch TIME_PATTERN (c :: s) 0 no_captures _) as [m|];
      destruct (match_here (c :: s)) as [[h g2]|]; cbn in *; congruence.
Qed.

(** [normalizeTime] in terms of the spelled-out match. *)
Lemma normalizeTime_spelled (v : jsstring) :
  normalizeTime (Some v)
  = if negb (truthy v) then None
    else
      match match_time v with
      | None => None
      | Some (g1, g2) =>
          Some (padStart2 g1 ++ [0x3A]
                ++ match g2 with Some m => m | None => lit "00" end)
      end.
Proof.
  unfold normalizeTime. destruct (negb (truthy v)); [reflexivity|].
  pose proof (regex_match_time v) as H.
  destruct (regex_match TIME_PATTERN v) as [m|];
    destruct (match_time v) as [[h g2]|]; cbn in H; try congruence.
  injection H as H1 H2. now rewrite H1, H2.
Qed.

(** The shape [HH:MM]: two digits, U+003A, two digits. *)
Definition is_HHMM (r : jsstring) : bool :=
  match r with
  | [h1; h2; c; m1; m2] =>
      is_digit h1 && is_digit h2 && (c =? 0x3A) && is_digit m1 && is_digit m2
  | _ => false
  end.

(** What the two groups of a match can hold. *)
Definition hour_group (h : jsstring) : Prop :=
  (exists d, h = [d] /\ is_digit d = true)
  \/ (exists d1 d2, h = [d1; d2] /\ is_digit d1 = true /\ is_digit d2 = true).

Definition minute_group (m : option jsstring) : Prop :=
  m = None \/ (exists d1 d2, m = Some [d1; d2] /\ is_digit d1 = true /\ is_digit d2 = true).

Lemma match_minute_group (s : jsstring) : minute_group (match_minute s).
Proof.
  unfold minute_group, match_minute.
  destruct s as [|m1 [|m2 s]]; auto.
  destruct (is_digit m1 && is_digit m2) eqn:E; auto.
  apply andb_true_iff in E. right. exists m1, m2. tauto.
Qed.

Lemma match_hour_group (s h rest : jsstring) :
  match_hour s = Some (h, rest) -> hour_group h.
Proof.
  unfold match_hour, hour_group.
  destruct s as [|d1 s]; [discriminate|].
  destruct (is_digit d1) eqn:E1; [|discriminate].
  destruct s as [|d2 s].
  - intros [= <- <-]. left. eauto.
  - destruct (is_digit d2) eqn:E2; intros [= <- <-]; [right|left]; eauto.
Qed.

Lemma match_here_groups (s h : jsstring) (m : option jsstring) :
  match_here s = Some (h, m) -> hour_group h /\ minute_group m.
Proof.
  unfold match_here.
  destruct (match_hour s) as [[h' rest]|] eqn:E; [|discriminate].
  intros [= <- <-]. split.
  - exact (match_hour_group _ _ _ E).
  - apply match_minute_group.
Qed.

Lemma match_time_groups (s h : jsstring) (m : option jsstring) :
  match_time s = Some (h, m) -> hour_group h /\ minute_group m.
Proof.
  induction s as [|c s IH]; cbn [match_time].
  - destruct (match_here []) as [p|] eqn:E; [|discriminate].
    intros [= ->]. exact (match_here_groups _ _ _ E).
  - destruct (match_here (c :: s)) as [p|] eqn:E.
    + intros [= ->]. exact (match_here_groups _ _ _ E).
    + exact IH.
Qed.

Lemma is_digit_zero : is_digit 48 = true.
Proof. reflexivity. Qed.

Lemma HHMM_of_groups (h : jsstring) (m : option jsstring) :
  hour_group h -> minute_group m ->
  is_HHMM (padStart2 h ++ [0x3A] ++ match m with Some x => x | None => lit "00" end) = true.
Proof.
  intros [(d & -> & Hd)|(d1 & d2 & -> & H1 & H2)] [->|(m1 & m2 & -> & Hm1 & Hm2)];
    cbn; rewrite ?Hd, ?H1, ?H2, ?Hm1, ?Hm2; reflexivity.
Qed.

(** C6: time coercion.  ["9:30"] gives ["09:30"]; a result is the captured
    hour padded to two digits, a colon, and the captured minute or ["00"];
    a string the pattern does not match gives no result; every result has
    the shape [HH:MM]; the function is total, so no input makes it throw. *)
Theorem normalizeTime_HHMM :
  normalizeTime (Some (lit "9:30")) = Some (lit "09:30")
  /\ (forall v h m, truthy v = true -> match_time v = Some (h, m) ->
        normalizeTime (Some v)
        = Some (padStart2 h ++ [0x3A] ++ match m with Some x => x | None => lit "00" end))
  /\ (forall v, match_time v = None -> normalizeTime (Some v) = None)
  /\ (forall value r, normalizeTime value = Some r -> is_HHMM r = true)
  /\ (forall value, exists r, normalizeTime value = r).
Proof.
  split; [reflexivity|].
  split.
  { intros v h m Hv Hm. rewrite normalizeTime_spelled, Hv, Hm. reflexivity. }
  split.
  { intros v Hm. rewrite normalizeTime_spelled, Hm. now destruct (truthy v). }
  split.
  { intros [v|] r; [|discriminate].
    rewrite normalizeTime_spelled.
    destruct (negb (truthy v)); [discriminate|].
    destruct (match_time v) as [[h m]|] eqn:E; [|discriminate].
    intros [= <-].
    destruct (match_time_groups _ _ _ E).
    now apply HHMM_of_groups. }
  intros value. eexists. reflexivity.
Qed.

(** The theorem at ["24:99"] and at ["930"]: both are accepted as they are
    matched, ["24:99"] and ["93:00"]. *)
Lemma normalizeTime_HHMM_witness :
  normalizeTime (Some (lit "24:99")) = Some (lit "24:99")
  /\ normalizeTime (Some (lit "930")) = Some (lit "93:00")
  /\ is_HHMM (lit "93:00") = true.
Proof.
  destruct normalizeTime_HHMM as (_ & Hfmt & _ & Hshape & _).
  split; [|split].
  - exact (Hfmt (lit "24:99") (lit "24") (Some (lit "99")) eq_refl eq_refl).
  - exact (Hfmt (lit "930") (lit "93") None eq_refl eq_refl).
  - exact (Hshape (Some (lit "930")) (lit "93:00") eq_refl).
Defined.

(** The digits at the head of a string, and the first run of digits of a
    string. *)
Fixpoint digit_prefix (s : jsstring) : jsstring :=
  match s with
  | d :: s' => if is_digit d then d :: digit_prefix s' else []
  | [] => []
  end.

Fixpoint first_digit_run (s : jsstring) : jsstring :=
  match s with
  | [] => []
  | c :: s' => if is_digit c then digit_prefix s else first_digit_run s'
  end.

Lemma match_here_digit (c : char16) (s : jsstring) :
  is_digit c = true ->
  exists h m, match_here (c :: s) = Some (h, m)
              /\ h = firstn 2 (first_digit_run (c :: s)).
Proof.
  intros Hc. unfold match_here, match_hour.
  cbn [first_digit_run digit_prefix]. rewrite Hc.
  destruct s as [|d s]; [eauto|].
  cbn [digit_prefix]. destruct (is_digit d); eauto.
Qed.

Lemma match_here_no_digit (c : char16) (s : jsstring) :
  is_digit c = false -> match_here (c :: s) = None.
Proof. intros Hc. unfold match_here, match_hour. now rewrite Hc. Qed.

Lemma match_time_first_run (s : jsstring) :
  existsb is_digit s = true ->
  exists h m, match_time s = Some (h, m) /\ h = firstn 2 (first_digit_run s).
Proof.
  induction s as [|c s IH]; [discriminate|].
  cbn [existsb match_time first_digit_run].
  destruct (is_digit c) eqn:Hc.
  - intros _. destruct (match_here_digit c s Hc) as (h & m & -> & ->).
    cbn [first_digit_run]. rewrite Hc. eauto.
  - rewrite (match_here_no_digit c s Hc). exact IH.
Qed.

Lemma match_time_no_digit (s : jsstring) :
  existsb is_digit s = false -> match_time s = None.
Proof.
  induction s as [|c s IH]; [reflexivity|].
  cbn [existsb match_time]. intros H. apply orb_false_iff in H.
  destruct H as [Hc Hs]. rewrite (match_here_no_digit c s Hc). auto.
Qed.

(** C10: the pattern is not anchored.  A string with a decimal digit
    anywhere gets a result of the shape [HH:MM] whose hour is the first one
    or two digits of its first digit run, padded to two; ["第3火曜休"] gives
    ["03:00"]; a string without a digit gives no result. *)
Theorem normalizeTime_unanchored :
  (forall s, existsb is_digit s = true ->
     exists r, normalizeTime (Some s) = Some r
               /\ is_HHMM r = true
               /\ firstn 2 r = padStart2 (firstn 2 (first_digit_run s)))
  /\ (forall s, existsb is_digit s = false -> normalizeTime (Some s) = None)
  /\ normalizeTime (Some [0x7B2C; 0x33; 0x706B; 0x66DC; 0x4F11]) = Some (lit "03:00").
Proof.
  split; [|split; [|reflexivity]].
  - intros s Hs.
    destruct (match_time_first_run s Hs) as (h & m & Hm & Hh).
    assert (Hv : truthy s = true) by (destruct s; [discriminate|reflexivity]).
    destruct (match_time_groups _ _ _ Hm) as [Hhg Hmg].
    eexists. split; [|split].
    + rewrite normalizeTime_spelled, Hv, Hm. reflexivity.
    + now apply HHMM_of_groups.
    + rewrite <- Hh.
      destruct Hhg as [(d & -> & _)|(d1 & d2 & -> & _)]; reflexivity.
  - intros s Hs. rewrite normalizeTime_spelled.
    rewrite (match_time_no_digit s Hs). now destruct (truthy s).
Qed.

(** The theorem at ["open 10-18"] and at a string without a digit. *)
Lemma normalizeTime_unanchored_witness :
  (exists r, normalizeTime (Some (lit "open 10-18")) = Some r
             /\ is_HHMM r = true
             /\ firstn 2 r = padStart2 (firstn 2 (first_digit_run (lit "open 10-18"))))
  /\ normalizeTime (Some (lit "closed")) = None.
Proof.
  destruct normalizeTime_unanchored as (Hdigit & Hnone & _).
  split.
  - exact (Hdigit (lit "open 10-18") eq_refl).
  - exact (Hnone (lit "closed") eq_refl).
Defined.

End TimeCoercion.

(** ** Record Assembler *)

Section RecordAssembler.

Local Open Scope N_scope.

(** What [pickFirst] returns is never the empty string. *)
Lemma pickFirst_truthy (row : Row) (candidates : list jsstring) (s : jsstring) :
  pickFirst row candidates = Some s -> truthy s = true.
Proof.
  induction candidates as [|c rest IH]; cbn [pickFirst]; [discriminate|].
  destruct (get_property row (normalizeKey c)) as [v|] eqn:E; cbn [absent negb].
  - destruct (truthy v) eqn:Hv; cbn [negb]; [|exact IH].
    intros [= <-]. exact Hv.
  - exact IH.
Qed.

Lemma pickFirst_empty_row (candidates : list jsstring) :
  pickFirst [] candidates = None.
Proof. induction candidates; cbn; auto. Qed.

(** The four mandatory fields of a normalized row, as the assembler
    resolves them. *)
Definition mandatory_present (row : Row) : bool :=
  match pickFirst row ID_LABELS, pickFirst row NAME_LABELS,
        parseNumber (pickFirst row LATITUDE_LABELS),
        parseNumber (pickFirst row LONGITUDE_LABELS) with
  | Some _, Some _, Some _, Some _ => true
  | _, _, _, _ => false
  end.

(** The records a batch yields, spelled without the loop. *)
Definition records_of (data : list RawRow) : list CoolingShelter :=
  flat_map (fun rawRow => match assemble rawRow with Some r => [r] | None => [] end) data.

Lemma assemble_some_iff (rawRow : RawRow) :
  (exists shelter, assemble rawRow = Some shelter)
  <-> mandatory_present (normalizeRow rawRow) = true.
Proof.
  unfold assemble, mandatory_present.
  destruct (normalizeRow rawRow) as [|kv row] eqn:Hrow.
  - cbn [Object_keys map List.length Nat.eqb]. rewrite !pickFirst_empty_row.
    split; [intros [? [=]]|discriminate].
  - cbn [Object_keys map List.length Nat.eqb].
    destruct (pickFirst (kv :: row) ID_LABELS) as [i|] eqn:Hid;
      [|split; [intros [? [=]]|discriminate]].
    destruct (pickFirst (kv :: row) NAME_LABELS) as [n|] eqn:Hname; cbn [or_empty].
    + rewrite (pickFirst_truthy _ _ _ Hid), (pickFirst_truthy _ _ _ Hname).
      cbn [negb orb].
      destruct (parseNumber (pickFirst (kv :: row) LATITUDE_LABELS));
        destruct (parseNumber (pickFirst (kv :: row) LONGITUDE_LABELS));
        split; try discriminate; try (intros [? [=]]); eauto.
    + cbn [truthy negb]. rewrite orb_true_r.
      destruct (parseNumber (pickFirst (kv :: row) LATITUDE_LABELS));
        destruct (parseNumber (pickFirst (kv :: row) LONGITUDE_LABELS));
        split; try discriminate; intros [? [=]].
Qed.

Lemma assembleRows_from (acc : list CoolingShelter) (data : list RawRow) :
  fold_left (fun shelters rawRow =>
               match assemble rawRow with
               | Some shelter => shelters ++ [shelter]
               | None => shelters
               end) data acc
  = acc ++ records_of data.
Proof.
  revert acc. induction data as [|r data IH]; intros acc; cbn.
  - now rewrite app_nil_r.
  - rewrite IH. destruct (assemble r); [|reflexivity].
    now rewrite <- app_assoc.
Qed.

Lemma assembleRows_records (data : list RawRow) :
  assembleRows data = records_of data.
Proof. unfold assembleRows. now rewrite assembleRows_from. Qed.

Lemma assembleRows_app (a b : list RawRow) :
  assembleRows (a ++ b) = assembleRows a ++ assembleRows b.
Proof. rewrite !assembleRows_records. apply flat_map_app. Qed.

Lemma records_of_all_present (data : list RawRow) :
  forallb (fun r => mandatory_present (normalizeRow r)) data = true ->
  List.length (records_of data) = List.length data.
Proof.
  induction data as [|r data IH]; [reflexivity|].
  cbn [forallb records_of flat_map]. intros H. apply andb_true_iff in H.
  destruct H as [Hr Hd]. apply assemble_some_iff in Hr. destruct Hr as [s ->].
  cbn. f_equal. exact (IH Hd).
Qed.

(** C3: a row yields a record exactly when identifier, display name,
    latitude and longitude all resolve; any other row is skipped and the
    rows around it are assembled as if it were not there, in row order; a
    batch of N rows of which one alone lacks a coordinate yields N - 1
    records. *)
Theorem assemble_drops_incomplete_rows :
  (forall rawRow,
     (exists shelter, assemble rawRow = Some shelter)
     <-> mandatory_present (normalizeRow rawRow) = true)
  /\ (forall before row after,
        mandatory_present (normalizeRow row) = false ->
        assembleRows (before ++ row :: after)
        = assembleRows before ++ assembleRows after)
  /\ (forall before row after,
        forallb (fun r => mandatory_present (normalizeRow r)) (before ++ after) = true ->
        (parseNumber (pickFirst (normalizeRow row) LATITUDE_LABELS) = None
         \/ parseNumber (pickFirst (normalizeRow row) LONGITUDE_LABELS) = None) ->
        List.length (assembleRows (before ++ row :: after))
        = (List.length (before ++ row :: after) - 1)%nat).
Proof.
  split; [exact assemble_some_iff|].
  assert (Hskip : forall before row after,
             mandatory_present (normalizeRow row) = false ->
             assembleRows (before ++ row :: after)
             = assembleRows before ++ assembleRows after).
  { intros before row after Hrow.
    change (row :: after) with ([row] ++ after).
    rewrite !assembleRows_app. f_equal.
    rewrite (assembleRows_records [row]). cbn.
    destruct (assemble row) as [s|] eqn:E; [|reflexivity].
    assert (H : mandatory_present (normalizeRow row) = true)
      by (apply assemble_some_iff; eauto).
    congruence. }
  split; [exact Hskip|].
  intros before row after Hall Hcoord.
  rewrite Hskip.
  - rewrite <- assembleRows_app, assembleRows_records.
    rewrite (records_of_all_present _ Hall).
    rewrite !length_app. cbn. lia.
  - unfold mandatory_present.
    destruct Hcoord as [-> | ->];
      repeat match goal with |- context [match ?x with _ => _ end] => destruct x end;
      reflexivity.
Qed.

(** A row with the four mandatory columns. *)
Definition sample_row (i lat lon : jsstring) : RawRow :=
  [ (lit "ID", Str i);
    ([0x540D; 0x79F0] (* 名称 *), Str (lit "Hall"));
    ([0x7DEF; 0x5EA6] (* 緯度 *), Str lat);
    ([0x7D4C; 0x5EA6] (* 経度 *), Str lon) ].

(** The theorem on a batch of three rows of which the second lacks its
    latitude: two records. *)
Lemma assemble_drops_incomplete_rows_witness :
  List.length (assembleRows [ sample_row (lit "1") (lit "35.86") (lit "139.64");
                              sample_row (lit "2") (lit "-") (lit "139.65");
                              sample_row (lit "3") (lit "35.90") (lit "139.70") ])
  = 2%nat.
Proof.
  destruct assemble_drops_incomplete_rows as (_ & _ & H).
  exact (H [sample_row (lit "1") (lit "35.86") (lit "139.64")]
           (sample_row (lit "2") (lit "-") (lit "139.65"))
           [sample_row (lit "3") (lit "35.90") (lit "139.70")]
           eq_refl (or_introl eq_refl)).
Defined.

End RecordAssembler.

(** ** Capacity *)

Section Capacity.

Local Open Scope N_scope.

(** [parseNumber] only lets finite numbers through. *)
Lemma parseNumber_finite (value : option jsstring) (x : float) :
  parseNumber value = Some x -> JsNumber.isFinite x = true.
Proof.
  unfold parseNumber. destruct value as [v|]; [|discriminate].
  destruct (negb (truthy v)); [discriminate|].
  destruct (negb (truthy _)); [discriminate|].
  destruct (JsNumber.isFinite _) eqn:E; [|discriminate].
  now intros [= <-].
Qed.

Lemma assemble_capacity (rawRow : RawRow) (r : CoolingShelter) :
  assemble rawRow = Some r ->
  capacity r = parseNumber (pickFirst (normalizeRow rawRow) CAPACITY_LABELS).
Proof.
  unfold assemble.
  destruct (_ =? _)%nat; [discriminate|].
  destruct (pickFirst _ ID_LABELS); [|discriminate].
  destruct (parseNumber (pickFirst _ LATITUDE_LABELS)); [|discriminate].
  destruct (parseNumber (pickFirst _ LONGITUDE_LABELS)); [|discriminate].
  destruct (_ || _); [discriminate|].
  now intros [= <-].
Qed.

(** A row without a value under any capacity label resolves no capacity. *)
Lemma pickFirst_none (row : Row) (candidates : list jsstring) :
  (forall c, In c candidates -> get_property row (normalizeKey c) = None) ->
  pickFirst row candidates = None.
Proof.
  induction candidates as [|c rest IH]; [reflexivity|].
  intros H. cbn [pickFirst]. rewrite (H c (or_introl eq_refl)). cbn.
  apply IH. intros c' Hc'. apply H. now right.
Qed.

(** The cell ["　123人"] (a full-width space, digits, a unit glyph) is the
    number 123, and each null sentinel cleans to no value. *)
Example parseNumber_strips_units :
  parseNumber (cleanValue (Str [0x3000; 0x31; 0x32; 0x33; 0x4EBA])) = Some 123%float.
Proof. reflexivity. Qed.

Example cleanValue_sentinels :
  forallb (fun s => match cleanValue (Str s) with None => true | Some _ => false end)
          NIL_VALUES = true.
Proof. reflexivity. Qed.

(** A record whose capacity cell reads ["-5"]. *)
Definition negative_capacity_row : RawRow :=
  sample_row (lit "1") (lit "35.86") (lit "139.64")
  ++ [([0x53D7; 0x5165; 0x53EF; 0x80FD; 0x4EBA; 0x6570] (* 受入可能人数 *), Str (lit "-5"))].

(** C7, as the claim states it, fails: the cell ["-5"] is stored as the
    number [-5], which is below zero. *)
Lemma capacity_may_be_negative :
  option_map capacity (assemble negative_capacity_row) = Some (Some (-5)%float)
  /\ PrimFloat.ltb (-5) 0 = true.
Proof. split; reflexivity. Qed.

(** C7, amended: the capacity of a record is absent or a finite number
    (its sign is not checked); a row with no value under any capacity
    label stores an absent capacity, never zero, while the cell ["0"]
    stores the number zero. *)
Theorem capacity_absent_or_finite :
  (forall rawRow r, assemble rawRow = Some r ->
     match capacity r with
     | None => True
     | Some x => JsNumber.isFinite x = true
     end)
  /\ (forall rawRow r, assemble rawRow = Some r ->
        (forall c, In c CAPACITY_LABELS ->
                   get_property (normalizeRow rawRow) (normalizeKey c) = None) ->
        capacity r = None)
  /\ option_map capacity
       (assemble (sample_row (lit "1") (lit "35.86") (lit "139.64")
                  ++ [([0x53CE; 0x5BB9; 0x53EF; 0x80FD; 0x4EBA; 0x6570] (* 収容可能人数 *),
                       Str (lit "0"))]))
     = Some (Some 0%float).
Proof.
  split; [|split; [|reflexivity]].
  - intros rawRow r Hr. rewrite (assemble_capacity _ _ Hr).
    destruct (parseNumber _) as [x|] eqn:E; [|exact I].
    exact (parseNumber_finite _ _ E).
  - intros rawRow r Hr Hnone. rewrite (assemble_capacity _ _ Hr).
    now rewrite (pickFirst_none _ _ Hnone).
Qed.

(** The theorem at two rows: one with no capacity column, one whose
    capacity cell is the sentinel ["なし"]. *)
Lemma capacity_absent_or_finite_witness :
  option_map capacity (assemble (sample_row (lit "1") (lit "35.86") (lit "139.64")))
  = Some None
  /\ option_map capacity
       (assemble (sample_row (lit "1") (lit "35.86") (lit "139.64")
                  ++ [([0x53D7; 0x5165; 0x53EF; 0x80FD; 0x4EBA; 0x6570],
                       Str [0x306A; 0x3057])]))
     = Some None.
Proof.
  destruct capacity_absent_or_finite as (_ & Habsent & _).
  split.
  - destruct (assemble (sample_row (lit "1") (lit "35.86") (lit "139.64")))
      as [r|] eqn:E; [|discriminate E].
    cbn [option_map]. do 2 f_equal.
    apply (Habsent _ r E).
    intros c [<-|[<-|[<-|[]]]]; reflexivity.
  - destruct (assemble (sample_row (lit "1") (lit "35.86") (lit "139.64") ++ _))
      as [r|] eqn:E; [|discriminate E].
    cbn [option_map]. do 2 f_equal.
    apply (Habsent _ r E).
    intros c [<-|[<-|[<-|[]]]]; reflexivity.
Defined.

End Capacity.

(** ** Source-candidate loop *)

Section SourceCandidatesProperties.

Variable World : Type.
Variable Body : Type.
Variable fetch : jsstring -> World -> outcome (Response Body) * World.
Variable decodeCsvResponse : Response Body -> World -> outcome jsstring * World.
Variable Papa_parse : jsstring -> list RawRow.

(** The loop and its parts against this network, decoder and parser. *)
Let try_source := attempt fetch decodeCsvResponse Papa_parse.
Let loop := candidates_loop fetch decodeCsvResponse Papa_parse.

(** [fails trimmed w message w']: from [w], the attempt at the location
    [trimmed] ends in a failure with [message], leaving the network in
    [w']: the request is rejected, or is answered with a status that is
    not a success, or the body cannot be decoded, or the text holds no
    record. *)
Inductive fails (trimmed : jsstring) (w : World) : jsstring -> World -> Prop :=
| fails_fetch message w1 :
    fetch trimmed w = (Threw message, w1) ->
    fails trimmed w message w1
| fails_status response w1 :
    fetch trimmed w = (Returned response, w1) ->
    ok response = false ->
    fails trimmed w
          (lit "HTTP " ++ JsNumber.toString (status response)
           ++ lit " " ++ statusText response) w1
| fails_decode response w1 message w2 :
    fetch trimmed w = (Returned response, w1) ->
    ok response = true ->
    decodeCsvResponse response w1 = (Threw message, w2) ->
    fails trimmed w message w2
| fails_empty response w1 csvText w2 :
    fetch trimmed w = (Returned response, w1) ->
    ok response = true ->
    decodeCsvResponse response w1 = (Returned csvText, w2) ->
    parseCoolingShelterCsv Papa_parse csvText = [] ->
    fails trimmed w
          [0x30C7; 0x30FC; 0x30BF; 0x304C; 0x7A7A; 0x3067; 0x3057; 0x305F; 0x3002]%N
          w2.

(** [all_fail sources w errors w']: starting in [w], every source of
    [sources] is blank or is attempted and fails, one after the other;
    [errors] are the failures in order, [w'] is the network afterwards. *)
Inductive all_fail : list jsstring -> World -> list jsstring -> World -> Prop :=
| all_fail_nil w :
    all_fail [] w [] w
| all_fail_blank source rest w errors w' :
    truthy (trim source) = false ->
    all_fail rest w errors w' ->
    all_fail (source :: rest) w errors w'
| all_fail_threw source rest w message w1 errors w' :
    truthy (trim source) = true ->
    fails (trim source) w message w1 ->
    all_fail rest w1 errors w' ->
    all_fail (source :: rest) w ((source ++ lit ": " ++ message) :: errors) w'.

(** The sources that are attempted: those that are not blank. *)
Definition attempted (sources : list jsstring) : list jsstring :=
  filter (fun source => truthy (trim source)) sources.

Lemma all_fail_one_reason_each sources w errors w' :
  all_fail sources w errors w' ->
  List.length errors = List.length (attempted sources)
  /\ Forall2 (fun source error => exists message, error = source ++ lit ": " ++ message)
             (attempted sources) errors.
Proof.
  induction 1 as [w|source rest w errors w' Hb _ IH
                  |source rest w message w1 errors w' Hb Ha _ IH];
    unfold attempted in *; cbn [filter]; rewrite ?Hb.
  - split; constructor.
  - exact IH.
  - destruct IH as [IHl IHf]. split; [cbn; now f_equal|].
    constructor; eauto.
Qed.

(** A failed attempt is one of the four failures, read off the network,
    the decoder and the parser. *)
Lemma attempt_threw trimmed w message w' :
  try_source trimmed w = (Threw message, w') -> fails trimmed w message w'.
Proof.
  unfold try_source, attempt.
  destruct (fetch trimmed w) as [[response|m] w1] eqn:Hf.
  - destruct (ok response) eqn:Hok; cbn [negb].
    + destruct (decodeCsvResponse response w1) as [[csvText|m] w2] eqn:Hd.
      * destruct (parseCoolingShelterCsv Papa_parse csvText) as [|s l] eqn:Hp;
          cbn [List.length Nat.eqb]; [|discriminate].
        intros [= <- <-]. eapply fails_empty; eauto.
      * intros [= <- <-]. eapply fails_decode; eauto.
    + intros [= <- <-]. now apply fails_status.
  - intros [= <- <-]. now apply fails_fetch.
Qed.

(** A successful attempt returns the records parsed from that source, at
    least one, under the trimmed location that was fetched. *)
Lemma attempt_returned trimmed w result w' :
  try_source trimmed w = (Returned result, w') ->
  exists response w1 csvText,
    fetch trimmed w = (Returned response, w1)
    /\ ok response = true
    /\ decodeCsvResponse response w1 = (Returned csvText, w')
    /\ result = {| shelters := parseCoolingShelterCsv Papa_parse csvText;
                   sourceUrl := trimmed |}
    /\ shelters result <> [].
Proof.
  unfold try_source, attempt.
  destruct (fetch trimmed w) as [[response|message] w1] eqn:Hf; [|discriminate].
  destruct (ok response) eqn:Hok; cbn [negb]; [|discriminate].
  destruct (decodeCsvResponse response w1) as [[csvText|message] w2] eqn:Hd; [|discriminate].
  destruct (parseCoolingShelterCsv Papa_parse csvText) as [|s l] eqn:Hp;
    cbn [List.length Nat.eqb]; [discriminate|].
  intros [= <- <-]. cbn [shelters].
  exists response, w1, csvText. rewrite Hp. repeat split; auto. discriminate.
Qed.

Lemma candidates_loop_inl sources acc w errors' w' :
  loop sources acc w = (inl errors', w') ->
  exists errors, all_fail sources w errors w' /\ errors' = acc ++ errors.
Proof.
  revert acc w. induction sources as [|source rest IH]; intros acc w; unfold loop; cbn [candidates_loop]; fold loop; fold try_source.
  - intros [= <- <-]. exists []. split; [constructor|now rewrite app_nil_r].
  - destruct (truthy (trim source)) eqn:Hb; cbn [negb].
    + destruct (try_source (trim source) w) as [[result|message] w1] eqn:Ha; [discriminate|].
      intros H. apply IH in H. destruct H as (errors & Hf & ->).
      apply attempt_threw in Ha.
      eexists. split; [eapply all_fail_threw; eauto|].
      now rewrite <- app_assoc.
    + intros H. apply IH in H. destruct H as (errors & Hf & ->).
      exists errors. split; [now apply all_fail_blank|reflexivity].
Qed.

Lemma candidates_loop_inr sources acc w result w' :
  loop sources acc w = (inr result, w') ->
  exists before source after errors w1,
    sources = before ++ source :: after
    /\ all_fail before w errors w1
    /\ truthy (trim source) = true
    /\ try_source (trim source) w1 = (Returned result, w').
Proof.
  revert acc w. induction sources as [|source rest IH]; intros acc w; unfold loop; cbn [candidates_loop]; fold loop; fold try_source.
  - discriminate.
  - destruct (truthy (trim source)) eqn:Hb; cbn [negb].
    + destruct (try_source (trim source) w) as [[result'|message] w1] eqn:Ha.
      * intros [= <- <-]. exists [], source, rest, [], w.
        repeat split; auto. constructor.
      * intros H. apply IH in H.
        destruct H as (before & s & after & errors & w2 & -> & Hf & Hs & Hr).
        apply attempt_threw in Ha.
        exists (source :: before), s, after, ((source ++ lit ": " ++ message) :: errors), w2.
        repeat split; auto. eapply all_fail_threw; eauto.
    + intros H. apply IH in H.
      destruct H as (before & s & after & errors & w2 & -> & Hf & Hs & Hr).
      exists (source :: before), s, after, errors, w2.
      repeat split; auto. now apply all_fail_blank.
Qed.

(** C8: the sources are tried in order.  A returned result is read off
    the first source that succeeds: every source before it is blank or a
    recorded failure of its own request, status, decoding or parsing; the
    request for this source is answered with a success status where the
    failures left the network, its body is decoded, and the result holds
    the records parsed from that text, at least one, under the trimmed
    location.  An error is thrown only when all sources have been gone
    through without success, and its message joins one failure line per
    attempted source, in order. *)
Theorem fetchSheltersFromCandidates_first_success (sources : list jsstring) (w : World) :
  match fetchSheltersFromCandidates fetch decodeCsvResponse Papa_parse sources w with
  | (Returned result, w') =>
      exists before source after errors w1 response w2 csvText,
        sources = before ++ source :: after
        /\ all_fail before w errors w1
        /\ truthy (trim source) = true
        /\ fetch (trim source) w1 = (Returned response, w2)
        /\ ok response = true
        /\ decodeCsvResponse response w2 = (Returned csvText, w')
        /\ result = {| shelters := parseCoolingShelterCsv Papa_parse csvText;
                       sourceUrl := trim source |}
        /\ shelters result <> []
  | (Threw message, w') =>
      exists errors,
        all_fail sources w errors w'
        /\ message = join_lines errors
        /\ Forall2 (fun source error => exists reason, error = source ++ lit ": " ++ reason)
                   (attempted sources) errors
  end.
Proof.
  unfold fetchSheltersFromCandidates. fold loop.
  destruct (loop sources [] w) as [[errors|result] w'] eqn:E.
  - apply candidates_loop_inl in E. destruct E as (errs & Hf & ->).
    exists errs. repeat split; auto.
    exact (proj2 (all_fail_one_reason_each _ _ _ _ Hf)).
  - apply candidates_loop_inr in E.
    destruct E as (before & source & after & errors & w1 & -> & Hf & Hs & Hr).
    destruct (attempt_returned _ _ _ _ Hr)
      as (response & w2 & csvText & Hfetch & Hok & Hdecode & Hresult & Hn).
    exists before, source, after, errors, w1, response, w2, csvText.
    repeat split; auto.
Qed.

End SourceCandidatesProperties.

Section SourceCandidatesExample.

(** A network of four locations: [/a] cannot be reached, [/b] answers 404,
    [/c] serves a CSV text with one complete row and [/d] would serve the
    same.  The state of the network is the list of requests made so far. *)
Definition sample_fetch (location : jsstring) (log : list jsstring)
    : outcome (Response jsstring) * list jsstring :=
  (if str_eqb location (lit "/a") then Threw (lit "Failed to fetch")
   else if str_eqb location (lit "/b") then
     Returned {| ok := false; status := 404%float;
                 statusText := lit "Not Found"; body := [] |}
   else
     Returned {| ok := true; status := 200%float;
                 statusText := lit "OK"; body := lit "csv" |},
   log ++ [location]).

Definition sample_decode (response : Response jsstring) (log : list jsstring)
    : outcome jsstring * list jsstring :=
  (Returned (body response), log).

Definition sample_parse (csvText : jsstring) : list RawRow :=
  if str_eqb csvText (lit "csv")
  then [sample_row (lit "1") (lit "35.86") (lit "139.64")]
  else [].

(** A blank source is passed over, the two failing sources are tried and
    left behind, [/c] is fetched under its trimmed name and returned; [/d]
    is never requested. *)
Example fetchSheltersFromCandidates_second_chance :
  match fetchSheltersFromCandidates sample_fetch sample_decode sample_parse
          [lit " "; lit "/a"; lit "/b"; lit " /c "; lit "/d"] [] with
  | (Returned result, log) =>
      sourceUrl result = lit "/c"
      /\ map id (shelters result) = [lit "1"]
      /\ log = [lit "/a"; lit "/b"; lit "/c"]
  | (Threw _, _) => False
  end.
Proof. repeat split; reflexivity. Qed.

(** When no source succeeds, the message has one line per attempted
    source. *)
Example fetchSheltersFromCandidates_all_failed :
  fetchSheltersFromCandidates sample_fetch sample_decode sample_parse
    [lit "/a"; lit " "; lit "/b"] []
  = (Threw (lit "/a: Failed to fetch" ++ [10%N] ++ lit "/b: HTTP 404 Not Found"),
     [lit "/a"; lit "/b"]).
Proof. reflexivity. Qed.

End SourceCandidatesExample.

(** ** Order of the numbers *)

Section NumberOrder.

Local Open Scope float_scope.

(** [SFcompare] orders what is not [NaN]: swapping the arguments flips the
    answer, and the answers chain. *)
Ltac split_compare :=
  repeat match goal with
         | |- context [Z.compare ?a ?b] => destruct (Z.compare_spec a b)
         | |- context [PosDef.Pos.compare_cont Eq ?a ?b] =>
             change (PosDef.Pos.compare_cont Eq a b) with (Pos.compare a b);
             destruct (Pos.compare_spec a b)
         end.

Lemma SFcompare_refl (x : spec_float) :
  x <> S754_nan -> SFcompare x x = Some Eq.
Proof.
  destruct x as [s|s| |s m e]; cbn; try easy; intros _; destruct s; try reflexivity;
    rewrite Z.compare_refl;
    change (PosDef.Pos.compare_cont Eq m m) with (Pos.compare m m);
    now rewrite Pos.compare_refl.
Qed.

Lemma SFltb_false_leb (x y : spec_float) :
  x <> S754_nan -> y <> S754_nan -> SFltb x y = false -> SFleb y x = true.
Proof.
  unfold SFltb, SFleb.
  destruct x as [sx|sx| |sx mx ex], y as [sy|sy| |sy my ey]; cbn; try easy;
    intros _ _; try destruct sx; try destruct sy; try easy;
    split_compare; cbn; try easy; lia.
Qed.

Lemma SFltb_leb_trans (x y z : spec_float) :
  SFltb x y = true -> SFleb y z = true -> SFltb x z = true.
Proof.
  unfold SFltb, SFleb.
  destruct x as [sx|sx| |sx mx ex], y as [sy|sy| |sy my ey], z as [sz|sz| |sz mz ez];
    cbn; try easy;
    try destruct sx; try destruct sy; try destruct sz; try easy;
    split_compare; cbn; try easy; lia.
Qed.

Lemma is_nan_false (x : float) :
  PrimFloat.is_nan x = false -> Prim2SF x <> S754_nan.
Proof.
  unfold PrimFloat.is_nan. rewrite FloatAxioms.eqb_spec. intros H E. rewrite E in H.
  discriminate.
Qed.

Lemma ltb_false_leb (x y : float) :
  PrimFloat.is_nan x = false -> PrimFloat.is_nan y = false ->
  (x <? y) = false -> (y <=? x) = true.
Proof.
  rewrite FloatAxioms.ltb_spec, FloatAxioms.leb_spec. intros Hx Hy.
  apply SFltb_false_leb; now apply is_nan_false.
Qed.

Lemma ltb_leb_trans (x y z : float) :
  (x <? y) = true -> (y <=? z) = true -> (x <? z) = true.
Proof. rewrite !FloatAxioms.ltb_spec, FloatAxioms.leb_spec. apply SFltb_leb_trans. Qed.

Lemma leb_refl (x : float) : PrimFloat.is_nan x = false -> (x <=? x) = true.
Proof.
  intros H. rewrite FloatAxioms.leb_spec. unfold SFleb.
  now rewrite SFcompare_refl by now apply is_nan_false.
Qed.

Lemma ltb_leb (x y : float) : (x <? y) = true -> (x <=? y) = true.
Proof.
  rewrite FloatAxioms.ltb_spec, FloatAxioms.leb_spec. unfold SFltb, SFleb.
  now destruct (SFcompare _ _) as [[]|].
Qed.

End NumberOrder.

(** ** Nearest record *)

Section NearestRecord.

Local Open Scope float_scope.

Variable M : MathImpl.
Variable point : GeoPoint.

(** The distance the scan computes for a record. *)
Definition distance_to (s : CoolingShelter) : float :=
  distanceInMeters M point
    {| GeoPoint.latitude := latitude s; GeoPoint.longitude := longitude s |}.

(** [best] is what the scan holds after [seen]: the first record of
    [seen] whose distance no record of [seen] undercuts. *)
Definition first_minimum (seen : list CoolingShelter) (best : Nearest) : Prop :=
  distanceMeters best = distance_to (shelter best)
  /\ exists before after,
       seen = before ++ shelter best :: after
       /\ (forall s, In s before -> (distanceMeters best <? distance_to s) = true)
       /\ (forall s, In s after -> (distanceMeters best <=? distance_to s) = true).

Lemma nearest_step_first_minimum seen best s :
  (forall t, In t (seen ++ [s]) -> PrimFloat.is_nan (distance_to t) = false) ->
  first_minimum seen best ->
  exists best', nearest_step M point (Some best) s = Some best'
                /\ first_minimum (seen ++ [s]) best'.
Proof.
  intros Hnan (Hd & before & after & -> & Hlt & Hle).
  unfold nearest_step. fold (distance_to s).
  destruct (distance_to s <? distanceMeters best) eqn:E.
  - eexists. split; [reflexivity|]. split; [reflexivity|].
    exists (before ++ shelter best :: after), []. cbn [shelter distanceMeters].
    split; [reflexivity|]. split; [|intros ? []].
    intros t Ht. apply ltb_leb_trans with (1 := E).
    apply in_app_or in Ht. destruct Ht as [Ht|[<-|Ht]].
    + now apply ltb_leb, Hlt.
    + rewrite Hd. apply leb_refl. apply Hnan. rewrite !in_app_iff. cbn. auto.
    + now apply Hle.
  - exists best. split; [reflexivity|]. split; [exact Hd|].
    exists before, (after ++ [s]). split; [now rewrite <- app_assoc|].
    split; [exact Hlt|].
    intros t Ht. apply in_app_or in Ht. destruct Ht as [Ht|[<-|[]]]; [now apply Hle|].
    apply ltb_false_leb; auto.
    + apply Hnan. rewrite in_app_iff. cbn. auto.
    + rewrite Hd. apply Hnan. rewrite !in_app_iff. cbn. auto.
Qed.

Lemma fold_nearest_first_minimum rest seen best :
  (forall t, In t (seen ++ rest) -> PrimFloat.is_nan (distance_to t) = false) ->
  first_minimum seen best ->
  exists best', fold_left (nearest_step M point) rest (Some best) = Some best'
                /\ first_minimum (seen ++ rest) best'.
Proof.
  revert seen best. induction rest as [|s rest IH]; intros seen best Hnan Hbest.
  - exists best. rewrite app_nil_r. auto.
  - cbn [fold_left].
    destruct (nearest_step_first_minimum seen best s) as (best1 & -> & H1); auto.
    { intros t Ht. apply Hnan. rewrite in_app_iff in *. cbn in *. tauto. }
    destruct (IH (seen ++ [s]) best1) as (best' & Hf & H'); auto.
    { intros t Ht. apply Hnan. now rewrite <- app_assoc in Ht. }
    exists best'. split; [exact Hf|]. now rewrite <- app_assoc in H'.
Qed.

End NearestRecord.

Section NearestClaim.

Local Open Scope float_scope.

(** A record at the given coordinates, every other field empty. *)
Definition shelter_at (i : jsstring) (lat lon : float) : CoolingShelter :=
  {| id := i; municipalityCode := None; municipalityName := []; name := i;
     address := []; latitude := lat; longitude := lon;
     openings := []; specialNotes := None; capacity := None;
     manager := None; email := None; phone := None; url := None;
     designationDate := None; facilityTypeCategory := None;
     facilityOwnership := None |}.

Definition origin : GeoPoint :=
  {| GeoPoint.latitude := 0; GeoPoint.longitude := 0 |}.

(** Ingestion does yield such latitudes: a latitude cell of a 1 followed
    by 308 zeros is a finite number and the row is kept. *)
Example assemble_far_latitude :
  option_map latitude
    (assemble (sample_row (lit "far") (49%N :: repeat 48%N 308) (lit "0")))
  = Some 1e308.
Proof. reflexivity. Qed.

(** C1, as the claim states it, fails on a list whose first record has a
    finite latitude so large that its conversion to radians overflows: its
    distance is [NaN] in every engine, no later distance compares below
    [NaN], and the scan returns it although the second record is at
    distance 0 and [NaN <= 0] does not hold. *)
Lemma findNearestShelter_keeps_nan :
  PrimFloat.is_finite 1e308 = true
  /\ (nan <=? 0) = false
  /\ (forall M,
        distance_to M origin (shelter_at (lit "near") 0 0) = 0
        /\ findNearestShelter M
             [shelter_at (lit "far") 1e308 0; shelter_at (lit "near") 0 0] origin
           = Some {| shelter := shelter_at (lit "far") 1e308 0; distanceMeters := nan |}).
Proof.
  split; [reflexivity|]. split; [reflexivity|].
  intros M. split; reflexivity.
Qed.

(** C1, amended: on the empty list the scan returns nothing; on [[r]] it
    returns [r] with the distance from the point to [r]; on a list none of
    whose distances is [NaN] it returns a record of the list with its
    distance, which is strictly below the distance of every earlier record
    and at most the distance of every later one: a minimum, and the first
    record that attains it. *)
Theorem findNearestShelter_first_minimum :
  (forall M point, findNearestShelter M [] point = None)
  /\ (forall M point r,
        findNearestShelter M [r] point
        = Some {| shelter := r; distanceMeters := distance_to M point r |})
  /\ (forall M point shelters,
        shelters <> [] ->
        (forall s, In s shelters -> PrimFloat.is_nan (distance_to M point s) = false) ->
        exists best,
          findNearestShelter M shelters point = Some best
          /\ first_minimum M point shelters best).
Proof.
  split; [reflexivity|]. split; [reflexivity|].
  intros M point [|r rest] Hne Hnan; [easy|].
  unfold findNearestShelter. cbn [fold_left nearest_step].
  apply (fold_nearest_first_minimum M point rest [r]); [exact Hnan|].
  split; [reflexivity|].
  exists [], []. cbn. split; [reflexivity|]. split; intros ? [].
Qed.

End NearestClaim.

(** ** Durations *)

Section Durations.

Local Open Scope float_scope.

Lemma snoc_not_dash (s : jsstring) : s ++ [0x5206%N] <> lit "-".
Proof. destruct s as [|c [|d s]]; discriminate. Qed.

(** C9 (what the code does): the estimate is the distance divided by
    1.2 m/s on foot and by 10 m/s by car; walking 1200 m is estimated at
    1000 s, which renders as 17 minutes; one hour renders as hours and
    minutes; the placeholder ["-"] is rendered for [undefined], for [NaN]
    and also for a duration of zero seconds, which is neither, and for
    nothing else: one second renders as ["0分"], zero seconds as ["-"]. *)
Theorem formatDuration_placeholder :
  (forall meters,
     estimateDurationSeconds meters walk = meters / 1.2
     /\ estimateDurationSeconds meters drive = meters / 10)
  /\ estimateDurationSeconds 1200 walk = 1000
  /\ formatDuration (Some 1000) = lit "17" ++ [0x5206%N]
  /\ formatDuration (Some 3600) = lit "1" ++ [0x6642%N; 0x9593%N] ++ lit "0" ++ [0x5206%N]
  /\ formatDuration (Some 1) = lit "0" ++ [0x5206%N]
  /\ formatDuration (Some 0) = lit "-"
  /\ formatDuration (Some nan) = lit "-"
  /\ formatDuration None = lit "-"
  /\ (forall seconds,
        formatDuration seconds = lit "-"
        <-> match seconds with
            | None => True
            | Some x => PrimFloat.is_zero x = true \/ PrimFloat.is_nan x = true
            end).
Proof.
  split; [intros meters; split; reflexivity|].
  repeat (split; [reflexivity|]).
  intros [x|]; [|easy].
  unfold formatDuration, JsNumber.falsy, JsNumber.isNaN.
  destruct (PrimFloat.is_zero x); [cbn; tauto|].
  destruct (PrimFloat.is_nan x); [cbn; tauto|].
  cbn [orb].
  split; [|intros [|]; discriminate].
  destruct (_ <? 60).
  - intros H. now apply snoc_not_dash in H.
  - rewrite !app_assoc. intros H. now apply snoc_not_dash in H.
Qed.

End Durations.

(** ** Facts of binary64 arithmetic *)

Section NumberFacts.

Local Open Scope Z_scope.

(** Rounding does not look at the sign it is given. *)
Lemma binary_round_aux_opp (s : bool) (m e : Z) (l : location) :
  binary_round_aux prec emax (negb s) m e l
  = SFopp (binary_round_aux prec emax s m e l).
Proof.
  unfold binary_round_aux.
  destruct (shr_fexp prec emax m e l) as [mrs' e'].
  destruct (shr_fexp prec emax _ e' loc_Exact) as [mrs'' e''].
  destruct (shr_m mrs''); [reflexivity| |reflexivity].
  now destruct (e'' <=? emax - prec).
Qed.

Lemma binary_round_opp (s : bool) (m : positive) (e : Z) :
  binary_round prec emax (negb s) m e = SFopp (binary_round prec emax s m e).
Proof.
  unfold binary_round. destruct (shl_align m e _) as [mz ez].
  apply binary_round_aux_opp.
Qed.

Lemma binary_normalize_opp (m e : Z) :
  m <> 0 ->
  binary_normalize prec emax (- m) e false
  = SFopp (binary_normalize prec emax m e false).
Proof.
  destruct m as [|p|p]; [easy| |]; intros _; cbn [Z.opp binary_normalize].
  - apply (binary_round_opp false).
  - change false with (negb true) at 1. rewrite binary_round_opp.
    now destruct (binary_round prec emax true p e).
Qed.

Lemma SFopp_involutive (x : spec_float) : SFopp (SFopp x) = x.
Proof. destruct x as [s|s| |s m e]; cbn; now rewrite ?negb_involutive. Qed.

Lemma SFmul_opp_l (x y : spec_float) :
  SFmul prec emax (SFopp x) y = SFopp (SFmul prec emax x y).
Proof.
  destruct x as [sx|sx| |sx mx ex], y as [sy|sy| |sy my ey]; cbn [SFmul SFopp];
    try reflexivity; try (now destruct sx, sy).
  replace (xorb (negb sx) sy) with (negb (xorb sx sy)) by now destruct sx, sy.
  apply binary_round_aux_opp.
Qed.

Lemma SFmul_comm (x y : spec_float) :
  SFmul prec emax x y = SFmul prec emax y x.
Proof.
  destruct x as [sx|sx| |sx mx ex], y as [sy|sy| |sy my ey]; cbn [SFmul];
    try reflexivity; try (now rewrite xorb_comm).
  now rewrite xorb_comm, Pos.mul_comm, Z.add_comm.
Qed.

Lemma SFmul_opp_r (x y : spec_float) :
  SFmul prec emax x (SFopp y) = SFopp (SFmul prec emax x y).
Proof. now rewrite SFmul_comm, SFmul_opp_l, SFmul_comm. Qed.

Lemma SFdiv_opp_l (x y : spec_float) :
  SFdiv prec emax (SFopp x) y = SFopp (SFdiv prec emax x y).
Proof.
  destruct x as [sx|sx| |sx mx ex], y as [sy|sy| |sy my ey]; cbn [SFdiv SFopp];
    try reflexivity; try (now destruct sx, sy).
  destruct (SFdiv_core_binary prec emax _ ex _ ey) as [[mz ez] lz].
  replace (xorb (negb sx) sy) with (negb (xorb sx sy)) by now destruct sx, sy.
  apply binary_round_aux_opp.
Qed.

(** Swapping the operands of a subtraction negates the difference, unless
    both differences are [+0]. *)
Lemma SFsub_swap (x y : spec_float) :
  SFsub prec emax y x = SFopp (SFsub prec emax x y)
  \/ (SFsub prec emax x y = S754_zero false /\ SFsub prec emax y x = S754_zero false).
Proof.
  destruct x as [sx|sx| |sx mx ex], y as [sy|sy| |sy my ey]; cbn [SFsub SFopp];
    try (left; reflexivity);
    try (destruct sx, sy; cbn; auto; fail);
    try (left; now rewrite ?negb_involutive).
  rewrite (Z.min_comm ey ex).
  set (a := cond_Zopp sx _). set (b := cond_Zopp sy _).
  destruct (Z.eq_dec (a - b) 0) as [E|E].
  - right. replace (b - a) with 0 by lia. rewrite E. auto.
  - left. replace (b - a) with (- (a - b)) by lia.
    now apply binary_normalize_opp.
Qed.

Definition sf_finite (x : spec_float) : Prop :=
  match x with
  | S754_zero _ | S754_finite _ _ _ => True
  | _ => False
  end.

Lemma SFsub_diag (x : spec_float) :
  sf_finite x -> SFsub prec emax x x = S754_zero false.
Proof.
  destruct x as [s|s| |s m e]; cbn [sf_finite SFsub]; try easy; intros _.
  - now destruct s.
  - now rewrite Z.sub_diag.
Qed.

(** [NaN], a zero, or a number with the sign bit clear. *)
Definition sf_nonneg (x : spec_float) : Prop :=
  match x with
  | S754_nan | S754_zero _ => True
  | S754_infinity s | S754_finite s _ _ => s = false
  end.

Lemma binary_round_aux_nonneg (m e : Z) (l : location) :
  sf_nonneg (binary_round_aux prec emax false m e l).
Proof.
  unfold binary_round_aux.
  destruct (shr_fexp prec emax m e l) as [mrs' e'].
  destruct (shr_fexp prec emax _ e' loc_Exact) as [mrs'' e''].
  destruct (shr_m mrs''); [exact I| |exact I].
  now destruct (e'' <=? emax - prec).
Qed.

Lemma SFmul_nonneg (x y : spec_float) :
  sf_nonneg x -> sf_nonneg y -> sf_nonneg (SFmul prec emax x y).
Proof.
  destruct x as [sx|sx| |sx mx ex], y as [sy|sy| |sy my ey]; cbn [SFmul sf_nonneg];
    auto; try (intros -> ->; reflexivity); try (intros _ ->; cbn; auto; fail);
    try (intros -> _; cbn; auto; fail).
  - intros -> ->. apply binary_round_aux_nonneg.
Qed.

Lemma SFsqrt_nonneg (x : spec_float) : sf_nonneg (SFsqrt prec emax x).
Proof.
  destruct x as [s|s| |s m e]; cbn [SFsqrt sf_nonneg]; auto.
  - now destruct s.
  - destruct s; cbn; auto.
    destruct (SFsqrt_core_binary prec emax (Z.pos m) e) as [[mz ez] lz].
    apply binary_round_aux_nonneg.
Qed.

(** *** A product of two numbers of magnitude at most 1 does not overflow *)

Lemma digits2_pos_bound (m : positive) : Z.pos m < 2 ^ Z.pos (digits2_pos m).
Proof.
  induction m as [m IH|m IH|]; cbn [digits2_pos]; [| |reflexivity];
    rewrite Pos2Z.inj_succ, Z.pow_succ_r by lia; lia.
Qed.

Lemma Zdigits2_le (z k : Z) : 0 <= z < 2 ^ k -> 0 <= k -> Zdigits2 z <= k.
Proof.
  destruct z as [|p|p]; [cbn; lia| |lia]. cbn [Zdigits2]. intros [_ H]. revert k H.
  induction p as [p IH|p IH|]; intros k H Hk; cbn [digits2_pos].
  - assert (k <> 0) by (intros ->; cbn in H; lia).
    replace k with (Z.succ (k - 1)) in H by lia. rewrite Z.pow_succ_r in H by lia.
    rewrite Pos2Z.inj_succ. specialize (IH (k - 1)). lia.
  - assert (k <> 0) by (intros ->; cbn in H; lia).
    replace k with (Z.succ (k - 1)) in H by lia. rewrite Z.pow_succ_r in H by lia.
    rewrite Pos2Z.inj_succ. specialize (IH (k - 1)). lia.
  - assert (k <> 0) by (intros ->; cbn in H; lia). lia.
Qed.

Lemma shr_1_bound (r : shr_record) :
  0 <= shr_m r -> 0 <= shr_m (shr_1 r) <= shr_m r.
Proof.
  destruct r as [m r s]. cbn [shr_m]. destruct m as [|[p|p|]|[p|p|]]; cbn; lia.
Qed.

Lemma iter_shr_1_bound (p : positive) (r : shr_record) :
  0 <= shr_m r -> 0 <= shr_m (iter_pos shr_1 p r) <= shr_m r.
Proof.
  revert r. induction p as [p IH|p IH|]; intros r Hr; cbn [iter_pos].
  - pose proof (shr_1_bound r Hr) as H1.
    pose proof (IH _ (proj1 H1)) as H2.
    pose proof (IH _ (proj1 H2)). lia.
  - pose proof (IH _ Hr) as H1.
    pose proof (IH _ (proj1 H1)). lia.
  - now apply shr_1_bound.
Qed.

(** What [shr_fexp] returns: a mantissa that has not grown, under the
    exponent it was given or the one [fexp] asks for. *)
Lemma shr_fexp_bound (m e : Z) (l : location) :
  0 <= m ->
  let '(mrs, e') := shr_fexp prec emax m e l in
  0 <= shr_m mrs <= m
  /\ (e' = e \/ e' = fexp prec emax (Zdigits2 m + e)).
Proof.
  intros Hm. unfold shr_fexp, shr.
  assert (Hl : shr_m (shr_record_of_loc m l) = m) by now destruct l as [|[]].
  destruct (fexp prec emax (Zdigits2 m + e) - e) as [|p|p] eqn:E.
  - rewrite Hl. split; [lia|auto].
  - pose proof (iter_shr_1_bound p (shr_record_of_loc m l)) as H.
    rewrite Hl in H. split; [auto|]. right. lia.
  - rewrite Hl. split; [lia|auto].
Qed.

Lemma round_nearest_even_bound (m : Z) (l : location) :
  m <= round_nearest_even m l <= m + 1.
Proof.
  unfold round_nearest_even. destruct l as [|[]]; try lia.
  destruct (Z.even m); lia.
Qed.

Lemma binary_round_aux_small (s : bool) (m e : Z) :
  0 <= m < 2 ^ 106 -> e <= -104 ->
  sf_finite (binary_round_aux prec emax s m e loc_Exact).
Proof.
  intros Hm He. unfold binary_round_aux.
  pose proof (shr_fexp_bound m e loc_Exact (proj1 Hm)) as H1.
  destruct (shr_fexp prec emax m e loc_Exact) as [mrs' e'].
  destruct H1 as [Hm' He'].
  pose proof (round_nearest_even_bound (shr_m mrs') (loc_of_shr_record mrs')) as Hr.
  set (m1 := round_nearest_even _ _) in *.
  assert (Hd : Zdigits2 m <= 106) by (apply Zdigits2_le; lia).
  assert (Hd0 : 0 <= Zdigits2 m) by (destruct m; cbn; lia).
  assert (He'b : e' <= -51).
  { unfold fexp, SpecFloat.emin, prec, emax in He'. lia. }
  assert (Hm1 : 0 <= m1 < 2 ^ 107).
  { change (2 ^ 107) with (2 * 2 ^ 106). lia. }
  pose proof (shr_fexp_bound m1 e' loc_Exact (proj1 Hm1)) as H2.
  destruct (shr_fexp prec emax m1 e' loc_Exact) as [mrs'' e''].
  destruct H2 as [Hm'' He''].
  assert (Hd1 : Zdigits2 m1 <= 107) by (apply Zdigits2_le; lia).
  assert (Hd10 : 0 <= Zdigits2 m1) by (destruct m1; cbn; lia).
  assert (He''b : e'' <= emax - prec).
  { unfold fexp, SpecFloat.emin, prec, emax in *. lia. }
  destruct (shr_m mrs'') as [|p|p]; [exact I| |lia].
  apply Z.leb_le in He''b. now rewrite He''b.
Qed.

(** A number in [[-1, 1]]. *)
Definition sf_unit (x : spec_float) : Prop :=
  SFleb (S754_finite true 4503599627370496 (-52)) x = true
  /\ SFleb x (S754_finite false 4503599627370496 (-52)) = true.

Lemma sf_unit_exponent (s : bool) (m : positive) (e : Z) :
  sf_unit (S754_finite s m e) -> e <= -52.
Proof.
  unfold sf_unit, SFleb. cbn [SFcompare]. intros [H1 H2].
  destruct s.
  - destruct (Z.compare_spec (-52) e); try lia; discriminate.
  - destruct (Z.compare_spec e (-52)); try lia; discriminate.
Qed.

Lemma valid_mantissa (s : bool) (m : positive) (e : Z) :
  valid_binary (S754_finite s m e) = true -> Z.pos m < 2 ^ 53.
Proof.
  cbn [SpecFloat.valid_binary]. unfold bounded, canonical_mantissa. intros H.
  apply andb_true_iff in H. destruct H as [H _]. apply Z.eqb_eq in H.
  pose proof (digits2_pos_bound m).
  assert (Z.pos (digits2_pos m) <= 53)
    by (unfold fexp, SpecFloat.emin, prec, emax in H; lia).
  apply Z.lt_le_trans with (1 := H0).
  apply Z.pow_le_mono_r; lia.
Qed.

Lemma SFmul_unit (x y : spec_float) :
  valid_binary x = true -> valid_binary y = true ->
  sf_unit x -> sf_unit y -> sf_finite (SFmul prec emax x y).
Proof.
  destruct x as [sx|sx| |sx mx ex], y as [sy|sy| |sy my ey]; cbn [SFmul sf_finite];
    auto; intros Vx Vy Ux Uy;
    try (destruct Ux as [? ?]; discriminate);
    try (destruct Uy as [? ?]; discriminate);
    try (destruct Ux as [U1 U2]; destruct sx; discriminate);
    try (destruct Uy as [U1 U2]; destruct sy; discriminate).
  apply binary_round_aux_small.
  - pose proof (valid_mantissa _ _ _ Vx). pose proof (valid_mantissa _ _ _ Vy).
    rewrite Pos2Z.inj_mul. change (2 ^ 106) with (2 ^ 53 * 2 ^ 53). nia.
  - pose proof (sf_unit_exponent _ _ _ Ux). pose proof (sf_unit_exponent _ _ _ Uy).
    lia.
Qed.

End NumberFacts.

(** *** The same facts on [float] *)

Section FloatFacts.

Local Open Scope float_scope.

Lemma opp_involutive (x : float) : - - x = x.
Proof. apply Prim2SF_inj. rewrite !opp_spec. apply SFopp_involutive. Qed.

Lemma mul_opp_l (x y : float) : (- x) * y = - (x * y).
Proof.
  apply Prim2SF_inj. rewrite opp_spec, !mul_spec, opp_spec. apply SFmul_opp_l.
Qed.

Lemma mul_opp_r (x y : float) : x * (- y) = - (x * y).
Proof.
  apply Prim2SF_inj. rewrite opp_spec, !mul_spec, opp_spec. apply SFmul_opp_r.
Qed.

Lemma mul_comm (x y : float) : x * y = y * x.
Proof. apply Prim2SF_inj. rewrite !mul_spec. apply SFmul_comm. Qed.

Lemma div_opp_l (x y : float) : (- x) / y = - (x / y).
Proof.
  apply Prim2SF_inj. rewrite opp_spec, !div_spec, opp_spec. apply SFdiv_opp_l.
Qed.

Lemma sub_swap (x y : float) :
  y - x = - (x - y) \/ (x - y = 0 /\ y - x = 0).
Proof.
  destruct (SFsub_swap (Prim2SF x) (Prim2SF y)) as [H|[H1 H2]].
  - left. apply Prim2SF_inj. now rewrite opp_spec, !sub_spec.
  - right. split; apply Prim2SF_inj; now rewrite sub_spec.
Qed.

Lemma is_nan_true (x : float) :
  PrimFloat.is_nan x = true -> Prim2SF x = S754_nan.
Proof.
  unfold PrimFloat.is_nan. rewrite FloatAxioms.eqb_spec. unfold SFeqb.
  destruct (Prim2SF x) eqn:E; try reflexivity;
    rewrite SFcompare_refl by discriminate; discriminate.
Qed.

Lemma is_finite_sf (x : float) :
  PrimFloat.is_finite x = true -> sf_finite (Prim2SF x).
Proof.
  unfold PrimFloat.is_finite, PrimFloat.is_nan, PrimFloat.is_infinity.
  rewrite !FloatAxioms.eqb_spec, abs_spec.
  change (Prim2SF infinity) with (S754_infinity false).
  destruct (Prim2SF x) as [s|[]| |s m e]; cbn; intros H; try exact I; discriminate H.
Qed.

Lemma is_finite_spec (x : float) :
  PrimFloat.is_finite x
  = match Prim2SF x with
    | S754_zero _ | S754_finite _ _ _ => true
    | _ => false
    end.
Proof.
  unfold PrimFloat.is_finite, PrimFloat.is_nan, PrimFloat.is_infinity.
  rewrite !FloatAxioms.eqb_spec, abs_spec.
  change (Prim2SF infinity) with (S754_infinity false). unfold SFeqb.
  destruct (Prim2SF x) as [s|[]| |s m e]; try reflexivity.
  cbn [SFabs]. rewrite SFcompare_refl by discriminate. reflexivity.
Qed.

Lemma sub_diag (x : float) : PrimFloat.is_finite x = true -> x - x = 0.
Proof.
  intros H. apply Prim2SF_inj. rewrite sub_spec.
  now apply SFsub_diag, is_finite_sf.
Qed.

Lemma is_nan_opp (x : float) : PrimFloat.is_nan (- x) = PrimFloat.is_nan x.
Proof.
  unfold PrimFloat.is_nan. rewrite !FloatAxioms.eqb_spec, opp_spec. unfold SFeqb.
  destruct (Prim2SF x) as [s|s| |s m e] eqn:E; try reflexivity;
    rewrite !SFcompare_refl by (cbn; discriminate); reflexivity.
Qed.

Lemma is_infinity_opp (x : float) :
  PrimFloat.is_infinity (- x) = PrimFloat.is_infinity x.
Proof.
  unfold PrimFloat.is_infinity. f_equal. apply Prim2SF_inj.
  rewrite !abs_spec, opp_spec. now destruct (Prim2SF x).
Qed.

Lemma is_zero_opp (x : float) : PrimFloat.is_zero (- x) = PrimFloat.is_zero x.
Proof.
  unfold PrimFloat.is_zero. rewrite !FloatAxioms.eqb_spec, opp_spec.
  destruct (Prim2SF x) as [s|s| |s m e]; try reflexivity; now destruct s.
Qed.

(** The value of a finite number times zero is a zero. *)
Lemma finite_mul_zero (c : float) :
  sf_finite (Prim2SF c) -> c * 0 = 0 \/ c * 0 = -0.
Proof.
  intros H.
  assert (E : Prim2SF (c * 0) = S754_zero false \/ Prim2SF (c * 0) = S754_zero true).
  { rewrite mul_spec. change (Prim2SF 0) with (S754_zero false).
    destruct (Prim2SF c) as [s|s| |s m e]; try easy; destruct s; cbn; auto. }
  destruct E as [E|E]; [left|right]; apply Prim2SF_inj; exact E.
Qed.

(** [nonneg x]: [x] is [NaN], a zero, or has its sign bit clear. *)
Definition nonneg (x : float) : Prop := sf_nonneg (Prim2SF x).

Lemma nonneg_leb (x : float) :
  PrimFloat.is_nan x = false -> nonneg x -> (0 <=? x) = true.
Proof.
  intros Hn. apply is_nan_false in Hn. unfold nonneg.
  rewrite FloatAxioms.leb_spec. change (Prim2SF 0) with (S754_zero false).
  destruct (Prim2SF x) as [s|s| |s m e]; cbn; try easy; now intros ->.
Qed.

Lemma leb_nonneg (x : float) :
  PrimFloat.is_nan x = true \/ (0 <=? x) = true -> nonneg x.
Proof.
  unfold nonneg. intros [H|H].
  - now rewrite (is_nan_true _ H).
  - rewrite FloatAxioms.leb_spec in H. change (Prim2SF 0) with (S754_zero false) in H.
    destruct (Prim2SF x) as [s|s| |s m e]; cbn in *; auto; now destruct s.
Qed.

Lemma nonneg_cases (x : float) :
  nonneg x -> PrimFloat.is_nan x = true \/ (0 <=? x) = true.
Proof.
  intros H. destruct (PrimFloat.is_nan x) eqn:E; [now left|right].
  now apply nonneg_leb.
Qed.

Lemma mul_nonneg (x y : float) : nonneg x -> nonneg y -> nonneg (x * y).
Proof. unfold nonneg. rewrite mul_spec. apply SFmul_nonneg. Qed.

Lemma sqrt_nonneg (x : float) : nonneg (PrimFloat.sqrt x).
Proof. unfold nonneg. rewrite sqrt_spec. apply SFsqrt_nonneg. Qed.

Lemma binary_normalize_nonneg (z : Z) :
  (0 <= z)%Z -> sf_nonneg (binary_normalize prec emax z 0 false).
Proof.
  destruct z as [|p|p]; [easy| |lia]. intros _. cbn [binary_normalize].
  unfold binary_round. destruct (shl_align p 0 _) as [mz ez].
  apply binary_round_aux_nonneg.
Qed.

Lemma Math_round_nonneg (x : float) : nonneg x -> nonneg (JsNumber.Math_round x).
Proof.
  unfold nonneg, JsNumber.Math_round.
  destruct (Prim2SF x) as [s|s| |s m e] eqn:E; try (now rewrite E).
  cbn [sf_nonneg]. intros ->.
  destruct (Z.leb_spec 0 e) as [He|He]; [now rewrite E|].
  cbn [cond_Zopp].
  set (r := ((2 * Z.pos m + 2 ^ (- e)) / 2 ^ (1 - e))%Z).
  assert (0 <= r)%Z.
  { apply Z.div_pos; [|apply Z.pow_pos_nonneg; lia].
    pose proof (Z.pow_nonneg 2 (- e)). lia. }
  destruct (Z.eqb_spec r 0); [exact I|].
  unfold JsNumber.of_int.
  destruct (Z.ltb_spec r 0); [lia|].
  rewrite of_uint63_spec. apply binary_normalize_nonneg.
  apply Uint63.to_Z_bounded.
Qed.

End FloatFacts.

(** ** Latitudes in radians *)

Section Latitudes.

Local Open Scope Z_scope.

(** Rounding a mantissa below [2 ^ k] under an exponent [e] that leaves
    room for it gives a zero or a finite number, and the exponent does not
    grow by more than [2 * k + 1]. *)
Lemma binary_round_aux_room (s : bool) (m e k : Z) (l : location) :
  0 <= m < 2 ^ k -> 0 <= k <= 1000 -> e + 2 * k + 1 <= 971 ->
  match binary_round_aux prec emax s m e l with
  | S754_zero _ => True
  | S754_finite _ _ e2 => e2 <= Z.max (e + 2 * k + 1) (k - 1073)
  | _ => False
  end.
Proof.
  intros Hm Hk He. unfold binary_round_aux.
  pose proof (shr_fexp_bound m e l (proj1 Hm)) as H1.
  destruct (shr_fexp prec emax m e l) as [mrs' e'].
  destruct H1 as [Hm' He'].
  pose proof (round_nearest_even_bound (shr_m mrs') (loc_of_shr_record mrs')) as Hr.
  set (m1 := round_nearest_even _ _) in *.
  assert (Hd : Zdigits2 m <= k) by (apply Zdigits2_le; lia).
  assert (Hd0 : 0 <= Zdigits2 m) by (destruct m; cbn; lia).
  assert (He'b : e' <= Z.max (e + k) (-1074)).
  { unfold fexp, SpecFloat.emin, prec, emax in He'. lia. }
  assert (Hm1 : 0 <= m1 < 2 ^ (k + 1)).
  { rewrite Z.pow_add_r by lia. change (2 ^ 1) with 2. lia. }
  pose proof (shr_fexp_bound m1 e' loc_Exact (proj1 Hm1)) as H2.
  destruct (shr_fexp prec emax m1 e' loc_Exact) as [mrs'' e''].
  destruct H2 as [Hm'' He''].
  assert (Hd1 : Zdigits2 m1 <= k + 1) by (apply Zdigits2_le; lia).
  assert (Hd10 : 0 <= Zdigits2 m1) by (destruct m1; cbn; lia).
  assert (He''b : e'' <= Z.max (e + 2 * k + 1) (k - 1073)).
  { unfold fexp, SpecFloat.emin, prec, emax in *. lia. }
  destruct (shr_m mrs'') as [|p|p]; [exact I| |lia].
  assert (Hfin : (e'' <=? emax - prec) = true).
  { apply Z.leb_le. unfold prec, emax. lia. }
  rewrite Hfin. exact He''b.
Qed.

(** A number between -90 and 90 has a small exponent. *)
Lemma latitude_exponent (s : bool) (m : positive) (e : Z) :
  SFleb (S754_finite true 6333186975989760 (-46)) (S754_finite s m e) = true ->
  SFleb (S754_finite s m e) (S754_finite false 6333186975989760 (-46)) = true ->
  e <= -46.
Proof.
  unfold SFleb. cbn [SFcompare]. intros H1 H2.
  destruct s.
  - destruct (Z.compare_spec (-46) e); try lia; discriminate.
  - destruct (Z.compare_spec e (-46)); try lia; discriminate.
Qed.

Lemma div_eucl_bound (a b q r : Z) :
  0 <= a -> 0 < b -> Z.div_eucl a b = (q, r) -> 0 <= q <= a.
Proof.
  intros Ha Hb E.
  assert (Hq : q = a / b) by (unfold Z.div; now rewrite E).
  subst q. split; [apply Z.div_pos; lia|].
  pose proof (Z.mul_div_le a b Hb). pose proof (Z.div_pos a b Ha Hb). nia.
Qed.

(** Dividing a finite number of moderate exponent by 180 does not
    overflow. *)
Lemma SFdiv_180_finite (x : spec_float) :
  valid_binary x = true ->
  match x with
  | S754_zero _ => True
  | S754_finite _ _ e => e <= 116
  | _ => False
  end ->
  sf_finite (SFdiv prec emax x (S754_finite false 6333186975989760 (-45))).
Proof.
  destruct x as [s|s| |s m e]; cbn [SFdiv sf_finite]; try easy.
  intros V He.
  pose proof (valid_mantissa _ _ _ V) as Hm.
  unfold SFdiv_core_binary.
  set (d1 := Zdigits2 (Z.pos m)).
  change (Zdigits2 6333186975989760) with 53.
  assert (Hd1 : 1 <= d1 <= 53).
  { unfold d1. split; [cbn; lia|apply Zdigits2_le; lia]. }
  set (e' := Z.min (fexp prec emax (d1 + e - (53 + -45))) (e - -45)).
  assert (He' : e' <= e + 45 /\ 0 <= e - -45 - e' <= 105).
  { unfold e', fexp, SpecFloat.emin, prec, emax. lia. }
  set (m' := match e - -45 - e' with
             | 0 => Z.pos m
             | Z.pos _ => Z.shiftl (Z.pos m) (e - -45 - e')
             | Z.neg _ => 0
             end).
  assert (Hm' : 0 <= m' < 2 ^ 158).
  { unfold m'. destruct (e - -45 - e') as [|p|p] eqn:Es.
    - change (2 ^ 158) with (2 ^ 53 * 2 ^ 105). lia.
    - rewrite Z.shiftl_mul_pow2 by lia.
      assert (0 < 2 ^ Z.pos p <= 2 ^ 105).
      { split; [apply Z.pow_pos_nonneg; lia|apply Z.pow_le_mono_r; lia]. }
      change (2 ^ 158) with (2 ^ 53 * 2 ^ 105). nia.
    - lia. }
  destruct (Z.div_eucl m' 6333186975989760) as [q r] eqn:Eq.
  pose proof (div_eucl_bound m' 6333186975989760 q r (proj1 Hm') eq_refl Eq) as Hq.
  pose proof (binary_round_aux_room (xorb s false) q e' 158
                (new_location 6333186975989760 r)) as H.
  specialize (H ltac:(lia) ltac:(lia) ltac:(lia)).
  destruct (binary_round_aux prec emax (xorb s false) q e' _); try exact I;
    contradiction.
Qed.

Local Open Scope float_scope.

(** A latitude between -90 and 90 degrees converts to finite radians. *)
Lemma toRadians_latitude (x : float) :
  (-90 <=? x) = true -> (x <=? 90) = true ->
  PrimFloat.is_finite (toRadians x) = true.
Proof.
  rewrite !FloatAxioms.leb_spec.
  change (Prim2SF (-90)) with (S754_finite true 6333186975989760 (-46)).
  change (Prim2SF 90) with (S754_finite false 6333186975989760 (-46)).
  intros H1 H2. unfold toRadians. rewrite is_finite_spec, div_spec.
  change (Prim2SF 180) with (S754_finite false 6333186975989760 (-45)).
  assert (H : sf_finite (SFdiv prec emax (Prim2SF (x * Math_PI))
                           (S754_finite false 6333186975989760 (-45)))).
  { apply SFdiv_180_finite; [apply Prim2SF_valid|].
    rewrite mul_spec.
    change (Prim2SF Math_PI) with (S754_finite false 7074237752028440 (-51)).
    pose proof (Prim2SF_valid x) as V.
    destruct (Prim2SF x) as [s|s| |s m e]; try discriminate H1; try discriminate H2;
      try (destruct s; discriminate).
    - exact I.
    - pose proof (valid_mantissa _ _ _ V) as Hm.
      pose proof (latitude_exponent _ _ _ H1 H2) as He.
      unfold SF64mul. cbn [SFmul].
      pose proof (binary_round_aux_room (xorb s false)
                    (Z.pos (m * 7074237752028440)) (e + -51) 106 loc_Exact) as H.
      assert (Hp : (0 <= Z.pos (m * 7074237752028440) < 2 ^ 106)%Z).
      { rewrite Pos2Z.inj_mul. change (2 ^ 106)%Z with (2 ^ 53 * 2 ^ 53)%Z. nia. }
      specialize (H Hp ltac:(lia) ltac:(lia)).
      destruct (binary_round_aux prec emax (xorb s false) _ _ loc_Exact)
        as [s0|s0| |s0 m0 e0]; try exact I; try contradiction.
      lia. }
  unfold SF64div.
  destruct (SFdiv prec emax _ _); cbn [sf_finite] in H; try reflexivity; contradiction.
Qed.

End Latitudes.

(** ** Great-circle distance *)

Section GreatCircle.

Local Open Scope float_scope.

(** What the properties of the distance need from an engine's
    approximations, where [Math.sin], [Math.cos] and [Math.atan2] consult
    them: on finite arguments an odd sine and a cosine within [[-1, 1]],
    and an [atan2] that is [NaN] or at least zero when [y] is [+0] or
    above it and [x] is at least zero.  The negative zero is left out for
    [y]: the language puts [atan2(-0, -0)] near [-pi], and near [-pi] or
    at [-0] every [atan2(-0, x)]; with the sign of [y] clear it puts the
    result at [+0], near [pi / 4], near [pi / 2] or near [pi], and between
    [0] and [pi / 2] where it fixes nothing. *)
Record plausible (M : MathImpl) : Prop := {
  sin_odd : forall x,
    PrimFloat.is_finite x = true -> sin_approx M (- x) = - sin_approx M x;
  cos_unit : forall x,
    PrimFloat.is_finite x = true ->
    (-1 <=? cos_approx M x) = true /\ (cos_approx M x <=? 1) = true;
  atan2_nonneg : forall y x,
    (0 <=? y) = true -> PrimFloat.get_sign y = false -> (0 <=? x) = true ->
    PrimFloat.is_nan (atan2_approx M y x) = true \/ (0 <=? atan2_approx M y x) = true
}.

Variable M : MathImpl.
Hypothesis HM : plausible M.

Lemma toRadians_opp (x : float) : toRadians (- x) = - toRadians x.
Proof. unfold toRadians. now rewrite mul_opp_l, div_opp_l. Qed.

Lemma Math_sin_opp (x : float) : Math_sin M (- x) = - Math_sin M x.
Proof.
  unfold Math_sin. rewrite is_nan_opp, is_infinity_opp, is_zero_opp.
  destruct (_ || _) eqn:E; [reflexivity|].
  destruct (PrimFloat.is_zero x); [reflexivity|].
  apply (sin_odd M HM). unfold PrimFloat.is_finite. now rewrite E.
Qed.

(** The sine of half a coordinate difference, each way round. *)
Definition half_sine (u v : float) : float := Math_sin M (toRadians (v - u) / 2).

Lemma half_sine_swap (u v : float) :
  half_sine v u = - half_sine u v \/ half_sine v u = half_sine u v.
Proof.
  unfold half_sine. destruct (sub_swap v u) as [E|[E1 E2]].
  - left. now rewrite E, toRadians_opp, div_opp_l, Math_sin_opp.
  - right. now rewrite E1, E2.
Qed.

Lemma square_swap (u v : float) :
  half_sine v u * half_sine v u = half_sine u v * half_sine u v.
Proof.
  destruct (half_sine_swap u v) as [-> | ->]; [|reflexivity].
  now rewrite mul_opp_l, mul_opp_r, opp_involutive.
Qed.

Lemma scaled_square_swap (c u v : float) :
  c * half_sine v u * half_sine v u = c * half_sine u v * half_sine u v.
Proof.
  destruct (half_sine_swap u v) as [-> | ->]; [|reflexivity].
  now rewrite !mul_opp_r, mul_opp_l, opp_involutive.
Qed.

Lemma distanceInMeters_sym (a b : GeoPoint) :
  distanceInMeters M a b = distanceInMeters M b a.
Proof.
  unfold distanceInMeters. cbv zeta.
  fold (half_sine (GeoPoint.latitude a) (GeoPoint.latitude b)).
  fold (half_sine (GeoPoint.longitude a) (GeoPoint.longitude b)).
  fold (half_sine (GeoPoint.latitude b) (GeoPoint.latitude a)).
  fold (half_sine (GeoPoint.longitude b) (GeoPoint.longitude a)).
  rewrite (square_swap (GeoPoint.latitude b) (GeoPoint.latitude a)).
  rewrite (scaled_square_swap _ (GeoPoint.longitude b) (GeoPoint.longitude a)).
  now rewrite (mul_comm (Math_cos M (toRadians (GeoPoint.latitude a)))).
Qed.

Lemma Math_cos_unit (x : float) :
  PrimFloat.is_finite x = true -> sf_unit (Prim2SF (Math_cos M x)).
Proof.
  intros Hx. pose proof Hx as H. unfold Math_cos.
  unfold PrimFloat.is_finite in H. apply negb_true_iff in H. rewrite H.
  destruct (PrimFloat.is_zero x); [split; reflexivity|].
  destruct (cos_unit M HM x Hx) as [H1 H2].
  rewrite FloatAxioms.leb_spec in H1, H2. split; assumption.
Qed.

(** Degrees that convert to finite radians are finite. *)
Lemma toRadians_finite (x : float) :
  PrimFloat.is_finite (toRadians x) = true -> PrimFloat.is_finite x = true.
Proof.
  unfold toRadians. rewrite !is_finite_spec, div_spec, mul_spec.
  destruct (Prim2SF x) as [s|[]| |s m e]; intros H; try reflexivity;
    vm_compute in H; discriminate H.
Qed.

Lemma distanceInMeters_self (a : GeoPoint) :
  PrimFloat.is_finite (toRadians (GeoPoint.latitude a)) = true ->
  PrimFloat.is_finite (GeoPoint.longitude a) = true ->
  distanceInMeters M a a = 0.
Proof.
  intros Hrad Hlon. pose proof (toRadians_finite _ Hrad) as Hlat.
  unfold distanceInMeters. cbv zeta.
  rewrite (sub_diag _ Hlat), (sub_diag _ Hlon).
  change (Math_sin M (toRadians 0 / 2)) with 0.
  set (c := Math_cos M (toRadians (GeoPoint.latitude a))).
  assert (Hc : sf_finite (Prim2SF (c * c))).
  { rewrite mul_spec.
    apply SFmul_unit; try apply Prim2SF_valid; now apply Math_cos_unit. }
  destruct (finite_mul_zero _ Hc) as [-> | ->]; reflexivity.
Qed.

(** The sign bit of a number. *)
Lemma get_sign_sf (x : float) :
  PrimFloat.get_sign x
  = match Prim2SF x with
    | S754_zero s | S754_infinity s | S754_finite s _ _ => s
    | S754_nan => false
    end.
Proof.
  unfold PrimFloat.get_sign, PrimFloat.is_zero.
  rewrite FloatAxioms.eqb_spec. change (Prim2SF PrimFloat.zero) with (S754_zero false).
  destruct (Prim2SF x) as [s|s| |s m e] eqn:E.
  - replace (SFeqb (S754_zero s) (S754_zero false)) with true by now destruct s.
    rewrite FloatAxioms.ltb_spec, div_spec, E.
    change (Prim2SF PrimFloat.zero) with (S754_zero false).
    change (Prim2SF PrimFloat.one) with (S754_finite false 4503599627370496 (-52)).
    now destruct s.
  - replace (SFeqb (S754_infinity s) (S754_zero false)) with false by now destruct s.
    rewrite FloatAxioms.ltb_spec, E.
    change (Prim2SF PrimFloat.zero) with (S754_zero false). now destruct s.
  - cbn. rewrite FloatAxioms.ltb_spec, E. reflexivity.
  - replace (SFeqb (S754_finite s m e) (S754_zero false)) with false by now destruct s.
    rewrite FloatAxioms.ltb_spec, E.
    change (Prim2SF PrimFloat.zero) with (S754_zero false). now destruct s.
Qed.

(** A number that is at least zero and is not [NaN] has its sign bit
    clear, or is the negative zero. *)
Lemma nonneg_sign (y : float) :
  nonneg y -> PrimFloat.is_nan y = false ->
  PrimFloat.get_sign y = false \/ Prim2SF y = S754_zero true.
Proof.
  intros Hy Hn. apply is_nan_false in Hn. rewrite get_sign_sf.
  unfold nonneg in Hy.
  destruct (Prim2SF y) as [[]|s| |s m e]; cbn [sf_nonneg] in Hy; auto; congruence.
Qed.

(** The arc tangent of two numbers at least zero is [NaN] or at least
    zero, provided [x] is above zero where [y] is the negative zero (there
    the language returns [y]). *)
Lemma Math_atan2_nonneg (y x : float) :
  nonneg y -> nonneg x ->
  (Prim2SF y = S754_zero true -> (0 <? x) = true) ->
  nonneg (Math_atan2 M y x).
Proof.
  intros Hy Hx Hzero. unfold Math_atan2.
  destruct (PrimFloat.is_nan y) eqn:Ey; [exact I|].
  destruct (PrimFloat.is_nan x) eqn:Ex; [exact I|].
  cbn [orb].
  destruct (nonneg_sign y Hy Ey) as [Hs|Hz].
  - destruct (_ && _); [exact Hy|].
    destruct (_ && _); [now rewrite Hs|].
    apply leb_nonneg.
    apply (atan2_nonneg M HM); [now apply nonneg_leb|exact Hs|now apply nonneg_leb].
  - assert (E : PrimFloat.is_zero y = true).
    { unfold PrimFloat.is_zero. rewrite FloatAxioms.eqb_spec, Hz. reflexivity. }
    rewrite E, (Hzero Hz). exact Hy.
Qed.

Lemma binary_round_aux_sign (s : bool) (m e : Z) (l : location) :
  binary_round_aux prec emax s m e l <> S754_zero (negb s).
Proof.
  unfold binary_round_aux.
  destruct (shr_fexp prec emax m e l) as [mrs' e'].
  destruct (shr_fexp prec emax _ e' loc_Exact) as [mrs'' e''].
  destruct (shr_m mrs''); [now destruct s| |discriminate].
  now destruct (e'' <=? emax - prec)%Z.
Qed.

(** A square root is the negative zero only at the negative zero. *)
Lemma sqrt_neg_zero (h : float) :
  Prim2SF (PrimFloat.sqrt h) = S754_zero true -> h = (-0)%float.
Proof.
  rewrite sqrt_spec. unfold SF64sqrt. intros H. apply Prim2SF_inj.
  change (Prim2SF (-0)) with (S754_zero true).
  destruct (Prim2SF h) as [s|[]| |[] m e]; cbn [SFsqrt] in H; try discriminate H.
  - exact H.
  - exfalso. revert H.
    destruct (SFsqrt_core_binary prec emax (Z.pos m) e) as [[mz ez] lz].
    apply (binary_round_aux_sign false).
Qed.

Lemma distanceInMeters_nonneg (a b : GeoPoint) :
  nonneg (distanceInMeters M a b).
Proof.
  unfold distanceInMeters. cbv zeta.
  apply Math_round_nonneg.
  apply mul_nonneg; [reflexivity|].
  apply mul_nonneg; [reflexivity|].
  apply Math_atan2_nonneg; try apply sqrt_nonneg.
  intros H. apply sqrt_neg_zero in H. rewrite H. reflexivity.
Qed.

End GreatCircle.

Section GreatCircleClaim.

Local Open Scope float_scope.

(** A point whose latitude is finite, and whose latitude in radians is
    not: [1e308 * Math.PI] overflows. *)
Definition far_north : GeoPoint :=
  {| GeoPoint.latitude := 1e308; GeoPoint.longitude := 0 |}.

(** C2, as the claim states it, fails at a point with finite coordinates:
    in every engine the distance from [far_north] to itself is [NaN], which
    is neither equal to 0 nor at least 0, nor equal to itself. *)
Lemma distanceInMeters_nan_beyond_radians :
  PrimFloat.is_finite (GeoPoint.latitude far_north) = true
  /\ PrimFloat.is_finite (GeoPoint.longitude far_north) = true
  /\ (forall M, distanceInMeters M far_north far_north = nan)
  /\ (nan =? 0) = false /\ (0 <=? nan) = false /\ (nan =? nan) = false.
Proof. repeat split; reflexivity. Qed.

(** C2, amended: in an engine whose approximations are [plausible], the
    distance from [a] to [b] is [NaN] or at least 0, it is the same Number
    as the distance from [b] to [a], and the distance from [a] to itself
    is 0 whenever the longitude of [a] is finite and its latitude converts
    to a finite number of radians, as every latitude between -90 and 90
    degrees does. *)
Theorem distanceInMeters_properties (M : MathImpl) (a b : GeoPoint) :
  plausible M ->
  (PrimFloat.is_nan (distanceInMeters M a b) = true
   \/ (0 <=? distanceInMeters M a b) = true)
  /\ distanceInMeters M a b = distanceInMeters M b a
  /\ (PrimFloat.is_finite (toRadians (GeoPoint.latitude a)) = true ->
      PrimFloat.is_finite (GeoPoint.longitude a) = true ->
      distanceInMeters M a a = 0)
  /\ ((-90 <=? GeoPoint.latitude a) = true ->
      (GeoPoint.latitude a <=? 90) = true ->
      PrimFloat.is_finite (GeoPoint.longitude a) = true ->
      distanceInMeters M a a = 0).
Proof.
  intros HM. split; [|split; [|split]].
  - apply nonneg_cases. now apply distanceInMeters_nonneg.
  - now apply distanceInMeters_sym.
  - now apply distanceInMeters_self.
  - intros Hsouth Hnorth Hlon.
    apply distanceInMeters_self; [exact HM| |exact Hlon].
    now apply toRadians_latitude.
Qed.

(** An engine to try the theorem on: truncated Taylor series, good to
    some eight digits for arguments within half a turn.  The sine is odd
    by its form, the cosine is clamped to [[-1, 1]], the arc tangent is
    taken from the quarter angle of [|y|] and [x] and given the sign of
    [y], with the values of the language where [y] is a zero. *)
Definition sin_series (x : float) : float :=
  let x2 := x * x in
  x * (1 - x2 / 6 * (1 - x2 / 20 * (1 - x2 / 42 * (1 - x2 / 72 * (1 - x2 / 110
       * (1 - x2 / 156 * (1 - x2 / 210 * (1 - x2 / 272)))))))).

Definition clamp_unit (y : float) : float :=
  if y <? -1 then -1
  else if 1 <? y then 1
  else if PrimFloat.is_nan y then 1
  else y.

Definition cos_series (x : float) : float :=
  let x2 := x * x in
  clamp_unit
    (1 - x2 / 2 * (1 - x2 / 12 * (1 - x2 / 30 * (1 - x2 / 56 * (1 - x2 / 90
       * (1 - x2 / 132 * (1 - x2 / 182 * (1 - x2 / 240)))))))).

Definition atan_series (u : float) : float :=
  let u2 := u * u in
  u * (1 - u2 * (1 / 3 - u2 * (1 / 5 - u2 * (1 / 7 - u2 * (1 / 9 - u2 * (1 / 11
       - u2 * (1 / 13 - u2 * (1 / 15 - u2 / 17)))))))).

Definition atan2_series (y x : float) : float :=
  let angle :=
    if PrimFloat.is_zero y then (if PrimFloat.get_sign x then Math_PI else 0)
    else
      let r := PrimFloat.sqrt (x * x + y * y) in
      let t := PrimFloat.abs y / (r + x) in
      let u := t / (1 + PrimFloat.sqrt (1 + t * t)) in
      PrimFloat.abs (4 * atan_series u) in
  if PrimFloat.get_sign y then - angle else angle.

Definition series : MathImpl :=
  {| sin_approx := sin_series;
     cos_approx := cos_series;
     atan2_approx := atan2_series |}.

Lemma clamp_unit_bounds (y : float) :
  (-1 <=? clamp_unit y) = true /\ (clamp_unit y <=? 1) = true.
Proof.
  unfold clamp_unit.
  destruct (y <? -1) eqn:E1; [split; reflexivity|].
  destruct (1 <? y) eqn:E2; [split; reflexivity|].
  destruct (PrimFloat.is_nan y) eqn:E3; [split; reflexivity|].
  split; apply ltb_false_leb; auto.
Qed.

Lemma abs_nonneg (x : float) : nonneg (PrimFloat.abs x).
Proof. unfold nonneg. rewrite abs_spec. now destruct (Prim2SF x). Qed.

Lemma series_plausible : plausible series.
Proof.
  split; cbn [series sin_approx cos_approx atan2_approx].
  - intros x _. unfold sin_series. cbv zeta.
    rewrite (mul_opp_l x (- x)), mul_opp_r, opp_involutive.
    apply mul_opp_l.
  - intros x _. apply clamp_unit_bounds.
  - intros y x _ Hs _. unfold atan2_series. cbv zeta. rewrite Hs.
    apply nonneg_cases.
    destruct (PrimFloat.is_zero y); [|apply abs_nonneg].
    now destruct (PrimFloat.get_sign x).
Qed.

(** The series engine at the zeros, where the language fixes the result:
    [atan2(-0, -0)] is [-pi] and [atan2(+0, -0)] is [pi]. *)
Example Math_atan2_series_zeros :
  Math_atan2 series (-0) (-0) = - Math_PI
  /\ Math_atan2 series 0 (-0) = Math_PI
  /\ Math_atan2 series (-0) 0 = (-0)%float
  /\ Math_atan2 series 0 0 = 0.
Proof. repeat split; reflexivity. Qed.

(** Tokyo to Osaka and London to New York in the series engine, in
    meters. *)
Example distanceInMeters_series_samples :
  distanceInMeters series
    {| GeoPoint.latitude := 35.6895; GeoPoint.longitude := 139.6917 |}
    {| GeoPoint.latitude := 34.6937; GeoPoint.longitude := 135.5023 |} = 396436
  /\ distanceInMeters series
       {| GeoPoint.latitude := 51.5074; GeoPoint.longitude := -0.1278 |}
       {| GeoPoint.latitude := 40.7128; GeoPoint.longitude := -74.006 |} = 5570222.
Proof. split; reflexivity. Qed.

(** The assumptions on an engine do not keep [NaN] away from ordinary
    coordinates: the series sine of a quarter turn is 1 + 4e-14,
    the haversine of two antipodes exceeds 1, and the square root of
    [1 - haversine] is [NaN]. *)
Example distanceInMeters_series_antipodes :
  distanceInMeters series
    {| GeoPoint.latitude := 0; GeoPoint.longitude := 0 |}
    {| GeoPoint.latitude := 0; GeoPoint.longitude := 180 |} = nan.
Proof. reflexivity. Qed.

Definition saitama : GeoPoint :=
  {| GeoPoint.latitude := 35.8617; GeoPoint.longitude := 139.6455 |}.
Definition omiya : GeoPoint :=
  {| GeoPoint.latitude := 35.9064; GeoPoint.longitude := 139.6239 |}.

(** The theorem between two points of Saitama, in the series engine. *)
Lemma distanceInMeters_properties_witness :
  (PrimFloat.is_nan (distanceInMeters series saitama omiya) = true
   \/ (0 <=? distanceInMeters series saitama omiya) = true)
  /\ distanceInMeters series saitama omiya
     = distanceInMeters series omiya saitama
  /\ distanceInMeters series saitama saitama = 0.
Proof.
  destruct (distanceInMeters_properties series saitama omiya
              series_plausible) as (H1 & H2 & _ & H3).
  split; [exact H1|]. split; [exact H2|].
  apply H3; reflexivity.
Defined.

End GreatCircleClaim.

Section NearestWitness.

Local Open Scope float_scope.

Definition three_shelters : list CoolingShelter :=
  [ shelter_at (lit "A") 35.9064 139.6239;
    shelter_at (lit "B") 35.8617 139.6455;
    shelter_at (lit "C") 35.8617 139.6455 ].

(** The scan over three records, the last two at the query point: the
    distances are 5338, 0 and 0, and the second record is returned. *)
Example findNearestShelter_three :
  findNearestShelter series three_shelters saitama
  = Some {| shelter := shelter_at (lit "B") 35.8617 139.6455; distanceMeters := 0 |}.
Proof. reflexivity. Qed.

(** The theorem on these three records: none of the distances is [NaN]. *)
Lemma findNearestShelter_first_minimum_witness :
  exists best,
    findNearestShelter series three_shelters saitama = Some best
    /\ first_minimum series saitama three_shelters best.
Proof.
  destruct findNearestShelter_first_minimum as (_ & _ & H).
  apply (H series saitama three_shelters).
  - discriminate.
  - intros s [<-|[<-|[<-|[]]]]; reflexivity.
Defined.

End NearestWitness.

(** * Further properties of the code *)

(** ** Strings: equality test and [trim] *)

Section StringFacts.

Local Open Scope N_scope.

Lemma str_eqb_eq (a b : jsstring) : str_eqb a b = true <-> a = b.
Proof.
  revert b. induction a as [|x a IH]; intros [|y b]; cbn; try easy.
  rewrite andb_true_iff, N.eqb_eq, IH. split.
  - now intros [-> ->].
  - now intros [= -> ->].
Qed.

Lemma str_eqb_refl (a : jsstring) : str_eqb a a = true.
Proof. now apply str_eqb_eq. Qed.

Lemma set_has_In (set : list jsstring) (s : jsstring) :
  set_has set s = true <-> In s set.
Proof.
  unfold set_has. rewrite existsb_exists. split.
  - intros (x & Hx & E). apply str_eqb_eq in E. now subst.
  - intros H. exists s. split; [exact H|apply str_eqb_refl].
Qed.

(** A string that neither starts nor ends with white space. *)
Definition trimmed (s : jsstring) : Prop :=
  match s with
  | [] => True
  | c :: _ => is_space c = false /\ is_space (last s c) = false
  end.

Lemma trimStart_head (s : jsstring) :
  match trimStart s with
  | [] => True
  | c :: _ => is_space c = false
  end.
Proof.
  induction s as [|c s IH]; cbn; [exact I|].
  destruct (is_space c) eqn:E; [exact IH|exact E].
Qed.

Lemma trimStart_snoc (a : jsstring) (c : char16) :
  is_space c = false -> trimStart (a ++ [c]) = trimStart a ++ [c].
Proof.
  intros Hc. induction a as [|x a IH]; cbn.
  - now rewrite Hc.
  - destruct (is_space x); [exact IH|reflexivity].
Qed.

Lemma trimStart_fixed (c : char16) (s : jsstring) :
  is_space c = false -> trimStart (c :: s) = c :: s.
Proof. intros H. cbn. now rewrite H. Qed.

Lemma trimStart_all_space (s : jsstring) :
  trimStart s = [] -> forallb is_space s = true.
Proof.
  induction s as [|c s IH]; cbn; [reflexivity|].
  destruct (is_space c); [exact IH|discriminate].
Qed.

Lemma last_snoc (a : jsstring) (c d : char16) : last (a ++ [c]) d = c.
Proof. apply last_last. Qed.

(** [trim] returns a trimmed string. *)
Lemma trim_trimmed (s : jsstring) : trimmed (trim s).
Proof.
  unfold trim, trimEnd.
  pose proof (trimStart_head s) as Hh.
  destruct (trimStart s) as [|c t]; [exact I|].
  (* the head [c] survives the trimming of the end *)
  cbn [rev]. rewrite (trimStart_snoc _ _ Hh), rev_app_distr. cbn [rev app].
  split; [exact Hh|].
  pose proof (trimStart_head (rev t)) as Hl.
  destruct (trimStart (rev t)) as [|d u]; [exact Hh|].
  cbn [rev]. change (c :: (rev u ++ [d])) with ((c :: rev u) ++ [d]).
  now rewrite last_snoc.
Qed.

(** [trim] leaves a trimmed string as it is. *)
Lemma trim_fixed (s : jsstring) : trimmed s -> trim s = s.
Proof.
  destruct s as [|c s]; [reflexivity|]. intros [Hc Hl].
  unfold trim, trimEnd. rewrite (trimStart_fixed _ _ Hc).
  destruct (exists_last (l := c :: s)) as (a & d & E); [discriminate|].
  rewrite E in *. rewrite last_snoc in Hl.
  rewrite rev_app_distr. cbn [rev app].
  rewrite (trimStart_fixed _ _ Hl). cbn [rev]. now rewrite rev_involutive.
Qed.

End StringFacts.

(** ** Value Cleaner *)

Section ValueCleaner.

Local Open Scope N_scope.

(** A cleaned value: not empty, not a null sentinel, no white space around
    it. *)
Definition clean (t : jsstring) : Prop :=
  t <> [] /\ ~ In t NIL_VALUES /\ trimmed t.

Lemma cleanValue_some (value : unknown) (t : jsstring) :
  cleanValue value = Some t -> clean t.
Proof.
  destruct value as [v|]; [|discriminate]. cbn [cleanValue].
  destruct (set_has NIL_VALUES (trim v)) eqn:E; [discriminate|].
  intros [= <-].
  assert (Hn : ~ In (trim v) NIL_VALUES).
  { intros H. apply set_has_In in H. congruence. }
  repeat split; [|exact Hn|apply trim_trimmed].
  intros H0. apply Hn. rewrite H0. now left.
Qed.

Lemma cleanValue_fixed (t : jsstring) : clean t -> cleanValue (Str t) = Some t.
Proof.
  intros (_ & Hn & Ht). cbn [cleanValue]. rewrite (trim_fixed _ Ht).
  destruct (set_has NIL_VALUES t) eqn:E; [|reflexivity].
  apply set_has_In in E. contradiction.
Qed.

(** X1: what [cleanValue] lets through is a cleaned value, and cleaning it
    again returns it unchanged; nothing is let through for a cell that is
    not a string or whose trimmed text is a sentinel. *)
Theorem cleanValue_clean :
  (forall value t, cleanValue value = Some t -> clean t /\ cleanValue (Str t) = Some t)
  /\ (forall value,
        cleanValue value = None
        <-> value = NotStr \/ exists v, value = Str v /\ In (trim v) NIL_VALUES).
Proof.
  split.
  - intros value t H. pose proof (cleanValue_some _ _ H) as Hc.
    split; [exact Hc|exact (cleanValue_fixed _ Hc)].
  - intros [v|]; cbn [cleanValue].
    + destruct (set_has NIL_VALUES (trim v)) eqn:E.
      * split; [|reflexivity]. intros _. right. exists v. split; [reflexivity|].
        now apply set_has_In.
      * split; [discriminate|]. intros [H|(v' & [= <-] & H)]; [discriminate|].
        apply set_has_In in H. congruence.
    + split; auto.
Qed.

(** The theorem at a cell padded with a full-width and an ASCII space. *)
Lemma cleanValue_clean_witness :
  clean (lit "12:30")
  /\ cleanValue (Str (lit "12:30")) = Some (lit "12:30").
Proof.
  destruct cleanValue_clean as [H _].
  exact (H (Str ([0x3000] ++ lit "12:30 ")) (lit "12:30") eq_refl).
Defined.

End ValueCleaner.

(** ** Numeric coercion *)

Section NumericCoercion.

Local Open Scope N_scope.

(** What is left of a value for [Number]: [value.replace(/[^\d.+-]/g, '')]. *)
Definition sanitized (v : jsstring) : jsstring :=
  replace_class not_numeric (fun _ => []) v.

Lemma sanitized_app (a b : jsstring) : sanitized (a ++ b) = sanitized a ++ sanitized b.
Proof. unfold sanitized, replace_class. apply flat_map_app. Qed.

Lemma sanitized_cons_text (c : char16) (b : jsstring) :
  not_numeric c = true -> sanitized (c :: b) = sanitized b.
Proof. intros H. unfold sanitized, replace_class. cbn. now rewrite H. Qed.

Lemma parseNumber_sanitized (v : jsstring) :
  parseNumber (Some v)
  = if negb (truthy (sanitized v)) then None
    else
      let parsed := JsNumber.Number_sanitized (sanitized v) in
      if JsNumber.isFinite parsed then Some parsed else None.
Proof.
  unfold parseNumber. fold (sanitized v).
  destruct v as [|c v]; [reflexivity|]. reflexivity.
Qed.

(** X2: text between, before or after the numeric characters does not
    count: striking a code unit that is no digit, dot or sign out of a
    value leaves what [parseNumber] returns unchanged. *)
Theorem parseNumber_ignores_text (a b : jsstring) (c : char16) :
  not_numeric c = true ->
  parseNumber (Some (a ++ c :: b)) = parseNumber (Some (a ++ b)).
Proof.
  intros Hc. rewrite !parseNumber_sanitized, !sanitized_app.
  now rewrite (sanitized_cons_text _ _ Hc).
Qed.

(** The theorem at ["約1,200人"] against ["1200"]. *)
Lemma parseNumber_ignores_text_witness :
  parseNumber (Some ([0x7D04] ++ lit "1" ++ lit "," ++ lit "200" ++ [0x4EBA]))
  = parseNumber (Some ([0x7D04] ++ lit "1" ++ lit "200" ++ [0x4EBA])).
Proof.
  exact (parseNumber_ignores_text ([0x7D04] ++ lit "1") (lit "200" ++ [0x4EBA]) 44 eq_refl).
Defined.

(** *** The texts that convert *)

Lemma span_digits_spec (s : jsstring) :
  let '(ds, r) := JsNumber.span_digits s in
  s = ds ++ r /\ forallb is_digit ds = true.
Proof.
  induction s as [|c s IH]; cbn; [auto|].
  destruct (is_digit c) eqn:E; [|auto].
  destruct (JsNumber.span_digits s) as [ds r]. destruct IH as [-> H].
  cbn. now rewrite E.
Qed.

(** An unsigned literal: digits with at most one dot among them. *)
Definition unsigned_shape (body : jsstring) : Prop :=
  forallb (fun c => is_digit c || (c =? 46)) body = true
  /\ (count_occ N.eq_dec body 46%N <= 1)%nat
  /\ existsb is_digit body = true.

Lemma digits_no_dot (ds : jsstring) :
  forallb is_digit ds = true ->
  forallb (fun c => is_digit c || (c =? 46)) ds = true
  /\ count_occ N.eq_dec ds 46%N = 0%nat.
Proof.
  induction ds as [|c ds IH]; cbn; [auto|].
  intros H. apply andb_true_iff in H. destruct H as [Hc Hd].
  destruct (IH Hd) as [H1 H2]. rewrite Hc, H1. split; [reflexivity|].
  destruct (N.eq_dec c 46) as [->|]; [discriminate|exact H2].
Qed.

Lemma truthy_digits_exists (ds : jsstring) :
  forallb is_digit ds = true -> truthy ds = true -> existsb is_digit ds = true.
Proof.
  destruct ds as [|c ds]; [discriminate|]. cbn. intros H _.
  apply andb_true_iff in H. now rewrite (proj1 H).
Qed.

Lemma unsigned_literal_shape (body : jsstring) (m k : Z) :
  JsNumber.unsigned_literal body = Some (m, k) -> unsigned_shape body.
Proof.
  unfold JsNumber.unsigned_literal.
  pose proof (span_digits_spec body) as H.
  destruct (JsNumber.span_digits body) as [ip r]. destruct H as [-> Hip].
  destruct (digits_no_dot _ Hip) as [Hip1 Hip2].
  destruct r as [|c r'].
  - destruct (truthy ip) eqn:Et; [|discriminate]. intros _.
    rewrite app_nil_r. repeat split; [exact Hip1|lia|now apply truthy_digits_exists].
  - destruct (N.eq_dec c 46) as [->|Hc].
    + pose proof (span_digits_spec r') as H.
      destruct (JsNumber.span_digits r') as [fp r'']. destruct H as [-> Hfp].
      destruct (digits_no_dot _ Hfp) as [Hfp1 Hfp2].
      destruct r'' as [|x r'']; [|discriminate].
      destruct (truthy ip || truthy fp) eqn:Et; [|discriminate]. intros _.
      rewrite app_nil_r. repeat split.
      * rewrite forallb_app. cbn. now rewrite Hip1, Hfp1.
      * rewrite count_occ_app, count_occ_cons_eq by reflexivity.
        unfold char16 in *. rewrite Hip2, Hfp2. lia.
      * rewrite existsb_app. cbn. apply orb_true_iff in Et.
        destruct Et as [Et|Et];
          [rewrite (truthy_digits_exists _ Hip Et)
          |rewrite (truthy_digits_exists _ Hfp Et)];
          now rewrite ?orb_true_r.
    + destruct c as [|p]; [discriminate|].
      repeat (destruct p as [p|p|]; try discriminate); now contradiction Hc.
Qed.

(** A numeric text: an unsigned literal, after one sign at most. *)
Definition numeric_shape (s : jsstring) : Prop :=
  exists body,
    (s = body \/ s = 43 :: body \/ s = 45 :: body) /\ unsigned_shape body.

(** X3: a value converts only when its digits, dots and signs, read
    together, form one decimal literal: a single optional sign in front,
    at most one dot, at least one digit; what it converts to is a finite
    number.  Texts such as ["10-20"] or ["1.2.3"] give no number. *)
Theorem parseNumber_shape (value : option jsstring) (x : float) :
  parseNumber value = Some x ->
  exists v, value = Some v
            /\ numeric_shape (sanitized v)
            /\ PrimFloat.is_finite x = true.
Proof.
  destruct value as [v|]; [|discriminate]. rewrite parseNumber_sanitized.
  destruct (sanitized v) as [|c s] eqn:Es; [discriminate|]. cbn [truthy negb].
  cbv zeta. destruct (JsNumber.isFinite _) eqn:Ef; [|discriminate].
  intros [= <-]. exists v. split; [reflexivity|]. split; [|exact Ef].
  unfold JsNumber.Number_sanitized in Ef.
  destruct (JsNumber.split_sign (c :: s)) as [neg body] eqn:Esign.
  destruct (JsNumber.unsigned_literal body) as [[m k]|] eqn:El; [|discriminate].
  exists body. split; [|exact (unsigned_literal_shape _ _ _ El)].
  unfold JsNumber.split_sign in Esign.
  destruct (N.eq_dec c 43) as [->|H43]; [injection Esign as _ <-; auto|].
  destruct (N.eq_dec c 45) as [->|H45]; [injection Esign as _ <-; auto|].
  left. destruct c as [|p]; [now injection Esign as _ <-|].
  repeat (destruct p as [p|p|]; try (now injection Esign as _ <-));
    now (contradiction H43 || contradiction H45).
Qed.

(** The theorem at ["-0.5度"], and three texts it excludes. *)
Lemma parseNumber_shape_witness :
  (exists v, Some (lit "-0.5" ++ [0x5EA6]) = Some v
             /\ numeric_shape (sanitized v)
             /\ PrimFloat.is_finite (-0.5)%float = true)
  /\ parseNumber (Some (lit "10-20")) = None
  /\ parseNumber (Some (lit "2025-07-01")) = None
  /\ parseNumber (Some (lit "1.2.3")) = None.
Proof.
  split; [|repeat split; reflexivity].
  exact (parseNumber_shape (Some (lit "-0.5" ++ [0x5EA6])) (-0.5)%float eq_refl).
Defined.

End NumericCoercion.

(** ** Header Normalizer: what a normalized label looks like *)

Section NormalizedLabels.

Local Open Scope N_scope.

Ltac to_prop H :=
  rewrite ?orb_true_iff, ?andb_true_iff, ?orb_false_iff, ?andb_false_iff,
    ?negb_true_iff, ?negb_false_iff,
    ?N.leb_le, ?N.eqb_eq, ?N.leb_gt, ?N.eqb_neq in H.

Ltac split_test :=
  match goal with
  | |- context [if ?b then _ else _] =>
      let E := fresh "E" in
      destruct b eqn:E; to_prop E; try (exfalso; lia)
  end.

(** A code unit that can occur in a normalized label. *)
Definition plain (d : char16) : Prop :=
  is_space d = false /\ ~ (0xFF01 <= d <= 0xFF5E) /\ d <> 0x30FB.

Lemma norm_char_plain (c d : char16) : norm_char c = Some d -> plain d.
Proof.
  unfold norm_char, plain, is_space. intros H. revert H.
  repeat split_test; intros [= <-]; repeat split;
    try (intros ?; lia);
    rewrite ?orb_false_iff, ?andb_false_iff, ?N.leb_gt, ?N.eqb_neq; lia.
Qed.

Lemma option_list_length (o : option char16) : (List.length (option_list o) <= 1)%nat.
Proof. destruct o; cbn; lia. Qed.

(** X4: a normalized label holds no white space, no full-width form
    U+FF01..U+FF5E and no middle dot; it is never longer than the label
    it comes from; and normalizing is done piece by piece: the label of a
    concatenation is the concatenation of the labels. *)
Theorem normalizeKey_plain :
  (forall key, Forall plain (normalizeKey key))
  /\ (forall key, (List.length (normalizeKey key) <= List.length key)%nat)
  /\ (forall a b, normalizeKey (a ++ b) = normalizeKey a ++ normalizeKey b).
Proof.
  split; [|split].
  - intros key. rewrite normalizeKey_flat_map. apply Forall_forall.
    intros d Hd. apply in_flat_map in Hd. destruct Hd as (c & _ & Hd).
    destruct (norm_char c) as [d'|] eqn:E; cbn in Hd; [|easy].
    destruct Hd as [<-|[]]. exact (norm_char_plain _ _ E).
  - intros key. rewrite normalizeKey_flat_map.
    induction key as [|c key IH]; cbn [flat_map List.length]; [lia|].
    rewrite length_app. pose proof (option_list_length (norm_char c)). lia.
  - exact normalizeKey_app.
Qed.

Lemma norm_char_dropped (c : char16) :
  is_space c = true \/ c = 0x30FB -> norm_char c = None.
Proof.
  unfold norm_char, is_space. intros H.
  destruct H as [H| ->]; [|reflexivity]. to_prop H.
  repeat split_test; reflexivity.
Qed.

Lemma toHalfWidth_flat_map (s : jsstring) :
  normalizeKey (toHalfWidth s) = normalizeKey s.
Proof.
  induction s as [|c s IH]; [reflexivity|].
  change (c :: s) with ([c] ++ s).
  unfold toHalfWidth at 1. rewrite replace_class_app. fold (toHalfWidth s).
  rewrite !normalizeKey_app, IH. f_equal.
  rewrite replace_class_one.
  destruct ((0xFF01 <=? c) && (c <=? 0xFF5E)) eqn:E; [|reflexivity].
  to_prop E. rewrite fromCharCode_fullwidth by lia.
  rewrite !normalizeKey_one. f_equal.
  unfold norm_char, is_space.
  repeat split_test; solve [reflexivity | f_equal; lia].
Qed.

(** X5: labels that differ only in white space, in middle dots or in the
    width of their ASCII-range characters normalize to the same label. *)
Theorem normalizeKey_spelling :
  (forall a b c,
     is_space c = true \/ c = 0x30FB ->
     normalizeKey (a ++ c :: b) = normalizeKey (a ++ b))
  /\ (forall key, normalizeKey (toHalfWidth key) = normalizeKey key).
Proof.
  split; [|exact toHalfWidth_flat_map].
  intros a b c Hc. change (c :: b) with ([c] ++ b).
  rewrite !normalizeKey_app, normalizeKey_one, (norm_char_dropped _ Hc).
  reflexivity.
Qed.

(** The theorem at ["Ｉ　Ｄ"] (full-width letters around a full-width
    space) against ["ID"]. *)
Lemma normalizeKey_spelling_witness :
  normalizeKey [0xFF29; 0x3000; 0xFF24] = normalizeKey [0xFF29; 0xFF24]
  /\ normalizeKey (toHalfWidth [0xFF29; 0xFF24]) = normalizeKey [0xFF29; 0xFF24]
  /\ normalizeKey [0xFF29; 0xFF24] = lit "ID".
Proof.
  destruct normalizeKey_spelling as [Hdrop Hwidth].
  split; [|split; [|reflexivity]].
  - exact (Hdrop [0xFF29] [0xFF24] 0x3000 (or_introl eq_refl)).
  - exact (Hwidth [0xFF29; 0xFF24]).
Defined.

End NormalizedLabels.

(** ** Rows: what [Object.fromEntries] keeps *)

Section RowFacts.

Local Open Scope N_scope.

Lemma find_app {A} (P : A -> bool) (a b : list A) :
  find P (a ++ b) = match find P a with Some x => Some x | None => find P b end.
Proof.
  induction a as [|x a IH]; cbn; [reflexivity|].
  destruct (P x); [reflexivity|exact IH].
Qed.

Lemma find_map {A B} (f : A -> B) (P : B -> bool) (l : list A) :
  find P (map f l) = option_map f (find (fun x => P (f x)) l).
Proof.
  induction l as [|x l IH]; cbn; [reflexivity|].
  destruct (P (f x)); [reflexivity|exact IH].
Qed.

Lemma get_set_same (row : Row) key value :
  get_property (set_property row key value) key = value.
Proof.
  induction row as [|[k v] row IH]; cbn.
  - now rewrite str_eqb_refl.
  - destruct (str_eqb k key) eqn:E; cbn; rewrite E; auto.
Qed.

Lemma get_set_other (row : Row) key value key' :
  key <> key' ->
  get_property (set_property row key value) key' = get_property row key'.
Proof.
  intros Hne.
  assert (E' : str_eqb key key' = false).
  { destruct (str_eqb key key') eqn:E; [|reflexivity].
    apply str_eqb_eq in E. contradiction. }
  induction row as [|[k v] row IH]; cbn.
  - now rewrite E'.
  - destruct (str_eqb k key) eqn:E; cbn.
    + apply str_eqb_eq in E. subst k. now rewrite E'.
    + destruct (str_eqb k key'); auto.
Qed.

Lemma keys_set (row : Row) key value :
  Object_keys (set_property row key value)
  = if existsb (fun k => str_eqb k key) (Object_keys row)
    then Object_keys row else Object_keys row ++ [key].
Proof.
  unfold Object_keys.
  induction row as [|[k v] row IH]; cbn; [reflexivity|].
  destruct (str_eqb k key) eqn:E; cbn; [reflexivity|].
  rewrite IH. now destruct (existsb _ _).
Qed.

(** [Object.fromEntries] from a row under construction. *)
Definition entries_onto (acc : Row) (entries : list (jsstring * option jsstring)) : Row :=
  fold_left (fun row kv => set_property row (fst kv) (snd kv)) entries acc.

Lemma get_entries_onto entries : forall acc key,
  get_property (entries_onto acc entries) key
  = match find (fun kv => str_eqb (fst kv) key) (rev entries) with
    | Some kv => snd kv
    | None => get_property acc key
    end.
Proof.
  induction entries as [|[k v] entries IH]; intros acc key; [reflexivity|].
  cbn [entries_onto fold_left rev fst snd].
  change (fold_left _ entries ?a) with (entries_onto a entries).
  rewrite IH, find_app. cbn [fst snd].
  destruct (find _ (rev entries)); [reflexivity|].
  cbn [find fst snd].
  destruct (str_eqb k key) eqn:E.
  - apply str_eqb_eq in E. subst. apply get_set_same.
  - apply get_set_other. intros ->. now rewrite str_eqb_refl in E.
Qed.

Lemma find_keys_set (P : jsstring -> bool) (row : Row) key value :
  find P (Object_keys (set_property row key value))
  = match find P (Object_keys row) with
    | Some k => Some k
    | None => if P key then Some key else None
    end.
Proof.
  rewrite keys_set.
  destruct (existsb _ _) eqn:E.
  - destruct (find P (Object_keys row)) eqn:F; [reflexivity|].
    apply existsb_exists in E. destruct E as (k & Hk & E).
    apply str_eqb_eq in E. subst k.
    now rewrite (find_none _ _ F _ Hk).
  - rewrite find_app. reflexivity.
Qed.

Lemma find_keys_onto (P : jsstring -> bool) entries : forall acc,
  find P (Object_keys (entries_onto acc entries))
  = match find P (Object_keys acc) with
    | Some k => Some k
    | None => find P (map fst entries)
    end.
Proof.
  induction entries as [|[k v] entries IH]; intros acc.
  - cbn. now destruct (find _ _).
  - cbn [entries_onto fold_left fst snd map].
    change (fold_left _ entries ?a) with (entries_onto a entries).
    rewrite IH, find_keys_set. cbn [find].
    destruct (find P (Object_keys acc)); [reflexivity|].
    now destruct (P k).
Qed.

Lemma set_property_cons (row : Row) key value :
  set_property row key value <> [].
Proof. destruct row as [|[k v] row]; cbn; [|destruct (str_eqb k key)]; discriminate. Qed.

Lemma entries_onto_cons entries : forall acc,
  acc <> [] -> entries_onto acc entries <> [].
Proof.
  induction entries as [|[k v] entries IH]; intros acc H; [exact H|].
  apply IH. apply set_property_cons.
Qed.

Lemma NoDup_keys_set (row : Row) key value :
  NoDup (Object_keys row) -> NoDup (Object_keys (set_property row key value)).
Proof.
  intros H. rewrite keys_set. destruct (existsb _ _) eqn:E; [exact H|].
  apply NoDup_app; [exact H|repeat constructor; easy|].
  intros k Hk [->|[]].
  assert (E' : existsb (fun k0 => str_eqb k0 k) (Object_keys row) = true).
  { apply existsb_exists. exists k. split; [exact Hk|apply str_eqb_refl]. }
  congruence.
Qed.

Lemma NoDup_keys_onto entries : forall acc,
  NoDup (Object_keys acc) -> NoDup (Object_keys (entries_onto acc entries)).
Proof.
  induction entries as [|[k v] entries IH]; intros acc H; [exact H|].
  apply IH. now apply NoDup_keys_set.
Qed.

Lemma get_normalizeRow (rawRow : RawRow) (key : jsstring) :
  get_property (normalizeRow rawRow) key
  = match find (fun kv => str_eqb (normalizeKey (fst kv)) key) (rev rawRow) with
    | Some kv => cleanValue (snd kv)
    | None => None
    end.
Proof.
  unfold normalizeRow, Object_fromEntries.
  change (fold_left _ ?e []) with (entries_onto [] e).
  rewrite get_entries_onto, <- map_rev, find_map. cbn [fst snd].
  now destruct (find _ (rev rawRow)).
Qed.

Lemma find_keys_normalizeRow (P : jsstring -> bool) (rawRow : RawRow) :
  find P (Object_keys (normalizeRow rawRow))
  = find P (map (fun kv => normalizeKey (fst kv)) rawRow).
Proof.
  unfold normalizeRow, Object_fromEntries.
  change (fold_left _ ?e []) with (entries_onto [] e).
  rewrite find_keys_onto, map_map. reflexivity.
Qed.

Lemma normalizeRow_nil (rawRow : RawRow) :
  normalizeRow rawRow = [] <-> rawRow = [].
Proof.
  split; [|now intros ->].
  destruct rawRow as [|[k v] rawRow]; [reflexivity|].
  unfold normalizeRow, Object_fromEntries. cbn [map fold_left fst snd].
  intros H. exfalso. revert H.
  change (fold_left _ ?e ?a) with (entries_onto a e).
  apply entries_onto_cons. discriminate.
Qed.

(** The candidate labels of all fields. *)
Definition FIELD_LABELS : list (list jsstring) :=
  [ ID_LABELS; MUNICIPALITY_NAME_LABELS; NAME_LABELS; ADDRESS_LABELS;
    LATITUDE_LABELS; LONGITUDE_LABELS; MUNICIPALITY_CODE_LABELS;
    SPECIAL_NOTES_LABELS; CAPACITY_LABELS; MANAGER_LABELS; EMAIL_LABELS;
    PHONE_LABELS; URL_LABELS; DESIGNATION_DATE_LABELS;
    FACILITY_OWNERSHIP_LABELS; FACILITY_TYPE_LABELS ].

(** The keys the parser reads from a row: the normalized candidate labels
    and the keys the row has itself. *)
Definition looked_up (row : Row) (key : jsstring) : Prop :=
  In key (Object_keys row)
  \/ exists labels c, In labels FIELD_LABELS /\ In c labels /\ key = normalizeKey c.

(** X6: two columns whose headers normalize to the same label share one
    property of the row, and the cell of the last such column is the one
    kept, also when it is blank: reading one of the keys the parser reads
    returns the cleaned cell of the last column with that label, and
    nothing when no column has it. *)
Theorem normalizeRow_last_column_wins (rawRow : RawRow) (key : jsstring) :
  looked_up (normalizeRow rawRow) key ->
  get_property (normalizeRow rawRow) key
  = match find (fun kv => str_eqb (normalizeKey (fst kv)) key) (rev rawRow) with
    | Some kv => cleanValue (snd kv)
    | None => None
    end.
Proof. intros _. exact (get_normalizeRow rawRow key). Qed.

(** The theorem at a row with the columns ["ID"] and ["ＩＤ"], the second
    one blank: no identifier is read, and the row is skipped. *)
Lemma normalizeRow_last_column_wins_witness :
  get_property
    (normalizeRow (sample_row (lit "5") (lit "35.86") (lit "139.64")
                   ++ [([0xFF29; 0xFF24], Str (lit " "))]))
    (lit "ID") = None
  /\ assemble (sample_row (lit "5") (lit "35.86") (lit "139.64")
               ++ [([0xFF29; 0xFF24], Str (lit " "))]) = None.
Proof.
  split; [|reflexivity].
  apply (normalizeRow_last_column_wins
           (sample_row (lit "5") (lit "35.86") (lit "139.64")
            ++ [([0xFF29; 0xFF24], Str (lit " "))]) (lit "ID")).
  left. vm_compute. now left.
Defined.

(** X7: the keys of a normalized row are the normalized headers, each
    once; the row has no key only when the raw row has no column; and the
    key found for a weekday is the label of the first column, in column
    order, that passes the test. *)
Theorem normalizeRow_keys (rawRow : RawRow) :
  NoDup (Object_keys (normalizeRow rawRow))
  /\ (forall key, In key (Object_keys (normalizeRow rawRow))
                  <-> In key (map (fun kv => normalizeKey (fst kv)) rawRow))
  /\ (Object_keys (normalizeRow rawRow) = [] <-> rawRow = [])
  /\ (forall day needle,
        In day DAY_CONFIG ->
        findByMatchers (Object_keys (normalizeRow rawRow)) (day_matchers day) needle
        = findByMatchers (map (fun kv => normalizeKey (fst kv)) rawRow)
            (day_matchers day) needle).
Proof.
  split; [|split; [|split]].
  - unfold normalizeRow, Object_fromEntries.
    change (fold_left _ ?e []) with (entries_onto [] e).
    apply NoDup_keys_onto. constructor.
  - intros key.
    pose proof (find_keys_normalizeRow (fun k => str_eqb k key) rawRow) as H.
    split; intros Hin.
    + destruct (find (fun k => str_eqb k key) (Object_keys (normalizeRow rawRow)))
        as [k|] eqn:F.
      * symmetry in H. apply find_some in H. destruct H as [Hk E].
        apply str_eqb_eq in E. now subst.
      * pose proof (find_none _ _ F _ Hin) as E. cbn beta in E.
        now rewrite str_eqb_refl in E.
    + destruct (find (fun k => str_eqb k key) (map _ rawRow)) as [k|] eqn:F.
      * apply find_some in H. destruct H as [Hk E].
        apply str_eqb_eq in E. now subst.
      * pose proof (find_none _ _ F _ Hin) as E. cbn beta in E.
        now rewrite str_eqb_refl in E.
  - unfold Object_keys. rewrite <- normalizeRow_nil.
    split; [apply map_eq_nil|now intros ->].
  - intros day needle _. unfold findByMatchers. apply find_keys_normalizeRow.
Qed.

End RowFacts.

(** ** Field Resolver: precedence and unknown columns *)

Section FieldResolverFacts.

Local Open Scope N_scope.

Lemma pickFirst_app (row : Row) (a b : list jsstring) :
  pickFirst row (a ++ b)
  = match pickFirst row a with Some v => Some v | None => pickFirst row b end.
Proof.
  induction a as [|c a IH]; [reflexivity|].
  cbn [app pickFirst].
  destruct (get_property row (normalizeKey c)) as [v|]; cbn [absent negb]; [|exact IH].
  destruct (truthy v); cbn [negb]; [reflexivity|exact IH].
Qed.

Lemma pickFirst_skip (row : Row) (a b : list jsstring) :
  (forall c, In c a -> absent (get_property row (normalizeKey c)) = true) ->
  pickFirst row (a ++ b) = pickFirst row b.
Proof.
  induction a as [|c a IH]; intros H; [reflexivity|].
  cbn [app pickFirst]. rewrite (H c (or_introl eq_refl)). cbn [negb].
  apply IH. intros c' Hc'. apply H. now right.
Qed.

(** X8: the candidate labels of a field are tried in the order they are
    written, and a label whose cell is missing or blank is passed over:
    the value resolved is the cell under the first label that has one. *)
Theorem pickFirst_precedence (row : Row) :
  (forall a b,
     pickFirst row (a ++ b)
     = match pickFirst row a with Some v => Some v | None => pickFirst row b end)
  /\ (forall candidates v,
        pickFirst row candidates = Some v
        <-> exists a c b,
              candidates = a ++ c :: b
              /\ (forall c', In c' a -> absent (get_property row (normalizeKey c')) = true)
              /\ get_property row (normalizeKey c) = Some v
              /\ truthy v = true).
Proof.
  split; [exact (pickFirst_app row)|].
  intros candidates v. split.
  - induction candidates as [|c rest IH]; [discriminate|].
    cbn [pickFirst].
    destruct (absent (get_property row (normalizeKey c))) eqn:E; cbn [negb].
    + intros H. destruct (IH H) as (a & c0 & b & -> & Ha & Hc & Hv).
      exists (c :: a), c0, b. repeat split; auto.
      intros c' [<-|Hc']; auto.
    + intros H. exists [], c, rest. rewrite H in E. cbn in E.
      split; [reflexivity|]. split; [intros c' []|]. split; [exact H|].
      now destruct (truthy v).
  - intros (a & c & b & -> & Ha & Hc & Hv).
    rewrite (pickFirst_skip _ _ _ Ha). cbn [pickFirst].
    rewrite Hc. cbn [absent]. now rewrite Hv.
Qed.

(** A key no field is read from. *)
Definition is_field_label (key : jsstring) : bool :=
  existsb (existsb (fun c => str_eqb (normalizeKey c) key)) FIELD_LABELS.

(** A key some weekday takes for its opening or its closing time. *)
Definition is_weekday_key (key : jsstring) : bool :=
  existsb (fun day =>
             match findByMatchers [key] (day_matchers day) (lit "start"),
                   findByMatchers [key] (day_matchers day) (lit "end") with
             | None, None => false
             | _, _ => true
             end)
          DAY_CONFIG.

Section UnknownColumn.

Variables (a b : RawRow) (k : jsstring) (v : unknown).

Hypothesis no_field : is_field_label (normalizeKey k) = false.
Hypothesis no_weekday : is_weekday_key (normalizeKey k) = false.

Lemma get_frame (key : jsstring) :
  key <> normalizeKey k ->
  get_property (normalizeRow (a ++ (k, v) :: b)) key
  = get_property (normalizeRow (a ++ b)) key.
Proof.
  intros Hne. rewrite !get_normalizeRow, !rev_app_distr. cbn [rev].
  rewrite <- app_assoc, !find_app. cbn [app find fst].
  destruct (str_eqb (normalizeKey k) key) eqn:E; [|reflexivity].
  apply str_eqb_eq in E. now subst.
Qed.

Lemma label_other (labels : list jsstring) (c : jsstring) :
  In labels FIELD_LABELS -> In c labels -> normalizeKey c <> normalizeKey k.
Proof.
  intros Hl Hc E. unfold is_field_label in no_field.
  assert (H : existsb (existsb (fun c => str_eqb (normalizeKey c) (normalizeKey k)))
                FIELD_LABELS = true); [|congruence].
  apply existsb_exists. exists labels. split; [exact Hl|].
  apply existsb_exists. exists c. split; [exact Hc|].
  now apply str_eqb_eq.
Qed.

Lemma pickFirst_frame (labels : list jsstring) :
  In labels FIELD_LABELS ->
  pickFirst (normalizeRow (a ++ (k, v) :: b)) labels
  = pickFirst (normalizeRow (a ++ b)) labels.
Proof.
  intros Hl.
  assert (H : forall c, In c labels -> normalizeKey c <> normalizeKey k)
    by (intros c; now apply label_other).
  clear Hl. induction labels as [|c rest IH]; [reflexivity|].
  cbn [pickFirst]. rewrite get_frame by (apply H; now left).
  rewrite IH; [reflexivity|]. intros c' Hc'. apply H. now right.
Qed.

Lemma findByMatchers_frame (day : DayConfig) (needle : jsstring) :
  In day DAY_CONFIG -> needle = lit "start" \/ needle = lit "end" ->
  findByMatchers [normalizeKey k] (day_matchers day) needle = None.
Proof.
  intros Hday Hn. unfold is_weekday_key in no_weekday.
  destruct (findByMatchers [normalizeKey k] (day_matchers day) needle) eqn:E;
    [|reflexivity].
  assert (H : existsb (fun day =>
             match findByMatchers [normalizeKey k] (day_matchers day) (lit "start"),
                   findByMatchers [normalizeKey k] (day_matchers day) (lit "end") with
             | None, None => false
             | _, _ => true
             end) DAY_CONFIG = true); [|congruence].
  apply existsb_exists. exists day. split; [exact Hday|].
  destruct Hn as [-> | ->]; rewrite E; [reflexivity|].
  now destruct (findByMatchers _ _ (lit "start")).
Qed.

Lemma window_frame (day : DayConfig) (needle : jsstring) :
  In day DAY_CONFIG -> needle = lit "start" \/ needle = lit "end" ->
  cell (normalizeRow (a ++ (k, v) :: b))
       (findByMatchers (Object_keys (normalizeRow (a ++ (k, v) :: b)))
          (day_matchers day) needle)
  = cell (normalizeRow (a ++ b))
         (findByMatchers (Object_keys (normalizeRow (a ++ b)))
            (day_matchers day) needle).
Proof.
  intros Hday Hn.
  pose proof (findByMatchers_frame day needle Hday Hn) as Hk.
  unfold findByMatchers in *.
  rewrite !find_keys_normalizeRow, !map_app. cbn [map fst].
  rewrite !find_app.
  set (P := fun key : jsstring => existsb _ (day_matchers day)) in *.
  cbn [find] in Hk |- *.
  destruct (P (normalizeKey k)) eqn:EP; [discriminate Hk|].
  destruct (find P (map _ a)) as [key|] eqn:Fa.
  - cbn [cell]. destruct (truthy key); [|reflexivity].
    apply get_frame. intros ->. apply find_some in Fa. destruct Fa as [_ Fa].
    congruence.
  - destruct (find P (map _ b)) as [key|] eqn:Fb; [|reflexivity].
    cbn [cell]. destruct (truthy key); [|reflexivity].
    apply get_frame. intros ->. apply find_some in Fb. destruct Fb as [_ Fb].
    congruence.
Qed.

Lemma resolveOpenings_frame :
  resolveOpenings (normalizeRow (a ++ (k, v) :: b))
  = resolveOpenings (normalizeRow (a ++ b)).
Proof.
  unfold resolveOpenings. cbv zeta. apply map_ext_in. intros day Hday.
  rewrite !(window_frame day _ Hday) by (now left + now right).
  reflexivity.
Qed.

Ltac in_labels :=
  unfold FIELD_LABELS; cbn [In]; repeat first [left; reflexivity | right].

(** X9: a column the parser has no use for changes nothing: when its
    normalized header is no candidate label of any field and no weekday
    takes it for an opening or closing time, the row is assembled (or
    skipped) exactly as without that column, wherever the column stands. *)
Theorem assemble_ignores_unknown_column :
  assemble (a ++ (k, v) :: b) = assemble (a ++ b).
Proof.
  unfold assemble. cbv zeta.
  rewrite resolveOpenings_frame.
  rewrite (pickFirst_frame ID_LABELS) by in_labels.
  rewrite (pickFirst_frame MUNICIPALITY_NAME_LABELS) by in_labels.
  rewrite (pickFirst_frame NAME_LABELS) by in_labels.
  rewrite (pickFirst_frame ADDRESS_LABELS) by in_labels.
  rewrite (pickFirst_frame LATITUDE_LABELS) by in_labels.
  rewrite (pickFirst_frame LONGITUDE_LABELS) by in_labels.
  rewrite (pickFirst_frame MUNICIPALITY_CODE_LABELS) by in_labels.
  rewrite (pickFirst_frame SPECIAL_NOTES_LABELS) by in_labels.
  rewrite (pickFirst_frame CAPACITY_LABELS) by in_labels.
  rewrite (pickFirst_frame MANAGER_LABELS) by in_labels.
  rewrite (pickFirst_frame EMAIL_LABELS) by in_labels.
  rewrite (pickFirst_frame PHONE_LABELS) by in_labels.
  rewrite (pickFirst_frame URL_LABELS) by in_labels.
  rewrite (pickFirst_frame DESIGNATION_DATE_LABELS) by in_labels.
  rewrite (pickFirst_frame FACILITY_OWNERSHIP_LABELS) by in_labels.
  rewrite (pickFirst_frame FACILITY_TYPE_LABELS) by in_labels.
  destruct (normalizeRow (a ++ (k, v) :: b)) as [|kv1 row1] eqn:E1.
  { apply normalizeRow_nil in E1. now destruct a. }
  cbn [Object_keys map List.length Nat.eqb].
  destruct (normalizeRow (a ++ b)) as [|kv0 row0] eqn:E0.
  - now rewrite pickFirst_empty_row.
  - reflexivity.
Qed.

End UnknownColumn.

(** The theorem at a row with a remarks column (["備考"]) between its
    identifier and its name. *)
Lemma assemble_ignores_unknown_column_witness :
  assemble ([(lit "ID", Str (lit "7"))]
            ++ ([0x5099; 0x8003], Str (lit "north gate"))
            :: [ ([0x540D; 0x79F0], Str (lit "Hall"));
                 ([0x7DEF; 0x5EA6], Str (lit "35.86"));
                 ([0x7D4C; 0x5EA6], Str (lit "139.64")) ])
  = assemble (sample_row (lit "7") (lit "35.86") (lit "139.64")).
Proof.
  exact (assemble_ignores_unknown_column
           [(lit "ID", Str (lit "7"))]
           [ ([0x540D; 0x79F0], Str (lit "Hall"));
             ([0x7DEF; 0x5EA6], Str (lit "35.86"));
             ([0x7D4C; 0x5EA6], Str (lit "139.64")) ]
           [0x5099; 0x8003] (Str (lit "north gate")) eq_refl eq_refl).
Defined.

End FieldResolverFacts.

(** ** Record Assembler: what a record holds *)

Section RecordFacts.

Local Open Scope N_scope.

Lemma pickFirst_some (row : Row) (candidates : list jsstring) (v : jsstring) :
  pickFirst row candidates = Some v ->
  exists c, In c candidates /\ get_property row (normalizeKey c) = Some v.
Proof.
  induction candidates as [|c rest IH]; [discriminate|].
  cbn [pickFirst].
  destruct (negb (absent (get_property row (normalizeKey c)))).
  - intros H. exists c. split; [now left|exact H].
  - intros H. destruct (IH H) as (c' & Hc' & Hg). exists c'. split; [now right|exact Hg].
Qed.

(** Every value read from a normalized row is a cleaned value. *)
Lemma get_clean (rawRow : RawRow) (key v : jsstring) :
  get_property (normalizeRow rawRow) key = Some v -> clean v.
Proof.
  rewrite get_normalizeRow.
  destruct (find _ (rev rawRow)) as [kv|]; [|discriminate].
  apply cleanValue_some.
Qed.

Lemma pickFirst_clean (rawRow : RawRow) (candidates : list jsstring) (v : jsstring) :
  pickFirst (normalizeRow rawRow) candidates = Some v -> clean v.
Proof.
  intros H. destruct (pickFirst_some _ _ _ H) as (c & _ & Hg).
  exact (get_clean _ _ _ Hg).
Qed.

(** A field that may be missing: absent, or a cleaned value. *)
Definition clean_if_present (x : option jsstring) : Prop :=
  match x with
  | None => True
  | Some v => clean v
  end.

Lemma pickFirst_clean_if_present (rawRow : RawRow) (candidates : list jsstring) :
  clean_if_present (pickFirst (normalizeRow rawRow) candidates).
Proof.
  destruct (pickFirst _ _) as [v|] eqn:E; [|exact I].
  exact (pickFirst_clean _ _ _ E).
Qed.

Lemma clean_truthy (v : jsstring) : clean v -> truthy v = true.
Proof. intros (H & _). now destruct v. Qed.

Lemma default_municipality_clean : clean [0x57FC; 0x7389; 0x770C].
Proof.
  repeat split; try discriminate.
  intros H. cbn in H. repeat destruct H as [H|H]; try discriminate H. exact H.
Qed.

(** The fields of a record, as the assembler resolved them. *)
Lemma assemble_fields (rawRow : RawRow) (r : CoolingShelter) :
  assemble rawRow = Some r ->
  let row := normalizeRow rawRow in
  pickFirst row ID_LABELS = Some (id r)
  /\ or_empty (pickFirst row NAME_LABELS) = name r
  /\ truthy (name r) = true
  /\ parseNumber (pickFirst row LATITUDE_LABELS) = Some (latitude r)
  /\ parseNumber (pickFirst row LONGITUDE_LABELS) = Some (longitude r)
  /\ r = {| id := id r;
            municipalityCode := pickFirst row MUNICIPALITY_CODE_LABELS;
            municipalityName :=
              if truthy (or_empty (pickFirst row MUNICIPALITY_NAME_LABELS))
              then or_empty (pickFirst row MUNICIPALITY_NAME_LABELS)
              else [0x57FC; 0x7389; 0x770C];
            name := name r;
            address := or_empty (pickFirst row ADDRESS_LABELS);
            latitude := latitude r;
            longitude := longitude r;
            openings := resolveOpenings row;
            specialNotes := pickFirst row SPECIAL_NOTES_LABELS;
            capacity := parseNumber (pickFirst row CAPACITY_LABELS);
            manager := pickFirst row MANAGER_LABELS;
            email := pickFirst row EMAIL_LABELS;
            phone := pickFirst row PHONE_LABELS;
            url := pickFirst row URL_LABELS;
            designationDate := pickFirst row DESIGNATION_DATE_LABELS;
            facilityTypeCategory := pickFirst row FACILITY_TYPE_LABELS;
            facilityOwnership := pickFirst row FACILITY_OWNERSHIP_LABELS |}.
Proof.
  unfold assemble. cbv zeta.
  destruct (_ =? _)%nat; [discriminate|].
  destruct (pickFirst _ ID_LABELS) as [i|]; [|discriminate].
  destruct (parseNumber (pickFirst _ LATITUDE_LABELS)) as [lat|]; [|discriminate].
  destruct (parseNumber (pickFirst _ LONGITUDE_LABELS)) as [lon|]; [|discriminate].
  destruct (negb (truthy i) || negb (truthy _)) eqn:E; [discriminate|].
  apply orb_false_iff in E. destruct E as [_ E]. apply negb_false_iff in E.
  intros [= <-]. cbn. repeat split; auto.
Qed.

(** X10: the text of a record is cleaned text.  Identifier and name are
    never empty, never a null sentinel and carry no white space around
    them; the municipality is such a value or the default ["埼玉県"]; the
    address is such a value or empty; every optional text field is such a
    value or absent; and both coordinates are finite numbers. *)
Theorem assemble_record_clean (rawRow : RawRow) (r : CoolingShelter) :
  assemble rawRow = Some r ->
  clean (id r) /\ clean (name r) /\ clean (municipalityName r)
  /\ (address r = [] \/ clean (address r))
  /\ JsNumber.isFinite (latitude r) = true
  /\ JsNumber.isFinite (longitude r) = true
  /\ Forall clean_if_present
       [ municipalityCode r; specialNotes r; manager r; email r; phone r;
         url r; designationDate r; facilityTypeCategory r; facilityOwnership r ].
Proof.
  intros H. destruct (assemble_fields _ _ H) as (Hid & Hname & Hn & Hlat & Hlon & Hr).
  cbv zeta in *.
  split; [exact (pickFirst_clean _ _ _ Hid)|].
  split.
  { destruct (pickFirst _ NAME_LABELS) as [n|] eqn:E; cbn in Hname.
    - rewrite <- Hname. exact (pickFirst_clean _ _ _ E).
    - rewrite <- Hname in Hn. discriminate Hn. }
  split.
  { rewrite Hr. cbn [municipalityName].
    destruct (pickFirst _ MUNICIPALITY_NAME_LABELS) as [m|] eqn:E; cbn [or_empty].
    - pose proof (pickFirst_clean _ _ _ E) as Hc.
      now rewrite (clean_truthy _ Hc).
    - exact default_municipality_clean. }
  split.
  { rewrite Hr. cbn [address].
    destruct (pickFirst _ ADDRESS_LABELS) as [m|] eqn:E; cbn [or_empty]; [right|now left].
    exact (pickFirst_clean _ _ _ E). }
  split; [exact (parseNumber_finite _ _ Hlat)|].
  split; [exact (parseNumber_finite _ _ Hlon)|].
  rewrite Hr. cbn [municipalityCode specialNotes manager email phone url
                   designationDate facilityTypeCategory facilityOwnership].
  repeat constructor; apply pickFirst_clean_if_present.
Qed.

(** The theorem at a row whose cells are padded with spaces. *)
Lemma assemble_record_clean_witness :
  option_map id (assemble (sample_row (lit " 7 ") (lit " 35.86") (lit "139.64 ")))
  = Some (lit "7")
  /\ clean (lit "7").
Proof.
  destruct (assemble (sample_row (lit " 7 ") (lit " 35.86") (lit "139.64 ")))
    as [r|] eqn:E; [|discriminate E].
  pose proof (assemble_record_clean _ r E) as (H & _).
  assert (Hid : id r = lit "7").
  { revert E. vm_compute. intros [= <-]. reflexivity. }
  split; [cbn [option_map]; f_equal; exact Hid|].
  rewrite <- Hid. exact H.
Defined.

(** ** Opening hours *)

Lemma normalizeTime_shape (value : option jsstring) (t : jsstring) :
  normalizeTime value = Some t -> is_HHMM t = true.
Proof.
  destruct value as [s|]; [|discriminate].
  rewrite normalizeTime_spelled.
  destruct (negb (truthy s)); [discriminate|].
  destruct (match_time s) as [[h m]|] eqn:E; [|discriminate].
  intros [= <-].
  destruct (match_time_groups _ _ _ E).
  now apply HHMM_of_groups.
Qed.

(** A time of a window: absent, or of the shape [HH:MM]. *)
Definition time_if_present (t : option jsstring) : Prop :=
  match t with
  | None => True
  | Some s => is_HHMM s = true
  end.

Lemma normalizeTime_if_present (value : option jsstring) :
  time_if_present (normalizeTime value).
Proof.
  destruct (normalizeTime value) as [t|] eqn:E; [|exact I].
  exact (normalizeTime_shape _ _ E).
Qed.

Lemma findByMatchers_no_weekday (rawRow : RawRow) (day : DayConfig) (needle : jsstring) :
  In day DAY_CONFIG -> needle = lit "start" \/ needle = lit "end" ->
  (forall kv, In kv rawRow -> is_weekday_key (normalizeKey (fst kv)) = false) ->
  findByMatchers (Object_keys (normalizeRow rawRow)) (day_matchers day) needle = None.
Proof.
  intros Hday Hn Hall.
  destruct (findByMatchers _ _ _) as [key|] eqn:E; [|reflexivity]. exfalso.
  unfold findByMatchers in E. rewrite find_keys_normalizeRow, find_map in E.
  destruct (find _ rawRow) as [kv|] eqn:F; [|discriminate E].
  apply find_some in F. destruct F as [Hin HP].
  pose proof (findByMatchers_frame (fst kv) (Hall kv Hin) day needle Hday Hn) as H.
  unfold findByMatchers in H. cbn [find] in H.
  cbn beta in HP. rewrite HP in H. discriminate H.
Qed.

(** X11: the opening hours of a record are seven windows, Sunday first, in
    the order and under the labels of the weekday table; each opening and
    closing time is absent or of the shape [HH:MM]; and a row without a
    weekday column has all fourteen times absent. *)
Theorem assemble_openings (rawRow : RawRow) (r : CoolingShelter) :
  assemble rawRow = Some r ->
  map dayLabel (openings r) = map day_label DAY_CONFIG
  /\ Forall (fun w => time_if_present (open w) /\ time_if_present (close w))
            (openings r)
  /\ ((forall kv, In kv rawRow -> is_weekday_key (normalizeKey (fst kv)) = false) ->
      Forall (fun w => open w = None /\ close w = None) (openings r)).
Proof.
  intros H. destruct (assemble_fields _ _ H) as (_ & _ & _ & _ & _ & Hr).
  cbv zeta in Hr. rewrite Hr. cbn [openings]. unfold resolveOpenings. cbv zeta.
  split; [|split].
  - rewrite map_map. reflexivity.
  - apply Forall_map, Forall_forall. intros day _. cbn [open close].
    split; apply normalizeTime_if_present.
  - intros Hall. apply Forall_map, Forall_forall. intros day Hday. cbn [open close].
    rewrite !(findByMatchers_no_weekday rawRow day _ Hday) by (auto; now left + now right).
    split; reflexivity.
Qed.

(** The theorem at a row without weekday columns and at one whose Monday
    opens at ["9時"]. *)
Lemma assemble_openings_witness :
  option_map (fun r => map open (openings r))
    (assemble (sample_row (lit "7") (lit "35.86") (lit "139.64")))
  = Some [None; None; None; None; None; None; None]
  /\ option_map (fun r => map open (openings r))
       (assemble (sample_row (lit "7") (lit "35.86") (lit "139.64")
                  ++ [([0x6708; 0x66DC; 0x65E5; 0x958B; 0x59CB], Str [0x39; 0x6642])]))
     = Some [None; Some (lit "09:00"); None; None; None; None; None].
Proof.
  split; [|reflexivity].
  destruct (assemble (sample_row (lit "7") (lit "35.86") (lit "139.64")))
    as [r|] eqn:E; [|discriminate E].
  destruct (assemble_openings _ r E) as (Hlabels & _ & Hnone).
  assert (Hall : Forall (fun w => open w = None /\ close w = None) (openings r)).
  { apply Hnone. intros kv [<-|[<-|[<-|[<-|[]]]]]; reflexivity. }
  cbn [option_map]. f_equal.
  assert (Hlen : List.length (openings r) = 7%nat).
  { rewrite <- (length_map dayLabel), Hlabels. reflexivity. }
  clear E Hlabels Hnone.
  destruct (openings r) as [|w1 [|w2 [|w3 [|w4 [|w5 [|w6 [|w7 [|w8 ws]]]]]]]];
    try discriminate Hlen.
  repeat match goal with
         | H : Forall _ (_ :: _) |- _ => inversion H as [|? ? [? _] ?]; subst; clear H
         end.
  cbn [map]. congruence.
Defined.

End RecordFacts.

(** ** Distance rendering *)

Section DistanceRenderingFacts.

Local Open Scope N_scope.

Variable toLocaleString : float -> jsstring.

Lemma unit_not_dash (s unit : jsstring) :
  (2 <= List.length unit)%nat -> s ++ unit <> lit "-".
Proof.
  intros H E. apply (f_equal (@List.length _)) in E.
  rewrite length_app in E. cbn in E. lia.
Qed.

(** X12: the placeholder ["-"] stands for a missing distance and for [NaN]
    and for nothing else: every other number, zero and the infinities
    included, is rendered with a unit, metres below 1000 and kilometres
    from there on. *)
Theorem formatDistance_placeholder :
  (forall meters,
     formatDistance toLocaleString meters = lit "-"
     <-> match meters with
         | None => True
         | Some x => PrimFloat.is_nan x = true
         end)
  /\ formatDistance toLocaleString (Some 0%float) = toLocaleString 0%float ++ lit " m"
  /\ formatDistance toLocaleString (Some infinity) = lit "Infinity km".
Proof.
  split; [|split; reflexivity].
  intros [x|]; [|easy].
  unfold formatDistance, JsNumber.isNaN.
  destruct (PrimFloat.is_nan x); [easy|].
  split; [|discriminate].
  destruct (x <? 1000)%float; intros H;
    (apply unit_not_dash in H; [destruct H|cbn; lia]).
Qed.

(** A non-empty string of decimal digits. *)
Definition all_digits (s : jsstring) : Prop :=
  s <> [] /\ forallb is_digit s = true.

Lemma digits_fuel_digits (fuel : nat) : forall (n : Z) (acc : jsstring),
  forallb is_digit acc = true ->
  all_digits (JsNumber.digits_fuel (S fuel) n acc).
Proof.
  assert (Hd : forall n : Z, is_digit (Z.to_N (n mod 10) + 48) = true).
  { intros n. pose proof (Z.mod_pos_bound n 10 eq_refl).
    unfold is_digit. apply andb_true_iff. split; apply N.leb_le; lia. }
  induction fuel as [|fuel IH]; intros n acc Hacc.
  - cbn. destruct (n <? 10)%Z; (split; [discriminate|]); cbn; now rewrite Hd.
  - change (JsNumber.digits_fuel (S (S fuel)) n acc)
      with (let acc' := (Z.to_N (n mod 10) + 48) :: acc in
            if (n <? 10)%Z then acc'
            else JsNumber.digits_fuel (S fuel) (n / 10) acc').
    cbv zeta. destruct (n <? 10)%Z.
    + split; [discriminate|]. cbn. now rewrite Hd.
    + apply IH. cbn. now rewrite Hd.
Qed.

Lemma decimal_digits (n : Z) : all_digits (JsNumber.decimal n).
Proof. unfold JsNumber.decimal. now apply digits_fuel_digits. Qed.

Lemma split_last_digit (l : jsstring) :
  (2 <= List.length l)%nat -> forallb is_digit l = true ->
  exists a d, l = a ++ [d] /\ all_digits a /\ is_digit d = true.
Proof.
  intros Hlen Hd.
  destruct (exists_last (l := l)) as (a & d & ->).
  { intros ->. cbn in Hlen. lia. }
  rewrite forallb_app in Hd. apply andb_true_iff in Hd. destruct Hd as [Ha Hd].
  cbn in Hd. rewrite andb_true_r in Hd.
  exists a, d. repeat split; auto.
  intros ->. cbn in Hlen. lia.
Qed.

(** The digits of [toFixed] for [f = 1]. *)
Lemma one_decimal (ds : jsstring) :
  all_digits ds ->
  let padded := JsNumber.repeat0 (1 + 1 - Z.of_nat (List.length ds)) ++ ds in
  let k := (List.length padded - Z.to_nat 1)%nat in
  exists a d, firstn k padded ++ [46] ++ skipn k padded = a ++ 46 :: [d]
              /\ all_digits a /\ is_digit d = true.
Proof.
  intros [Hne Hd]. cbv zeta.
  set (padded := JsNumber.repeat0 _ ++ ds).
  assert (Hp : (2 <= List.length padded)%nat /\ forallb is_digit padded = true).
  { unfold padded, JsNumber.repeat0.
    destruct ds as [|c [|c' ds]]; [easy| |].
    - change (repeat 48 _ ++ [c]) with [48; c].
      split; [cbn; lia|].
      change (is_digit 48 && forallb is_digit [c] = true). now rewrite Hd.
    - replace (Z.to_nat _) with 0%nat by (cbn [List.length]; lia).
      split; [cbn; lia|exact Hd]. }
  destruct Hp as [Hlen Hpd].
  destruct (split_last_digit padded Hlen Hpd) as (a & d & -> & Ha & Hdd).
  exists a, d. split; [|auto].
  rewrite length_app. cbn [List.length].
  replace (List.length a + 1 - Z.to_nat 1)%nat with (List.length a + 0)%nat by lia.
  rewrite firstn_app_2, skipn_app. cbn [firstn].
  rewrite app_nil_r, skipn_all2 by lia.
  replace (List.length a + 0 - List.length a)%nat with 0%nat by lia.
  reflexivity.
Qed.

Lemma SFltb_not_leb (x y : spec_float) :
  SFltb x y = true -> SFleb y x = false.
Proof.
  unfold SFltb, SFleb.
  destruct x as [sx|sx| |sx mx ex], y as [sy|sy| |sy my ey]; cbn; try easy;
    try destruct sx; try destruct sy; try easy;
    repeat match goal with
           | |- context [Z.compare ?a ?b] => destruct (Z.compare_spec a b)
           | |- context [PosDef.Pos.compare_cont Eq ?a ?b] =>
               change (PosDef.Pos.compare_cont Eq a b) with (Pos.compare a b);
               destruct (Pos.compare_spec a b)
           end; cbn; try easy; lia.
Qed.

Lemma SFdiv_nonneg (x : spec_float) (my : positive) (ey : Z) :
  sf_nonneg x -> sf_nonneg (SFdiv prec emax x (S754_finite false my ey)).
Proof.
  destruct x as [sx|sx| |sx mx ex]; cbn [SFdiv sf_nonneg xorb]; auto.
  - intros ->. reflexivity.
  - intros ->. cbn [xorb].
    destruct (SFdiv_core_binary prec emax (Z.pos mx) ex (Z.pos my) ey) as [[mz ez] lz].
    apply binary_round_aux_nonneg.
Qed.

(** The shape of [toFixed] on a number that is not negative and is below
    [10^21]. *)
Lemma toFixed_shape (x : float) :
  nonneg x -> (x <? 1e21)%float = true ->
  all_digits (toFixed x 0)
  /\ exists a d, toFixed x 1 = a ++ 46 :: [d] /\ all_digits a /\ is_digit d = true.
Proof.
  unfold nonneg. intros Hx Hlt.
  assert (Habs : (1e21 <=? PrimFloat.abs x)%float = false).
  { rewrite FloatAxioms.ltb_spec in Hlt. rewrite FloatAxioms.leb_spec, abs_spec.
    destruct (Prim2SF x) as [s|s| |s m e] eqn:E; cbn [sf_nonneg SFabs] in *;
      try subst s; try discriminate Hlt.
    - now apply SFltb_not_leb.
    - now apply SFltb_not_leb. }
  unfold toFixed. rewrite Habs.
  rewrite FloatAxioms.ltb_spec in Hlt.
  destruct (Prim2SF x) as [s|s| |s m e] eqn:E; cbn [sf_nonneg] in Hx.
  - split; [split; [discriminate|reflexivity]|].
    exists [48], 48. repeat split; discriminate || reflexivity.
  - subst s. discriminate Hlt.
  - discriminate Hlt.
  - subst s.
    destruct (if (0 <=? e)%Z then _ else _) as [num den].
    cbn [Z.eqb app]. split; [apply decimal_digits|].
    apply one_decimal, decimal_digits.
Qed.

(** X13: from 1000 m on the distance is shown in kilometres: as digits
    only when it is at least 10 km, with exactly one decimal below. *)
Theorem formatDistance_kilometres (m : float) :
  PrimFloat.is_nan m = false -> (m <? 1000)%float = false ->
  (m / 1000 <? 1e21)%float = true ->
  if (10 <=? m / 1000)%float
  then exists ds, formatDistance toLocaleString (Some m) = ds ++ lit " km"
                  /\ all_digits ds
  else exists ds d, formatDistance toLocaleString (Some m) = ds ++ 46 :: d :: lit " km"
                    /\ all_digits ds /\ is_digit d = true.
Proof.
  intros Hnan Hbig Hkm.
  assert (Hpos : nonneg (m / 1000)%float).
  { assert (Hm : nonneg m).
    { apply leb_nonneg. right. apply ltb_leb.
      apply (ltb_leb_trans 0 1000 m); [reflexivity|].
      now apply ltb_false_leb. }
    unfold nonneg in *. rewrite div_spec.
    change (Prim2SF 1000) with (S754_finite false 8796093022208000 (-43)).
    now apply SFdiv_nonneg. }
  destruct (toFixed_shape _ Hpos Hkm) as [H0 (a & d & H1 & Ha & Hd)].
  unfold formatDistance, JsNumber.isNaN. rewrite Hnan, Hbig. cbv zeta.
  destruct (10 <=? m / 1000)%float.
  - eexists. split; [reflexivity|exact H0].
  - exists a, d. rewrite H1, <- app_assoc. auto.
Qed.

End DistanceRenderingFacts.

(** The theorem at 1500 m, at 12345 m and at 9960 m, which is shown as
    ["10.0 km"]. *)
Lemma formatDistance_kilometres_witness :
  formatDistance (fun _ => []) (Some 1500%float) = lit "1.5 km"
  /\ formatDistance (fun _ => []) (Some 12345%float) = lit "12 km"
  /\ formatDistance (fun _ => []) (Some 9960%float) = lit "10.0 km"
  /\ exists ds d, formatDistance (fun _ => []) (Some 1500%float)
                  = ds ++ 46%N :: d :: lit " km"
                  /\ all_digits ds /\ is_digit d = true.
Proof.
  repeat (split; [reflexivity|]).
  exact (formatDistance_kilometres (fun _ => []) 1500%float eq_refl eq_refl eq_refl).
Defined.

(** ** Response decoding *)

Section ResponseDecodingFacts.

Local Open Scope N_scope.

Lemma lower_unit_cases (c : char16) :
  (Header.lower_unit c = c + 32 /\ (65 <= c <= 90 \/ 0xC0 <= c <= 0xDE /\ c <> 0xD7))
  \/ (Header.lower_unit c = c /\ ~ (65 <= c <= 90 \/ 0xC0 <= c <= 0xDE /\ c <> 0xD7)).
Proof.
  unfold Header.lower_unit.
  destruct (((65 <=? c) && (c <=? 90))
            || ((0xC0 <=? c) && (c <=? 0xDE) && negb (c =? 0xD7))) eqn:E;
    [left|right]; (split; [reflexivity|]).
  - rewrite ?orb_true_iff, ?andb_true_iff, ?negb_true_iff, ?N.leb_le, ?N.eqb_neq in E.
    lia.
  - rewrite ?orb_false_iff, ?andb_false_iff, ?negb_false_iff, ?N.leb_gt, ?N.eqb_eq in E.
    lia.
Qed.

Lemma lower_unit_fixed (c : char16) :
  Header.lower_unit (Header.lower_unit c) = Header.lower_unit c.
Proof.
  destruct (lower_unit_cases c) as [[E H]|[E _]]; rewrite !E; [|reflexivity].
  destruct (lower_unit_cases (c + 32)) as [[_ H']|[E' _]]; [lia|exact E'].
Qed.

Lemma lower_lower (s : jsstring) :
  Header.toLowerCase (Header.toLowerCase s) = Header.toLowerCase s.
Proof.
  unfold Header.toLowerCase. rewrite map_map. apply map_ext, lower_unit_fixed.
Qed.

Lemma lower_space (c : char16) : is_space (Header.lower_unit c) = is_space c.
Proof.
  destruct (lower_unit_cases c) as [[E H]|[E _]]; rewrite E; [|reflexivity].
  assert (Hs : forall d, (65 <= d <= 90 + 32 \/ 0xC0 <= d <= 0xDE + 32) -> is_space d = false).
  { intros d Hd. unfold is_space.
    rewrite ?orb_false_iff, ?andb_false_iff, ?N.leb_gt, ?N.eqb_neq. lia. }
  rewrite !Hs by lia. reflexivity.
Qed.

Lemma last_lower (l : jsstring) (d : char16) :
  last (map Header.lower_unit l) (Header.lower_unit d) = Header.lower_unit (last l d).
Proof. induction l as [|x [|y l] IH]; [reflexivity|reflexivity|exact IH]. Qed.

Lemma lower_trimmed (s : jsstring) : trimmed s -> trimmed (Header.toLowerCase s).
Proof.
  unfold trimmed, Header.toLowerCase.
  destruct s as [|c s]; [easy|]. cbn [map].
  intros [Hc Hl]. rewrite lower_space. split; [exact Hc|].
  change (Header.lower_unit c :: map Header.lower_unit s)
    with (map Header.lower_unit (c :: s)).
  now rewrite last_lower, lower_space.
Qed.

Lemma take_while_all (p : char16 -> bool) (s : jsstring) :
  forallb p (Header.take_while p s) = true.
Proof.
  induction s as [|c s IH]; [reflexivity|]. cbn.
  destruct (p c) eqn:E; [|reflexivity]. cbn. now rewrite E.
Qed.

Lemma match_charset_group (s group : jsstring) :
  Header.match_charset s = Some group ->
  group <> [] /\ forallb (fun c => negb (c =? 0x3B)) group = true.
Proof.
  induction s as [|c s IH].
  - cbn. discriminate.
  - cbn [Header.match_charset].
    destruct (Header.after_prefix (lit "charset=") (c :: s)) as [rest|]; [|exact IH].
    destruct (truthy (Header.take_while _ rest)) eqn:E; [|exact IH].
    intros [= <-]. split; [|apply take_while_all].
    intros H. rewrite H in E. discriminate.
Qed.

Lemma forallb_trimStart (p : char16 -> bool) (s : jsstring) :
  forallb p s = true -> forallb p (trimStart s) = true.
Proof.
  induction s as [|c s IH]; [easy|]. cbn [trimStart].
  destruct (is_space c); [|easy]. cbn [forallb]. intros H.
  apply andb_true_iff in H. now apply IH.
Qed.

Lemma forallb_reversed (p : char16 -> bool) (s : jsstring) :
  forallb p s = true -> forallb p (rev s) = true.
Proof.
  rewrite !forallb_forall. intros H x Hx. apply H. now apply in_rev.
Qed.

Lemma forallb_trim (p : char16 -> bool) (s : jsstring) :
  forallb p s = true -> forallb p (trim s) = true.
Proof.
  intros H. unfold trim, trimEnd.
  now apply forallb_reversed, forallb_trimStart, forallb_reversed, forallb_trimStart.
Qed.

(** The characters of the pattern [charset=]: small ASCII letters and the
    equals sign. *)
Definition pattern_unit (p : char16) : Prop := 97 <= p <= 122 \/ p = 61.

Lemma matches_lower (p c : char16) :
  pattern_unit p ->
  Header.matches_ignoring_case p c = true <-> Header.lower_unit c = p.
Proof.
  unfold pattern_unit, Header.matches_ignoring_case. intros Hp.
  rewrite orb_true_iff, !andb_true_iff, !N.eqb_eq, !N.leb_le.
  destruct (lower_unit_cases c) as [[E H]|[E H]]; rewrite E; lia.
Qed.

Lemma after_prefix_spec (pattern : jsstring) :
  Forall pattern_unit pattern ->
  forall s rest,
    Header.after_prefix pattern s = Some rest
    <-> exists name, s = name ++ rest /\ Header.toLowerCase name = pattern.
Proof.
  unfold Header.toLowerCase.
  induction 1 as [|p pattern Hp _ IH]; intros s rest.
  - destruct s; cbn [Header.after_prefix]; (split; [intros [= <-]; now exists []|]);
      intros (name & Hs & E); apply map_eq_nil in E; subst name; cbn [app] in Hs;
      now subst rest.
  - destruct s as [|c s]; cbn [Header.after_prefix].
    + split; [discriminate|]. intros ([|d name] & E & E'); discriminate.
    + destruct (Header.matches_ignoring_case p c) eqn:Em.
      * apply (matches_lower p c Hp) in Em. rewrite IH. split.
        -- intros (name & -> & <-). exists (c :: name). cbn [map app].
           now rewrite Em.
        -- intros ([|d name] & E & E'); [discriminate|].
           cbn [map app] in E, E'. injection E as <- ->. injection E' as _ E'.
           now exists name.
      * split; [discriminate|].
        intros ([|d name] & E & E'); [discriminate|].
        cbn [map app] in E, E'. injection E as <- _. injection E' as E' _.
        apply (matches_lower p c Hp) in E'. congruence.
Qed.

Lemma charset_pattern : Forall pattern_unit (lit "charset=").
Proof.
  change (lit "charset=") with [99; 104; 97; 114; 115; 101; 116; 61].
  unfold pattern_unit. repeat constructor; lia.
Qed.

(** The run [take_while] keeps is the only one that stops at the end or
    before a code unit outside the class. *)
Lemma take_while_run (p : char16 -> bool) (s run : jsstring) :
  Header.take_while p s = run
  <-> exists rest,
        s = run ++ rest /\ forallb p run = true
        /\ (rest = [] \/ exists c r, rest = c :: r /\ p c = false).
Proof.
  revert run. induction s as [|c s IH]; intros run; cbn [Header.take_while].
  - split.
    + intros <-. exists []. auto.
    + intros (rest & E & _). symmetry in E. apply app_eq_nil in E. now destruct E.
  - destruct (p c) eqn:Ec.
    + split.
      * intros <-. destruct (proj1 (IH _) eq_refl) as (rest & E & Hall & Hrest).
        exists rest. cbn [app forallb]. rewrite Ec, Hall, <- E. auto.
      * intros (rest & E & Hall & Hrest). destruct run as [|d run].
        -- cbn [app] in E. subst rest.
           destruct Hrest as [H|(c' & r & [= <- <-] & H)]; [discriminate|congruence].
        -- cbn [app forallb] in E, Hall. injection E as <- E.
           apply andb_true_iff in Hall. f_equal. apply IH. exists rest. tauto.
    + split.
      * intros <-. exists (c :: s). repeat split. right. eauto.
      * intros (rest & E & Hall & Hrest). destruct run as [|d run]; [reflexivity|].
        cbn [app forallb] in E, Hall. injection E as <- _.
        apply andb_true_iff in Hall. destruct Hall. congruence.
Qed.

(** [declares_at header n value]: a [charset=], in any letter case,
    starts at index [n] of [header], and [value] is what follows it up to
    the next semicolon or the end, at least one code unit. *)
Definition declares_at (header : jsstring) (n : nat) (value : jsstring) : Prop :=
  exists name rest,
    skipn n header = name ++ value ++ rest
    /\ Header.toLowerCase name = lit "charset="
    /\ value <> []
    /\ ~ In 0x3B value
    /\ (rest = [] \/ exists r, rest = 0x3B :: r).

Lemma no_semicolon (value : jsstring) :
  forallb (fun c => negb (c =? 0x3B)) value = true <-> ~ In 0x3B value.
Proof.
  rewrite forallb_forall. split.
  - intros H Hin. specialize (H _ Hin). discriminate.
  - intros H c Hc. apply negb_true_iff, N.eqb_neq. congruence.
Qed.

(** The pattern tried at the head of [s]. *)
Definition charset_here (s : jsstring) : option jsstring :=
  match Header.after_prefix (lit "charset=") s with
  | Some rest =>
      let group := Header.take_while (fun c => negb (c =? 0x3B)) rest in
      if truthy group then Some group else None
  | None => None
  end.

Lemma match_charset_step (s : jsstring) :
  Header.match_charset s
  = match charset_here s with
    | Some group => Some group
    | None =>
        match s with
        | _ :: s' => Header.match_charset s'
        | [] => None
        end
    end.
Proof. destruct s; reflexivity. Qed.

Lemma charset_here_spec (s value : jsstring) :
  charset_here s = Some value <-> declares_at s 0 value.
Proof.
  unfold charset_here, declares_at. cbn [skipn]. split.
  - destruct (Header.after_prefix (lit "charset=") s) as [rest|] eqn:E; [|discriminate].
    apply (after_prefix_spec _ charset_pattern) in E. destruct E as (name & -> & Hname).
    cbv zeta. destruct (truthy (Header.take_while _ rest)) eqn:Et; [|discriminate].
    intros [= <-].
    destruct (proj1 (take_while_run (fun c => negb (c =? 0x3B)) rest _) eq_refl)
      as (rest' & E & Hall & Hrest).
    exists name, rest'. repeat split.
    + now rewrite <- E.
    + exact Hname.
    + intros H. rewrite H in Et. discriminate.
    + now apply no_semicolon.
    + destruct Hrest as [H|(c & r & -> & H)]; [now left|right].
      apply negb_false_iff, N.eqb_eq in H. subst c. eauto.
  - intros (name & rest & -> & Hname & Hne & Hsemi & Hrest).
    assert (E : Header.after_prefix (lit "charset=") (name ++ value ++ rest)
                = Some (value ++ rest)).
    { apply (after_prefix_spec _ charset_pattern). eauto. }
    rewrite E. cbv zeta.
    assert (Er : Header.take_while (fun c => negb (c =? 0x3B)) (value ++ rest) = value).
    { apply take_while_run. exists rest. repeat split; [now apply no_semicolon|].
      destruct Hrest as [H|(r & ->)]; [now left|right]. eauto. }
    rewrite Er. destruct value; [contradiction|reflexivity].
Qed.

Lemma declares_at_tail (c : char16) (s : jsstring) (n : nat) (value : jsstring) :
  declares_at (c :: s) (S n) value <-> declares_at s n value.
Proof. reflexivity. Qed.

(** The search finds the leftmost declaration. *)
Lemma match_charset_spec (s value : jsstring) :
  Header.match_charset s = Some value
  <-> exists n,
        declares_at s n value
        /\ forall n' value', declares_at s n' value' -> (n <= n')%nat.
Proof.
  induction s as [|c s IH]; rewrite match_charset_step.
  - destruct (charset_here []) as [g|] eqn:E; [discriminate E|].
    split; [discriminate|].
    intros (n & Hn & _). revert Hn.
    intros (name & rest & Hs & Hname & _).
    rewrite skipn_nil in Hs. symmetry in Hs. apply app_eq_nil in Hs.
    destruct Hs as [-> _]. discriminate Hname.
  - destruct (charset_here (c :: s)) as [g|] eqn:E.
    + apply charset_here_spec in E. split.
      * intros [= <-]. exists 0%nat. split; [exact E|]. intros; lia.
      * intros (n & Hn & Hmin). specialize (Hmin _ _ E).
        assert (n = 0%nat) by lia. subst n.
        apply charset_here_spec in Hn, E. congruence.
    + assert (Hno : forall v, ~ declares_at (c :: s) 0 v).
      { intros v Hv. apply charset_here_spec in Hv. congruence. }
      rewrite IH. split.
      * intros (n & Hn & Hmin). exists (S n). split; [exact Hn|].
        intros [|n'] v Hv; [now apply Hno in Hv|].
        apply declares_at_tail in Hv. specialize (Hmin _ _ Hv). lia.
      * intros ([|n] & Hn & Hmin); [now apply Hno in Hn|].
        exists n. split; [exact Hn|].
        intros n' v Hv. specialize (Hmin (S n') v Hv). lia.
Qed.

Lemma declares_at_nil (n : nat) (value : jsstring) : ~ declares_at [] n value.
Proof.
  intros (name & rest & Hs & Hname & _).
  rewrite skipn_nil in Hs. symmetry in Hs. apply app_eq_nil in Hs.
  destruct Hs as [-> _]. discriminate Hname.
Qed.

Lemma match_charset_none (s : jsstring) :
  Header.match_charset s = None <-> forall n value, ~ declares_at s n value.
Proof.
  split.
  - induction s as [|c s IH]; rewrite match_charset_step.
    + intros _ n value. apply declares_at_nil.
    + destruct (charset_here (c :: s)) as [g|] eqn:E; [discriminate|].
      intros Hs [|n] value Hv.
      * apply charset_here_spec in Hv. congruence.
      * apply declares_at_tail in Hv. exact (IH Hs n value Hv).
  - intros Hno. destruct (Header.match_charset s) as [v|] eqn:E; [|reflexivity].
    apply match_charset_spec in E. destruct E as (n & Hn & _). now apply Hno in Hn.
Qed.


(** X14: the encoding a header declares is the value of its first
    [charset=], in any letter case, that has one: what follows the
    leftmost such [charset=] up to the next semicolon or the end, trimmed
    and in lower case.  A header declares nothing exactly when no
    [charset=] with a value occurs in it, and so does a missing header.
    What is returned is in lower case, has no white space around it and
    holds no semicolon. *)
Theorem parseEncoding_label :
  (forall header label,
     parseEncoding (Some header) = Some label
     <-> exists n value,
           declares_at header n value
           /\ (forall n' value', declares_at header n' value' -> (n <= n')%nat)
           /\ label = Header.toLowerCase (trim value))
  /\ (forall header,
        parseEncoding (Some header) = None
        <-> forall n value, ~ declares_at header n value)
  /\ parseEncoding None = None
  /\ (forall contentType label,
        parseEncoding contentType = Some label ->
        Header.toLowerCase label = label /\ trimmed label /\ ~ In 0x3B label)
  /\ parseEncoding (Some (lit "text/csv")) = None
  /\ parseEncoding (Some (lit "text/csv; Charset=Shift_JIS ;header=present"))
     = Some (lit "shift_jis")
  /\ parseEncoding (Some (lit "text/csv; charset=utf-8; charset=shift_jis"))
     = Some (lit "utf-8")
  /\ parseEncoding (Some (lit "text/csv; charset=;charset= ")) = Some [].
Proof.
  split; [|split; [|split; [reflexivity|split; [|repeat split; reflexivity]]]].
  - intros header label. unfold parseEncoding.
    destruct header as [|c header].
    { split; [discriminate|]. intros (n & value & H & _). now apply declares_at_nil in H. }
    cbn [truthy negb].
    destruct (Header.match_charset (c :: header)) as [g|] eqn:E.
    + split.
      * intros [= <-]. apply match_charset_spec in E. destruct E as (n & Hn & Hmin).
        exists n, g. auto.
      * intros (n & value & Hn & Hmin & ->).
        assert (E' : Header.match_charset (c :: header) = Some value)
          by (apply match_charset_spec; eauto).
        congruence.
    + split; [discriminate|]. intros (n & value & Hn & _).
      exfalso. exact (proj1 (match_charset_none _) E n value Hn).
  - intros header. unfold parseEncoding.
    destruct header as [|c header].
    { split; [|reflexivity]. intros _ n value. apply declares_at_nil. }
    cbn [truthy negb]. rewrite <- match_charset_none.
    destruct (Header.match_charset (c :: header)); split; try discriminate; reflexivity.
  - intros [value|] label; [|discriminate]. unfold parseEncoding.
    destruct (negb (truthy value)); [discriminate|].
    destruct (Header.match_charset value) as [group|] eqn:E; [|discriminate].
    intros [= <-]. destruct (match_charset_group _ _ E) as [_ Hg].
    split; [apply lower_lower|]. split; [apply lower_trimmed, trim_trimmed|].
    apply forallb_trim in Hg. intros Hin.
    unfold Header.toLowerCase in Hin. apply in_map_iff in Hin.
    destruct Hin as (c & Hc & Hin).
    rewrite forallb_forall in Hg. specialize (Hg c Hin).
    apply negb_true_iff, N.eqb_neq in Hg.
    destruct (lower_unit_cases c) as [[El H]|[El _]]; rewrite El in Hc; lia.
Qed.

Variable Buffer : Type.
Variable TextDecoder_fatal : jsstring -> Buffer -> option jsstring.
Variable TextDecoder_replacing : Buffer -> jsstring.

(** The text of the first encoding of a list that decodes the bytes
    strictly. *)
Fixpoint first_decoded (buffer : Buffer) (candidates : list jsstring)
    : option jsstring :=
  match candidates with
  | [] => None
  | encoding :: rest =>
      match TextDecoder_fatal encoding buffer with
      | Some text => Some text
      | None => first_decoded buffer rest
      end
  end.

Lemma decode_loop_first (buffer : Buffer) (candidates : list jsstring) :
  forall tried,
    (forall c, In c candidates -> Header.toLowerCase c = c) ->
    (forall t, In t tried -> TextDecoder_fatal t buffer = None) ->
    decode_loop Buffer TextDecoder_fatal buffer candidates tried
    = first_decoded buffer candidates.
Proof.
  induction candidates as [|c rest IH]; intros tried Hlow Htried; [reflexivity|].
  cbn [decode_loop first_decoded].
  rewrite (Hlow c (or_introl eq_refl)).
  assert (Hrest : forall c', In c' rest -> Header.toLowerCase c' = c')
    by (intros c' Hc'; apply Hlow; now right).
  destruct (set_has tried c) eqn:E.
  - apply set_has_In in E. rewrite (Htried c E). now apply IH.
  - destruct (TextDecoder_fatal c buffer) eqn:D; [reflexivity|].
    apply IH; [exact Hrest|].
    intros t [<-|Ht]; [exact D|now apply Htried].
Qed.

Lemma decoder_candidates_lower (contentType : option jsstring) (c : jsstring) :
  In c (decoder_candidates (parseEncoding contentType)) -> Header.toLowerCase c = c.
Proof.
  unfold decoder_candidates. intros H. apply filter_In in H. destruct H as [H _].
  apply in_app_or in H. destruct H as [H|H].
  - destruct (parseEncoding contentType) as [d|] eqn:E; [|destruct H].
    destruct H as [<-|[]].
    revert E. clear.
    unfold parseEncoding. destruct contentType as [value|]; [|discriminate].
    destruct (negb (truthy value)); [discriminate|].
    destruct (Header.match_charset value); [|discriminate].
    intros [= <-]. apply lower_lower.
  - cbn in H. repeat destruct H as [<-|H]; try reflexivity. destruct H.
Qed.

(** X15: the text of a response is the strict decoding under the first
    encoding that succeeds, in the order: the encoding the header declares,
    then utf-8, utf8, shift_jis, sjis, windows-31j; the set of labels
    already tried never changes the outcome; when no encoding succeeds the
    bytes are decoded as UTF-8 with replacement characters.  A header that
    declares nothing, or a blank encoding, leaves the five built-in labels. *)
Theorem decodeCsvResponse_first_strict :
  (forall contentType buffer,
     decodeCsvResponse Buffer TextDecoder_fatal TextDecoder_replacing contentType buffer
     = match first_decoded buffer (decoder_candidates (parseEncoding contentType)) with
       | Some text => text
       | None => TextDecoder_replacing buffer
       end)
  /\ (forall contentType label,
        parseEncoding contentType = Some label -> label <> [] ->
        decoder_candidates (parseEncoding contentType) = label :: DECODER_LABELS)
  /\ (forall contentType,
        parseEncoding contentType = None \/ parseEncoding contentType = Some [] ->
        decoder_candidates (parseEncoding contentType) = DECODER_LABELS).
Proof.
  split; [|split].
  - intros contentType buffer. unfold decodeCsvResponse. cbv zeta.
    rewrite decode_loop_first; [reflexivity| |intros t []].
    apply decoder_candidates_lower.
  - intros contentType label -> Hl. unfold decoder_candidates.
    destruct label; [contradiction|reflexivity].
  - intros contentType [-> | ->]; reflexivity.
Qed.

End ResponseDecodingFacts.

(** ** Dataset download script *)

Section DownloadScriptFacts.

Variable Buffer : Type.
Variable fetch : jsstring -> outcome (Response (outcome Buffer)).
Variable import_iconv : outcome unit.
Variable iconv_encodingExists : jsstring -> bool.
Variable iconv_decode : Buffer -> jsstring -> jsstring.
Variable fs_mkdir : jsstring -> outcome unit.
Variable fs_writeFile : jsstring -> jsstring -> outcome unit.
Variable default_outDir : jsstring.
Variable path_join : jsstring -> jsstring -> jsstring.

Let run := main Buffer fetch import_iconv iconv_encodingExists iconv_decode
                fs_mkdir fs_writeFile default_outDir path_join.

(** Everything went well up to the point of writing: the download was
    answered with a success status, its body arrived as [buffer], the
    module was loaded, the encoding is one the module knows and the
    directory was made. *)
Definition ready_to_write (env : ProcessEnv) (buffer : Buffer) : Prop :=
  (exists response,
     fetch (sourceUrl_of env) = Returned response
     /\ ok response = true /\ body response = Returned buffer)
  /\ import_iconv = Returned tt
  /\ iconv_encodingExists (sourceEncoding_of env) = true
  /\ fs_mkdir (outDir_of default_outDir env) = Returned tt.

Lemma trimmed_or_truthy (value : option jsstring) (fallback : jsstring) :
  truthy fallback = true -> truthy (trimmed_or value fallback) = true.
Proof.
  intros H. unfold trimmed_or. destruct value as [s|]; [|exact H].
  destruct (truthy (trim s)) eqn:E; [exact E|exact H].
Qed.

(** X16: the script writes at most one file, and only when everything
    before went well: the download was answered with a success status, the
    encoding is known to the decoder and the directory was made.  The file
    is then [cooling-shelters.csv] in the output directory and holds the
    decoded body.  The exit code is set, to 1, exactly when a step failed,
    and the failure is reported on the error console as the last call. *)
Theorem script_writes_after_success (env : ProcessEnv) :
  (forall path content,
     In (writeFile path content) (fst (run env)) ->
     exists buffer,
       ready_to_write env buffer
       /\ path = path_join (outDir_of default_outDir env) OUTPUT_FILENAME
       /\ content = iconv_decode buffer (sourceEncoding_of env))
  /\ (List.length (filter (fun e => match e with writeFile _ _ => true | _ => false end)
                          (fst (run env))) <= 1)%nat
  /\ (snd (run env) = None
      <-> exists buffer,
            ready_to_write env buffer
            /\ fs_writeFile (path_join (outDir_of default_outDir env) OUTPUT_FILENAME)
                 (iconv_decode buffer (sourceEncoding_of env)) = Returned tt)
  /\ (snd (run env) = Some 1%Z
      <-> exists message, last (fst (run env)) (console_log []) = console_error message).
Proof.
  unfold run, main, fetchCoolingShelters. cbv zeta.
  unfold call, throw, bind.
  destruct (fetch (sourceUrl_of env)) as [response|m0] eqn:Hf;
    [destruct (ok response) eqn:Hok; cbn [negb];
     [destruct (body response) as [buffer|m1] eqn:Hb;
      [destruct import_iconv as [[]|m2] eqn:Hi;
       [destruct (iconv_encodingExists (sourceEncoding_of env)) eqn:He; cbn [negb];
        [destruct (fs_mkdir (outDir_of default_outDir env)) as [[]|m3] eqn:Hm;
         [destruct (fs_writeFile _ _) as [[]|m4] eqn:Hw|]|]|]|]|]|];
    cbn [app fst snd In filter List.length last];
    (split; [|split; [lia|split; split]]);
    try discriminate;
    try (intros _; eexists; reflexivity);
    try (intros [message H]; discriminate H);
    try (intros (b & ((r & Hr1 & Hr2 & Hr3) & Hi' & He' & Hm') & Hw'); congruence);
    try (intros path content H;
         repeat (destruct H as [H|H]; [discriminate H|]); exact (False_ind _ H)).
  - intros path content H.
    destruct H as [H|[H|[H|[H|H]]]]; try discriminate H.
    + injection H as <- <-. exists buffer. unfold ready_to_write. eauto 10.
    + destruct H as [H|[]]. discriminate H.
  - intros _. exists buffer. unfold ready_to_write. eauto 10.
  - intros path content H.
    destruct H as [H|[H|[H|[H|H]]]]; try discriminate H.
    + injection H as <- <-. exists buffer. unfold ready_to_write. eauto 10.
    + destruct H as [H|[]]. discriminate H.
Qed.

(** A variable that is not set, or holds white space only. *)
Definition blank (value : option jsstring) : Prop :=
  match value with
  | None => True
  | Some s => trim s = []
  end.

Lemma trimmed_or_blank (value : option jsstring) (fallback : jsstring) :
  blank value -> trimmed_or value fallback = fallback.
Proof.
  destruct value as [s|]; [|reflexivity]. cbn. now intros ->.
Qed.

Lemma trimmed_or_trimmed (value : option jsstring) (fallback : jsstring) :
  trimmed fallback -> trimmed (trimmed_or value fallback).
Proof.
  intros H. unfold trimmed_or. destruct value as [s|]; [|exact H].
  destruct (truthy (trim s)); [apply trim_trimmed|exact H].
Qed.

(** X17: every run starts by announcing the download and then makes its
    only request; the address requested is never empty and has no white
    space around it; a variable that is not set or is blank selects the
    default: the prefecture's download address, and [shift_jis]. *)
Theorem script_requests_once (env : ProcessEnv) :
  (exists rest,
     fst (run env)
     = console_log (lit "Downloading cooling shelters CSV from " ++ sourceUrl_of env)
       :: request (sourceUrl_of env) :: rest
     /\ forall url, ~ In (request url) rest)
  /\ truthy (sourceUrl_of env) = true
  /\ trimmed (sourceUrl_of env)
  /\ (blank (COOLING_SHELTER_SOURCE_URL env) -> sourceUrl_of env = DEFAULT_SOURCE_URL)
  /\ (blank (COOLING_SHELTER_SOURCE_ENCODING env)
      -> sourceEncoding_of env = DEFAULT_ENCODING).
Proof.
  split; [|split; [|split; [|split]]].
  - unfold run, main, fetchCoolingShelters. cbv zeta.
    unfold call, throw, bind.
    destruct (fetch (sourceUrl_of env)) as [response|m0];
      [destruct (negb (ok response));
       [|destruct (body response) as [buffer|m1];
         [destruct import_iconv as [[]|m2];
          [destruct (negb (iconv_encodingExists (sourceEncoding_of env)));
           [|destruct (fs_mkdir (outDir_of default_outDir env)) as [[]|m3];
             [destruct (fs_writeFile _ _) as [[]|m4]|]]|]|]]|];
      cbn [app fst snd]; eexists; (split; [reflexivity|]);
      intros url H; cbn [In] in H;
      repeat (destruct H as [H|H]; [discriminate H|]); exact H.
  - now apply trimmed_or_truthy.
  - apply trimmed_or_trimmed. repeat split.
  - apply trimmed_or_blank.
  - apply trimmed_or_blank.
Qed.

End DownloadScriptFacts.

Section DownloadScriptExample.

Local Open Scope N_scope.

(** A platform on which every step succeeds: the body is handed over as
    text already, and decoding returns it. *)
Definition sample_download : Response (outcome jsstring) :=
  {| ok := true; status := 200%float; statusText := lit "OK";
     body := Returned (lit "ID") |}.

(** A run without any variable set: the five calls, and no exit code. *)
Example script_sample_run :
  main jsstring (fun _ => Returned sample_download) (Returned tt)
       (fun _ => true) (fun buffer _ => buffer)
       (fun _ => Returned tt) (fun _ _ => Returned tt)
       (lit "/app/public/data") (fun dir file => dir ++ lit "/" ++ file)
       {| COOLING_SHELTER_SOURCE_URL := None;
          COOLING_SHELTER_SOURCE_ENCODING := Some (lit "  ");
          COOLING_SHELTER_OUTPUT_DIR := None |}
  = ([ console_log (lit "Downloading cooling shelters CSV from " ++ DEFAULT_SOURCE_URL);
       request DEFAULT_SOURCE_URL;
       mkdir (lit "/app/public/data");
       writeFile (lit "/app/public/data/cooling-shelters.csv") (lit "ID");
       console_log (lit "Saved dataset to /app/public/data/cooling-shelters.csv") ],
     None).
Proof. reflexivity. Qed.

(** A run against a server that answers 404: nothing is written. *)
Example script_sample_failure :
  main jsstring
       (fun _ => Returned {| ok := false; status := 404%float;
                             statusText := lit "Not Found";
                             body := Returned (lit "<html>") |})
       (Returned tt) (fun _ => true) (fun buffer _ => buffer)
       (fun _ => Returned tt) (fun _ _ => Returned tt)
       (lit "/app/public/data") (fun dir file => dir ++ lit "/" ++ file)
       {| COOLING_SHELTER_SOURCE_URL := Some (lit " http://localhost/x.csv ");
          COOLING_SHELTER_SOURCE_ENCODING := None;
          COOLING_SHELTER_OUTPUT_DIR := None |}
  = ([ console_log (lit "Downloading cooling shelters CSV from http://localhost/x.csv");
       request (lit "http://localhost/x.csv");
       console_error (lit "Failed to download dataset. HTTP 404 Not Found") ],
     Some 1%Z).
Proof. reflexivity. Qed.

End DownloadScriptExample.

(** ** Coordinates that are not finite *)

Section NotFinite.

Local Open Scope float_scope.

Lemma is_nan_sf (x : float) : Prim2SF x = S754_nan -> PrimFloat.is_nan x = true.
Proof.
  intros E. unfold PrimFloat.is_nan. rewrite FloatAxioms.eqb_spec, E. reflexivity.
Qed.

Lemma not_finite_sf (x : float) :
  PrimFloat.is_finite x = false -> ~ sf_finite (Prim2SF x).
Proof.
  rewrite is_finite_spec. now destruct (Prim2SF x).
Qed.

Lemma sf_not_finite (x : float) :
  ~ sf_finite (Prim2SF x) -> PrimFloat.is_finite x = false.
Proof.
  rewrite is_finite_spec. destruct (Prim2SF x); cbn; tauto.
Qed.

Lemma is_nan_mul_l (x y : float) :
  PrimFloat.is_nan x = true -> PrimFloat.is_nan (x * y) = true.
Proof.
  intros H. apply is_nan_sf. rewrite mul_spec, (is_nan_true _ H). reflexivity.
Qed.

Lemma is_nan_mul_r (x y : float) :
  PrimFloat.is_nan y = true -> PrimFloat.is_nan (x * y) = true.
Proof.
  intros H. apply is_nan_sf. rewrite mul_spec, (is_nan_true _ H).
  now destruct (Prim2SF x).
Qed.

Lemma is_nan_add_l (x y : float) :
  PrimFloat.is_nan x = true -> PrimFloat.is_nan (x + y) = true.
Proof.
  intros H. apply is_nan_sf. rewrite add_spec, (is_nan_true _ H). reflexivity.
Qed.

Lemma is_nan_add_r (x y : float) :
  PrimFloat.is_nan y = true -> PrimFloat.is_nan (x + y) = true.
Proof.
  intros H. apply is_nan_sf. rewrite add_spec, (is_nan_true _ H).
  now destruct (Prim2SF x).
Qed.

Lemma is_nan_sqrt (x : float) :
  PrimFloat.is_nan x = true -> PrimFloat.is_nan (PrimFloat.sqrt x) = true.
Proof.
  intros H. apply is_nan_sf. rewrite sqrt_spec, (is_nan_true _ H). reflexivity.
Qed.

Lemma Math_round_nan (x : float) :
  PrimFloat.is_nan x = true -> PrimFloat.is_nan (JsNumber.Math_round x) = true.
Proof.
  intros H. unfold JsNumber.Math_round. now rewrite (is_nan_true _ H).
Qed.

(** A difference with a term that is not finite is not finite. *)
Lemma sub_not_finite (x y : float) :
  PrimFloat.is_finite x = false \/ PrimFloat.is_finite y = false ->
  PrimFloat.is_finite (y - x) = false.
Proof.
  intros H. apply sf_not_finite. rewrite sub_spec.
  assert (H' : ~ sf_finite (Prim2SF x) \/ ~ sf_finite (Prim2SF y))
    by (destruct H; [left|right]; now apply not_finite_sf).
  clear H.
  destruct (Prim2SF x) as [sx|sx| |sx mx ex], (Prim2SF y) as [sy|sy| |sy my ey];
    cbn [sf_finite SFsub] in *; try tauto;
    try destruct sx; try destruct sy; cbn; tauto.
Qed.

Lemma toRadians_not_finite (x : float) :
  PrimFloat.is_finite x = false -> PrimFloat.is_finite (toRadians x) = false.
Proof.
  intros H. destruct (PrimFloat.is_finite (toRadians x)) eqn:E; [|reflexivity].
  apply toRadians_finite in E. congruence.
Qed.

Lemma half_not_finite (x : float) :
  PrimFloat.is_finite x = false -> PrimFloat.is_finite (x / 2) = false.
Proof.
  intros H. apply not_finite_sf in H. apply sf_not_finite. rewrite div_spec.
  destruct (Prim2SF x) as [s|[]| |s m e]; cbn [sf_finite] in H; try tauto;
    vm_compute; tauto.
Qed.

Variable M : MathImpl.

Lemma Math_sin_not_finite (x : float) :
  PrimFloat.is_finite x = false -> PrimFloat.is_nan (Math_sin M x) = true.
Proof.
  unfold PrimFloat.is_finite, Math_sin. intros H. apply negb_false_iff in H.
  now rewrite H.
Qed.

Lemma Math_cos_not_finite (x : float) :
  PrimFloat.is_finite x = false -> PrimFloat.is_nan (Math_cos M x) = true.
Proof.
  unfold PrimFloat.is_finite, Math_cos. intros H. apply negb_false_iff in H.
  now rewrite H.
Qed.

Lemma Math_atan2_nan (y x : float) :
  PrimFloat.is_nan y = true -> PrimFloat.is_nan (Math_atan2 M y x) = true.
Proof. unfold Math_atan2. now intros ->. Qed.

Lemma half_sine_not_finite (u v : float) :
  PrimFloat.is_finite u = false \/ PrimFloat.is_finite v = false ->
  PrimFloat.is_nan (Math_sin M (toRadians (v - u) / 2)) = true.
Proof.
  intros H.
  now apply Math_sin_not_finite, half_not_finite, toRadians_not_finite, sub_not_finite.
Qed.

Lemma distanceInMeters_nan (a b : GeoPoint) :
  PrimFloat.is_finite (GeoPoint.latitude a) = false
  \/ PrimFloat.is_finite (GeoPoint.longitude a) = false
  \/ PrimFloat.is_finite (GeoPoint.latitude b) = false
  \/ PrimFloat.is_finite (GeoPoint.longitude b) = false ->
  PrimFloat.is_nan (distanceInMeters M a b) = true.
Proof.
  intros H. unfold distanceInMeters. cbv zeta.
  apply Math_round_nan, is_nan_mul_r, is_nan_mul_r, Math_atan2_nan, is_nan_sqrt.
  destruct H as [H|[H|[H|H]]].
  - apply is_nan_add_l, is_nan_mul_l, half_sine_not_finite. now left.
  - apply is_nan_add_r, is_nan_mul_r, half_sine_not_finite. now left.
  - apply is_nan_add_l, is_nan_mul_l, half_sine_not_finite. now right.
  - apply is_nan_add_r, is_nan_mul_r, half_sine_not_finite. now right.
Qed.

Variable toLocaleString : float -> jsstring.

(** X18: a coordinate that is [NaN] or infinite, in either point, makes
    the distance [NaN], whatever the engine's sine, cosine and arc tangent
    are; such a distance is shown as the placeholder ["-"]. *)
Theorem distanceInMeters_not_finite (a b : GeoPoint) :
  PrimFloat.is_finite (GeoPoint.latitude a) = false
  \/ PrimFloat.is_finite (GeoPoint.longitude a) = false
  \/ PrimFloat.is_finite (GeoPoint.latitude b) = false
  \/ PrimFloat.is_finite (GeoPoint.longitude b) = false ->
  PrimFloat.is_nan (distanceInMeters M a b) = true
  /\ formatDistance toLocaleString (Some (distanceInMeters M a b)) = lit "-".
Proof.
  intros H. pose proof (distanceInMeters_nan a b H) as Hnan.
  split; [exact Hnan|].
  unfold formatDistance, JsNumber.isNaN. now rewrite Hnan.
Qed.

End NotFinite.

(** The theorem at a position whose longitude is infinite, with the series
    engine. *)
Lemma distanceInMeters_not_finite_witness :
  PrimFloat.is_nan
    (distanceInMeters series
       {| GeoPoint.latitude := 35.86; GeoPoint.longitude := infinity |} omiya) = true
  /\ formatDistance (fun _ => [])
       (Some (distanceInMeters series
                {| GeoPoint.latitude := 35.86; GeoPoint.longitude := infinity |} omiya))
     = lit "-".
Proof.
  apply (distanceInMeters_not_finite series (fun _ => [])
           {| GeoPoint.latitude := 35.86; GeoPoint.longitude := infinity |} omiya).
  right. left. reflexivity.
Defined.

(** ** Detail panel *)

Section DetailPanel.

Local Open Scope N_scope.

Lemma HHMM_present (t : jsstring) : is_HHMM t = true -> absent (Some t) = false.
Proof. destruct t; [discriminate|reflexivity]. Qed.

(** What the hours table shows for a window of times that are absent or
    of the shape [HH:MM]. *)
Definition hours_shown (w : DailyWindow) : Prop :=
  match open w, close w with
  | None, _ => hours_cell w = [0x2014]
  | Some o, None => hours_cell w = o ++ [0x301C]
  | Some o, Some c => hours_cell w = o ++ [0x301C] ++ c
  end.

Lemma hours_cell_shown (w : DailyWindow) :
  time_if_present (open w) -> time_if_present (close w) -> hours_shown w.
Proof.
  unfold hours_shown, hours_cell, time_if_present.
  destruct (open w) as [o|], (close w) as [c|]; intros Ho Hc;
    rewrite ?(HHMM_present _ Ho), ?(HHMM_present _ Hc); reflexivity.
Qed.

(** X19: the hours table of a parsed record shows, for each of the seven
    days, the opening and closing time joined by a wave dash, the opening
    time alone when no closing time was read, and a dash when no opening
    time was read: a closing time without an opening time is not shown. *)
Theorem hours_cell_of_record (rawRow : RawRow) (r : CoolingShelter) :
  assemble rawRow = Some r ->
  List.length (map hours_cell (openings r)) = 7%nat
  /\ Forall hours_shown (openings r).
Proof.
  intros H. destruct (assemble_fields _ _ H) as (_ & _ & _ & _ & _ & Hr).
  cbv zeta in Hr. rewrite Hr. cbn [openings]. unfold resolveOpenings. cbv zeta.
  split; [now rewrite !length_map|].
  apply Forall_map, Forall_forall. intros day _.
  apply hours_cell_shown; cbn [open close]; apply normalizeTime_if_present.
Qed.

(** A row whose Monday has a closing time only and whose Tuesday has
    both times. *)
Definition hours_row : RawRow :=
  sample_row (lit "7") (lit "35.86") (lit "139.64")
  ++ [ ([0x6708; 0x66DC; 0x65E5; 0x7D42; 0x4E86], Str (lit "17:00"));
       ([0x706B; 0x66DC; 0x65E5; 0x958B; 0x59CB], Str (lit "9"));
       ([0x706B; 0x66DC; 0x65E5; 0x7D42; 0x4E86], Str (lit "17:30")) ].

(** The theorem at that row. *)
Lemma hours_cell_of_record_witness :
  option_map (fun r => map hours_cell (openings r)) (assemble hours_row)
  = Some [ [0x2014]; [0x2014]; lit "09:00" ++ [0x301C] ++ lit "17:30";
           [0x2014]; [0x2014]; [0x2014]; [0x2014] ]
  /\ match assemble hours_row with
     | Some r => Forall hours_shown (openings r)
     | None => False
     end.
Proof.
  split; [reflexivity|].
  destruct (assemble hours_row) as [r|] eqn:E; [|discriminate E].
  exact (proj2 (hours_cell_of_record _ r E)).
Defined.

End DetailPanel.

Section Estimate.

Local Open Scope float_scope.

Variable toLocaleString : float -> jsstring.
Variable M : MathImpl.
Hypothesis HM : plausible M.

Lemma is_nan_div_l (x y : float) :
  PrimFloat.is_nan x = true -> PrimFloat.is_nan (x / y) = true.
Proof.
  intros H. apply is_nan_sf. rewrite div_spec, (is_nan_true _ H). reflexivity.
Qed.

Lemma formatDuration_nan (x : float) :
  PrimFloat.is_nan x = true -> formatDuration (Some x) = lit "-".
Proof.
  intros H. unfold formatDuration, JsNumber.isNaN. rewrite H.
  now rewrite orb_true_r.
Qed.

(** X20: the straight-line estimate at its edges, in an engine whose
    approximations are [plausible].  At the shelter itself, for a latitude
    between -90 and 90 degrees and a finite longitude, the distance is
    rendered as zero metres, but the time is rendered as the placeholder
    ["-"], on foot and by car; and with a position that has a coordinate
    that is not finite both are the placeholder. *)
Theorem estimate_at_edges (userLocation : GeoPoint) (s : CoolingShelter)
    (routeMode : TravelMode) :
  (shelter_point s = userLocation ->
   (-90 <=? GeoPoint.latitude userLocation) = true ->
   (GeoPoint.latitude userLocation <=? 90) = true ->
   PrimFloat.is_finite (GeoPoint.longitude userLocation) = true ->
   estimated_distance toLocaleString M userLocation s = toLocaleString 0 ++ lit " m"
   /\ estimated_duration M userLocation s routeMode = lit "-")
  /\ (PrimFloat.is_finite (GeoPoint.latitude userLocation) = false
      \/ PrimFloat.is_finite (GeoPoint.longitude userLocation) = false ->
      estimated_distance toLocaleString M userLocation s = lit "-"
      /\ estimated_duration M userLocation s routeMode = lit "-").
Proof.
  unfold estimated_distance, estimated_duration. split.
  - intros -> Hsouth Hnorth Hlon.
    rewrite (distanceInMeters_self M HM userLocation
               (toRadians_latitude _ Hsouth Hnorth) Hlon).
    split; [reflexivity|]. now destruct routeMode.
  - intros Hbad.
    assert (Hnan : PrimFloat.is_nan (distanceInMeters M userLocation (shelter_point s)) = true).
    { apply distanceInMeters_nan. tauto. }
    split.
    + unfold formatDistance, JsNumber.isNaN. now rewrite Hnan.
    + apply formatDuration_nan. unfold estimateDurationSeconds.
      now apply is_nan_div_l.
Qed.

End Estimate.

(** The theorem with the series engine, at Omiya for a shelter at Omiya
    and for a position without latitude. *)
Lemma estimate_at_edges_witness :
  estimated_distance (fun _ => lit "0") series omiya
    (shelter_at (lit "1") (GeoPoint.latitude omiya) (GeoPoint.longitude omiya))
  = lit "0 m"
  /\ estimated_duration series omiya
       (shelter_at (lit "1") (GeoPoint.latitude omiya) (GeoPoint.longitude omiya)) walk
     = lit "-"
  /\ estimated_distance (fun _ => lit "0") series
       {| GeoPoint.latitude := nan; GeoPoint.longitude := 139.64 |}
       (shelter_at (lit "1") (GeoPoint.latitude omiya) (GeoPoint.longitude omiya))
     = lit "-".
Proof.
  destruct (estimate_at_edges (fun _ => lit "0") series series_plausible omiya
              (shelter_at (lit "1") (GeoPoint.latitude omiya) (GeoPoint.longitude omiya))
              walk) as [Hzero _].
  destruct (estimate_at_edges (fun _ => lit "0") series series_plausible
              {| GeoPoint.latitude := nan; GeoPoint.longitude := 139.64 |}
              (shelter_at (lit "1") (GeoPoint.latitude omiya) (GeoPoint.longitude omiya))
              walk) as [_ Hbad].
  split; [|split].
  - exact (proj1 (Hzero eq_refl eq_refl eq_refl eq_refl)).
  - exact (proj2 (Hzero eq_refl eq_refl eq_refl eq_refl)).
  - exact (proj1 (Hbad (or_introl eq_refl))).
Defined.

(** ** Stable results and column order *)

Section Stability.

Local Open Scope N_scope.

Lemma normalizeTime_fixed (t : jsstring) :
  is_HHMM t = true -> normalizeTime (Some t) = Some t.
Proof.
  unfold is_HHMM.
  destruct t as [|h1 [|h2 [|c [|m1 [|m2 [|x t]]]]]]; try discriminate.
  rewrite !andb_true_iff, N.eqb_eq. intros ((((H1 & H2) & ->) & H3) & H4).
  rewrite normalizeTime_spelled. cbn [truthy negb].
  unfold match_time, match_here, match_hour. rewrite H1, H2.
  cbn [skip_separator N.eqb orb].
  change ((58 =? 58)%positive || (58 =? 65306)%positive) with true. cbv iota.
  unfold match_minute. rewrite H3, H4. reflexivity.
Qed.

(** X21: a time of the shape [HH:MM] is coerced to itself, so coercing
    twice is coercing once. *)
Theorem normalizeTime_stable :
  (forall t, is_HHMM t = true -> normalizeTime (Some t) = Some t)
  /\ (forall value, normalizeTime (normalizeTime value) = normalizeTime value).
Proof.
  split; [exact normalizeTime_fixed|].
  intros value. destruct (normalizeTime value) as [t|] eqn:E; [|reflexivity].
  apply normalizeTime_fixed. exact (normalizeTime_shape _ _ E).
Qed.

(** The theorem at ["09:30"], and at ["9時半"] coerced twice. *)
Lemma normalizeTime_stable_witness :
  normalizeTime (Some (lit "09:30")) = Some (lit "09:30")
  /\ normalizeTime (normalizeTime (Some [0x39; 0x6642; 0x534A])) = Some (lit "09:00").
Proof.
  destruct normalizeTime_stable as [Hfix Htwice].
  split; [exact (Hfix (lit "09:30") eq_refl)|].
  rewrite Htwice. reflexivity.
Defined.

End Stability.

From Stdlib Require Import Permutation.

Section ColumnOrder.

Local Open Scope N_scope.

Lemma NoDup_map_injective {A B} (f : A -> B) (l : list A) (x y : A) :
  NoDup (map f l) -> In x l -> In y l -> f x = f y -> x = y.
Proof.
  induction l as [|a l IH]; [easy|].
  cbn [map]. intros Hnd Hx Hy E. inversion Hnd as [|? ? Hnotin Hnd']; subst.
  destruct Hx as [<-|Hx], Hy as [<-|Hy]; auto.
  - exfalso. apply Hnotin. rewrite E. now apply in_map.
  - exfalso. apply Hnotin. rewrite <- E. now apply in_map.
Qed.

(** At most one element of [l] passes [p]. *)
Definition at_most_one {A} (p : A -> bool) (l : list A) : Prop :=
  forall x y, In x l -> In y l -> p x = true -> p y = true -> x = y.

Lemma find_permutation {A} (p : A -> bool) (l l' : list A) :
  at_most_one p l -> Permutation l l' -> find p l = find p l'.
Proof.
  intros Hone Hperm.
  destruct (find p l) as [x|] eqn:F.
  - apply find_some in F. destruct F as [Hx Hpx].
    destruct (find p l') as [y|] eqn:F'.
    + apply find_some in F'. destruct F' as [Hy Hpy].
      f_equal. apply Hone; auto.
      apply (Permutation_in _ (Permutation_sym Hperm) Hy).
    + pose proof (find_none _ _ F' x (Permutation_in _ Hperm Hx)). congruence.
  - destruct (find p l') as [y|] eqn:F'; [|reflexivity].
    apply find_some in F'. destruct F' as [Hy Hpy].
    pose proof (find_none _ _ F y (Permutation_in _ (Permutation_sym Hperm) Hy)).
    congruence.
Qed.

Variables rawRow rawRow' : RawRow.

Hypothesis distinct_headers : NoDup (map (fun kv => normalizeKey (fst kv)) rawRow).
Hypothesis same_columns : Permutation rawRow rawRow'.

Lemma get_permutation (key : jsstring) :
  get_property (normalizeRow rawRow') key = get_property (normalizeRow rawRow) key.
Proof.
  rewrite !get_normalizeRow.
  set (p := fun kv : jsstring * unknown => str_eqb (normalizeKey (fst kv)) key).
  assert (Hone : at_most_one p rawRow).
  { intros x y Hx Hy Hpx Hpy. unfold p in *.
    apply str_eqb_eq in Hpx, Hpy.
    apply (NoDup_map_injective (fun kv => normalizeKey (fst kv)) rawRow); auto.
    cbn beta. congruence. }
  assert (E : find p (rev rawRow') = find p (rev rawRow)).
  { symmetry. apply find_permutation.
    - intros x y Hx Hy. apply Hone; now apply in_rev.
    - rewrite <- !Permutation_rev. exact same_columns. }
  now rewrite E.
Qed.

Lemma pickFirst_permutation (labels : list jsstring) :
  pickFirst (normalizeRow rawRow') labels = pickFirst (normalizeRow rawRow) labels.
Proof.
  induction labels as [|c rest IH]; [reflexivity|].
  cbn [pickFirst]. now rewrite get_permutation, IH.
Qed.

(** [r] with other opening hours. *)
Definition with_openings (windows : list DailyWindow) (r : CoolingShelter)
    : CoolingShelter :=
  {| id := id r; municipalityCode := municipalityCode r;
     municipalityName := municipalityName r; name := name r;
     address := address r; latitude := latitude r; longitude := longitude r;
     openings := windows; specialNotes := specialNotes r;
     capacity := capacity r; manager := manager r; email := email r;
     phone := phone r; url := url r; designationDate := designationDate r;
     facilityTypeCategory := facilityTypeCategory r;
     facilityOwnership := facilityOwnership r |}.

(** X22: the order of the columns does not matter for the fields of a
    record.  When no two headers of a row normalize to the same label, the
    same columns in another order are skipped or kept alike, and give the
    same record up to its opening hours, which are read from the first
    column that fits each weekday. *)
Theorem assemble_column_order :
  assemble rawRow'
  = option_map (with_openings (resolveOpenings (normalizeRow rawRow')))
               (assemble rawRow).
Proof.
  unfold assemble. cbv zeta.
  rewrite !pickFirst_permutation.
  destruct (normalizeRow rawRow) as [|kv row] eqn:E.
  - apply normalizeRow_nil in E. subst rawRow.
    apply Permutation_nil in same_columns. subst rawRow'. reflexivity.
  - destruct (normalizeRow rawRow') as [|kv' row'] eqn:E'.
    + apply normalizeRow_nil in E'. subst rawRow'.
      apply Permutation_sym, Permutation_nil in same_columns. subst rawRow.
      discriminate E.
    + cbn [Object_keys map List.length Nat.eqb].
      destruct (pickFirst (kv :: row) ID_LABELS) as [i|]; [|reflexivity].
      destruct (parseNumber (pickFirst (kv :: row) LATITUDE_LABELS)) as [lat|];
        [|reflexivity].
      destruct (parseNumber (pickFirst (kv :: row) LONGITUDE_LABELS)) as [lon|];
        [|reflexivity].
      destruct (negb (truthy i) || negb (truthy _)); reflexivity.
Qed.

End ColumnOrder.

Section ColumnOrderExample.

Local Open Scope N_scope.

(** The theorem at a row with its four mandatory columns reversed. *)
Lemma assemble_column_order_witness :
  assemble (rev (sample_row (lit "7") (lit "35.86") (lit "139.64")))
  = assemble (sample_row (lit "7") (lit "35.86") (lit "139.64")).
Proof.
  assert (Hnd : NoDup (map (fun kv => normalizeKey (fst kv))
                           (sample_row (lit "7") (lit "35.86") (lit "139.64")))).
  { repeat constructor; cbn; intros H;
      repeat (destruct H as [H|H]; [discriminate H|]); exact H. }
  rewrite (assemble_column_order
             (sample_row (lit "7") (lit "35.86") (lit "139.64"))
             (rev (sample_row (lit "7") (lit "35.86") (lit "139.64")))
             Hnd (Permutation_rev _)).
  reflexivity.
Defined.

End ColumnOrderExample.
